(** * AuditFullStack: question analysis, connector selection and agent execution

    A shallow embedding of the pipeline that the wizard's Step 3 and Step 4
    drive: the keyword classifier and the analysis route of the Express
    server ([server/routes.ts], [server/storage.ts]), the Step-3 component
    ([client/src/components/wizard/step-three-new.tsx]) and the Step-4
    component ([client/src/components/wizard/step-four-new.tsx]).

    JavaScript strings are modelled by [string]; a character stands for a
    UTF-16 code unit below 256, on which [toLowerCase] and [trim] below are
    the exact JavaScript functions.  A value that may be [undefined] at run
    time is an [option]. *)

From stdpp Require Import base strings list gmap fin_maps.
From Stdlib Require Import ZArith Lia Ascii.

Local Open Scope string_scope.
Local Open Scope list_scope.
#[local] Set Warnings "-register-all".

(** ** JavaScript primitives used by the sources *)

Module Js.

(** [String.prototype.toLowerCase] on one code unit below 256: the basic
    Latin capitals and the Latin-1 capitals (U+00C0..U+00DE without the
    multiplication sign U+00D7) move up by 32. *)
Definition lowerChar (c : ascii) : ascii :=
  let n := N_of_ascii c in
  if ((65 <=? n) && (n <=? 90))%N
     || ((192 <=? n) && (n <=? 222) && negb (n =? 215))%N
  then ascii_of_N (n + 32)
  else c.

Fixpoint toLowerCase (s : string) : string :=
  match s with
  | EmptyString => EmptyString
  | String c s' => String (lowerChar c) (toLowerCase s')
  end.

(** [s.startsWith(sub)], the helper of [includes]. *)
Fixpoint startsWith (s sub : string) {struct sub} : bool :=
  match sub with
  | EmptyString => true
  | String c sub' =>
      match s with
      | EmptyString => false
      | String d s' => if Ascii.eqb c d then startsWith s' sub' else false
      end
  end.

(** [s.includes(sub)]: [sub] occurs in [s] at some position. *)
Fixpoint includes (s sub : string) : bool :=
  startsWith s sub
  || match s with
     | EmptyString => false
     | String _ s' => includes s' sub
     end.

(** White space of [trim] among the code units below 256: TAB, LF, VT, FF,
    CR, SPACE and NO-BREAK SPACE. *)
Definition isWhiteSpace (c : ascii) : bool :=
  let n := N_of_ascii c in
  (((9 <=? n) && (n <=? 13)) || (n =? 32) || (n =? 160))%N.

Fixpoint trimStart (s : string) : string :=
  match s with
  | EmptyString => EmptyString
  | String c s' => if isWhiteSpace c then trimStart s' else s
  end.

Fixpoint trimEnd (s : string) : string :=
  match s with
  | EmptyString => EmptyString
  | String c s' =>
      match trimEnd s' with
      | EmptyString => if isWhiteSpace c then EmptyString else String c EmptyString
      | t => String c t
      end
  end.

Definition trim (s : string) : string := trimEnd (trimStart s).

(** Truthiness of a string: every string but the empty one. *)
Definition truthyStr (s : string) : bool :=
  match s with
  | EmptyString => false
  | String _ _ => true
  end.

(** [a || b] where [a] is a string or [undefined]. *)
Definition orElse {A} (inj : string -> A) (a : option string) (b : A) : A :=
  match a with
  | Some s => if truthyStr s then inj s else b
  | None => b
  end.

(** [a || b] with both sides a string or [undefined]. *)
Definition orOpt (a b : option string) : option string :=
  orElse Some a b.

(** [a || 'lit'] with a string default. *)
Definition orStr (a : option string) (b : string) : string :=
  orElse (fun s => s) a b.

(** A value interpolated into a template literal. *)
Definition interpolate (a : option string) : string :=
  match a with
  | Some s => s
  | None => "undefined"
  end.

(** The double-quote character, as a string. *)
Definition dquote : string := String "034"%char EmptyString.

(** Every string all of whose characters are white space. *)
Fixpoint isBlank (s : string) : bool :=
  match s with
  | EmptyString => true
  | String c s' => isWhiteSpace c && isBlank s'
  end.

(** A JSON value as [response.json()] yields it; a number stands for an
    integral count. *)
Inductive JsValue :=
| JUndefined
| JNull
| JBool (b : bool)
| JNum (n : Z)
| JStr (s : string)
| JArr (items : list JsValue)
| JObj (props : list (string * JsValue)).

(** Truthiness: [undefined], [null], [false], [0] and the empty string are
    falsy, arrays and objects are truthy. *)
Definition truthy (v : JsValue) : bool :=
  match v with
  | JUndefined | JNull => false
  | JBool b => b
  | JNum n => negb (n =? 0)%Z
  | JStr s => truthyStr s
  | JArr _ | JObj _ => true
  end.

(** [a || b]. *)
Definition jsOr (a b : JsValue) : JsValue :=
  if truthy a then a else b.

(** The property list of a parsed object: a later duplicate key wins. *)
Fixpoint lookupProp (props : list (string * JsValue)) (k : string) : JsValue :=
  match props with
  | [] => JUndefined
  | (k', v) :: rest =>
      match lookupProp rest k with
      | JUndefined => if String.eqb k' k then v else JUndefined
      | w => w
      end
  end.

(** [v?.k] for a data property [k]: [undefined] on [undefined], [null] and
    on every value that is not an object. *)
Definition optProp (v : JsValue) (k : string) : JsValue :=
  match v with
  | JObj props => lookupProp props k
  | _ => JUndefined
  end.

End Js.

(** ** The persistence layer ([shared/schema.ts], [server/storage.ts]) *)

Module Storage.

(** The values of one inserted row.  The route passes untyped objects, so
    the two properties it reads from the request without a default may be
    missing; the remaining ones are always strings. *)
Record InsertQuestionAnalysis := mkInsert {
  ins_applicationId : option Z;
  ins_questionId : option string;
  ins_originalQuestion : option string;
  ins_category : string;
  ins_subcategory : option string;
  ins_aiPrompt : string;
  ins_toolSuggestion : string;
  ins_connectorReason : string;
  ins_connectorToUse : string
}.

(** A row of [question_analyses]. *)
Record QuestionAnalysis := mkRow {
  qa_id : Z;
  qa_applicationId : option Z;
  qa_questionId : string;
  qa_originalQuestion : string;
  qa_category : string;
  qa_subcategory : option string;
  qa_aiPrompt : string;
  qa_toolSuggestion : string;
  qa_connectorReason : string;
  qa_connectorToUse : string;
  qa_createdAt : Z
}.

(** The table with the last value of its [serial] sequence. *)
Record Table := mkTable {
  rows : list QuestionAnalysis;
  lastId : Z
}.

Inductive StorageError :=
| EmptyValues
| NotNullViolation (column : string)
| UniqueViolation (constraint : string).

(** The unique index [unique_application_question] on
    [(application_id, question_id)]: two rows collide when both
    application ids are present and equal and the question ids are equal
    (a NULL application id never collides). *)
Definition sameKey (app : option Z) (qid : string) (r : QuestionAnalysis) : bool :=
  match app, qa_applicationId r with
  | Some n, Some m => (m =? n)%Z && String.eqb (qa_questionId r) qid
  | _, _ => false
  end.

Definition conflicts (rs : list QuestionAnalysis) (app : option Z) (qid : string) : bool :=
  existsb (sameKey app qid) rs.

(** One row of an [INSERT]: the [serial] default is drawn first, then the
    NOT NULL columns are checked in column order, then the unique index.
    Three things the server also rejects are left out: a text that holds
    the character U+0000, a sequence that has no [int4] value left, and an
    [application_id] that is not the id of an application.  The statements
    below are conditional on the outcome of the insert, or exclude these
    cases by a hypothesis. *)
Definition insertRow (now : Z) (t : Table) (a : InsertQuestionAnalysis)
  : Table * (StorageError + QuestionAnalysis) :=
  let newId := (lastId t + 1)%Z in
  let keep := mkTable (rows t) newId in
  match ins_questionId a, ins_originalQuestion a with
  | None, _ => (keep, inl (NotNullViolation "question_id"))
  | Some _, None => (keep, inl (NotNullViolation "original_question"))
  | Some qid, Some oq =>
      if conflicts (rows t) (ins_applicationId a) qid
      then (keep, inl (UniqueViolation "unique_application_question"))
      else
        let r := mkRow newId (ins_applicationId a) qid oq (ins_category a)
                   (ins_subcategory a) (ins_aiPrompt a) (ins_toolSuggestion a)
                   (ins_connectorReason a) (ins_connectorToUse a) now in
        (mkTable (rows t ++ [r])%list newId, inr r)
  end.

Fixpoint insertRows (now : Z) (t : Table) (batch : list InsertQuestionAnalysis)
  : Table * (StorageError + list QuestionAnalysis) :=
  match batch with
  | [] => (t, inr [])
  | a :: rest =>
      match insertRow now t a with
      | (t', inl e) => (t', inl e)
      | (t', inr r) =>
          match insertRows now t' rest with
          | (t'', inl e) => (t'', inl e)
          | (t'', inr rs) => (t'', inr (r :: rs))
          end
      end
  end.

(** [createQuestionAnalyses]: [db.insert(questionAnalyses).values(analyses)
    .returning()], one multi-row [INSERT] statement.  The query builder
    refuses an empty list of values; a failing statement leaves the rows
    as they were (the values it drew from the sequence are not given
    back). *)
Definition createQuestionAnalyses (t : Table) (now : Z)
    (analyses : list InsertQuestionAnalysis)
  : Table * (StorageError + list QuestionAnalysis) :=
  match analyses with
  | [] => (t, inl EmptyValues)
  | _ :: _ =>
      match insertRows now t analyses with
      | (t', inl e) => (mkTable (rows t) (lastId t'), inl e)
      | (t', inr rs) => (t', inr rs)
      end
  end.

(** The key of a row under the unique index, when it has one. *)
Definition rowKey (r : QuestionAnalysis) : option (Z * string) :=
  match qa_applicationId r with
  | Some n => Some (n, qa_questionId r)
  | None => None
  end.

(** The keys of the rows that have one. *)
Definition keysOf (rs : list QuestionAnalysis) : list (Z * string) :=
  omap rowKey rs.

(** Row [r] holds the values of [a], as given. *)
Definition storedAs (a : InsertQuestionAnalysis) (r : QuestionAnalysis) : Prop :=
  ins_questionId a = Some (qa_questionId r)
  /\ ins_originalQuestion a = Some (qa_originalQuestion r)
  /\ qa_applicationId r = ins_applicationId a
  /\ qa_category r = ins_category a
  /\ qa_subcategory r = ins_subcategory a
  /\ qa_aiPrompt r = ins_aiPrompt a
  /\ qa_toolSuggestion r = ins_toolSuggestion a
  /\ qa_connectorReason r = ins_connectorReason a
  /\ qa_connectorToUse r = ins_connectorToUse a.



(** The key of a row to insert under the unique index, when it has one. *)
Definition insertKey (a : InsertQuestionAnalysis) : option (Z * string) :=
  match ins_applicationId a, ins_questionId a with
  | Some n, Some qid => Some (n, qid)
  | _, _ => None
  end.

(** The row gives a value to both NOT NULL columns that have no default. *)
Definition complete (a : InsertQuestionAnalysis) : Prop :=
  is_Some (ins_questionId a) /\ is_Some (ins_originalQuestion a).

(** The last value of the sequence of a [serial] column. *)
Definition maxSerial : Z := 2147483647.

(** The primary key: every id was drawn from the sequence, none twice. *)
Definition idsDrawn (t : Table) : Prop :=
  Forall (fun r => (qa_id r <= lastId t)%Z) (rows t) /\ NoDup (qa_id <$> rows t).

(** *** Tool connectors *)

Record InsertToolConnector := mkInsertConnector {
  itc_applicationId : option Z;
  itc_ciId : string;
  itc_connectorType : string;
  itc_configuration : Js.JsValue;
  itc_status : option string
}.

(** A row of [tool_connectors]. *)
Record ToolConnector := mkConnectorRow {
  tc_id : Z;
  tc_applicationId : option Z;
  tc_ciId : string;
  tc_connectorType : string;
  tc_configuration : Js.JsValue;
  tc_status : string;
  tc_createdAt : Z
}.

Record ConnectorTable := mkConnectorTable {
  connectorRows : list ToolConnector;
  lastConnectorId : Z
}.

(** The unique index [unique_ci_connector_type]. *)
Definition sameConnector (ciId connectorType : string) (r : ToolConnector) : bool :=
  String.eqb (tc_ciId r) ciId && String.eqb (tc_connectorType r) connectorType.

(** The key of a connector under the unique index. *)
Definition connectorKey (r : ToolConnector) : string * string :=
  (tc_ciId r, tc_connectorType r).

(** [createConnector]: a one-row [INSERT]; [status] defaults to "pending".
    A [configuration] that is missing or [null] reaches the NOT NULL
    column as SQL NULL. *)
Definition createConnector (t : ConnectorTable) (now : Z) (c : InsertToolConnector)
  : ConnectorTable * (StorageError + ToolConnector) :=
  let newId := (lastConnectorId t + 1)%Z in
  let keep := mkConnectorTable (connectorRows t) newId in
  match itc_configuration c with
  | Js.JUndefined | Js.JNull => (keep, inl (NotNullViolation "configuration"))
  | configuration =>
      if existsb (sameConnector (itc_ciId c) (itc_connectorType c)) (connectorRows t)
      then (keep, inl (UniqueViolation "unique_ci_connector_type"))
      else
        let r := mkConnectorRow newId (itc_applicationId c) (itc_ciId c)
                   (itc_connectorType c) configuration
                   (default "pending" (itc_status c)) now in
        (mkConnectorTable (connectorRows t ++ [r]) newId, inr r)
  end.

(** [getConnectorsByCiId]. *)
Definition getConnectorsByCiId (t : ConnectorTable) (ciId : string)
  : list ToolConnector :=
  List.filter (fun r => String.eqb (tc_ciId r) ciId) (connectorRows t).

(** [getConnector]: the first row with the id, or [undefined]. *)
Definition getConnector (t : ConnectorTable) (id : Z) : option ToolConnector :=
  List.find (fun r => (tc_id r =? id)%Z) (connectorRows t).

(** [deleteConnector]: [DELETE ... WHERE id = $1]; the answer is
    [rowCount > 0].  No table of [shared/schema.ts] refers to a connector,
    so no constraint rejects the statement. *)
Definition deleteConnector (t : ConnectorTable) (id : Z) : ConnectorTable * bool :=
  let kept := List.filter (fun r => negb (tc_id r =? id)%Z) (connectorRows t) in
  let rowCount := (length (connectorRows t) - length kept)%nat in
  (mkConnectorTable kept (lastConnectorId t), (0 <? rowCount)%nat).

End Storage.

(** ** The Express server: classifier and analysis route ([server/routes.ts]) *)

Module Routes.
Import Js.

(** A question as the route receives it in the request body ([any]):
    every property may be missing. *)
Record Question := mkQuestion {
  q_id : option string;
  q_question : option string;
  q_text : option string;
  q_process : option string;
  q_subProcess : option string
}.

(** [(question.question || question.text || '')]. *)
Definition questionText (q : Question) : string :=
  orStr (orOpt (q_question q) (q_text q)) EmptyString.

(** The body of [determineToolSuggestion] once the text is lower-cased. *)
Definition suggestionOfText (text : string) : string :=
  if includes text "database" || includes text "sql" || includes text "table"
  then "SQL Server"
  else if includes text "email" || includes text "outlook" || includes text "exchange"
  then "Outlook"
  else if includes text "servicenow" || includes text "snow" || includes text "ticket"
  then "ServiceNow"
  else if includes text "file" || includes text "document" || includes text "nas"
  then "NAS Path"
  else if includes text "gnosis" || includes text "knowledge"
  then "Gnosis Path"
  else "Manual Review".

Definition determineToolSuggestion (question : Question) : string :=
  let text := toLowerCase (questionText question) in
  suggestionOfText text.

Definition determineConnector (question : Question) : string :=
  let suggestion := determineToolSuggestion question in
  if String.eqb suggestion "SQL Server" then "sql_server"
  else if String.eqb suggestion "Outlook" then "outlook"
  else if String.eqb suggestion "ServiceNow" then "servicenow"
  else if String.eqb suggestion "NAS Path" then "nas_path"
  else if String.eqb suggestion "Gnosis Path" then "gnosis_path"
  else "manual".

(** The lower-cased text the classifier inspects. *)
Definition loweredText (q : Question) : string :=
  toLowerCase (questionText q).

(** A question that only carries a [question] property. *)
Definition textQuestion (s : string) : Question :=
  mkQuestion None (Some s) None None None.

Inductive HttpResponse :=
| Json (saved : list Storage.QuestionAnalysis)
| Status500 (error : string).

(** The analysis the route builds for one question. *)
Definition analysisOf (applicationId : option Z) (question : Question)
  : Storage.InsertQuestionAnalysis :=
  Storage.mkInsert
    applicationId
    (q_id question)
    (orOpt (q_question question) (q_text question))
    (orStr (q_process question) "General")
    (orOpt (q_subProcess question) None)
    ("Analyze the question: " +:+ dquote
       +:+ interpolate (orOpt (q_question question) (q_text question)) +:+ dquote)
    (determineToolSuggestion question)
    ("Based on the question content and category " +:+ dquote
       +:+ orStr (q_process question) "General" +:+ dquote)
    (determineConnector question).

(** [POST /questions/analyze]: build one analysis per question, insert
    them, answer with the saved rows; every error is a 500. *)
Definition postQuestionsAnalyze (db : Storage.Table) (now : Z)
    (applicationId : option Z) (questions : list Question)
  : Storage.Table * HttpResponse :=
  let analyses := map (analysisOf applicationId) questions in
  match Storage.createQuestionAnalyses db now analyses with
  | (db', inr savedAnalyses) => (db', Json savedAnalyses)
  | (db', inl _) => (db', Status500 "Failed to analyze questions")
  end.

End Routes.

(** ** Tool identifiers shared by the two wizard steps

    Both components declare the same [TOOL_ID_MAPPING] object literal. *)

Module ToolIds.

Definition AVAILABLE_TOOLS : list string :=
  ["SQL Server DB"; "Oracle DB"; "Gnosis Document Repository"; "Jira";
   "QTest"; "ServiceNow"].

Definition TOOL_ID_MAPPING : list (string * string) :=
  [("sql_server", "SQL Server DB");
   ("oracle_db", "Oracle DB");
   ("gnosis", "Gnosis Document Repository");
   ("jira", "Jira");
   ("qtest", "QTest");
   ("service_now", "ServiceNow")].

(** The property names an object literal inherits from [Object.prototype];
    each of them reads as a function or an object, never as a string. *)
Definition inheritedKeys : list string :=
  ["constructor"; "hasOwnProperty"; "isPrototypeOf"; "propertyIsEnumerable";
   "toLocaleString"; "toString"; "valueOf"; "__proto__";
   "__defineGetter__"; "__defineSetter__"; "__lookupGetter__";
   "__lookupSetter__"].

Fixpoint assoc (k : string) (m : list (string * string)) : option string :=
  match m with
  | [] => None
  | (k', v) :: rest => if String.eqb k' k then Some v else assoc k rest
  end.

Inductive Lookup :=
| Own (v : string)
| Inherited
| Absent.

(** [TOOL_ID_MAPPING[tool]]. *)
Definition lookupTool (tool : string) : Lookup :=
  match assoc tool TOOL_ID_MAPPING with
  | Some v => Own v
  | None => if existsb (String.eqb tool) inheritedKeys then Inherited else Absent
  end.

(** [TOOL_ID_MAPPING[tool] || tool]: [None] stands for a value that is
    not a string, which no connector type is strictly equal to. *)
Definition mappedToolType (tool : string) : option string :=
  match lookupTool tool with
  | Own v => Some v
  | Inherited => None
  | Absent => Some tool
  end.

(** [connectorType === (TOOL_ID_MAPPING[tool] || tool)]. *)
Definition matchesTool (connectorType tool : string) : bool :=
  match mappedToolType tool with
  | Some t => String.eqb connectorType t
  | None => false
  end.

(** The vocabulary of tool types: the display names and the legacy
    snake-case identifiers. *)
Definition legacyIds : list string := map fst TOOL_ID_MAPPING.
Definition vocabulary : list string := (AVAILABLE_TOOLS ++ legacyIds)%list.
Definition inVocabulary (s : string) : bool := existsb (String.eqb s) vocabulary.

End ToolIds.

(** ** Step 3: question analysis ([step-three-new.tsx]) *)

Module StepThree.
Import Js ToolIds.

Record Question := mkQuestion {
  q_id : option string;
  q_questionNumber : option string;
  q_process : option string;
  q_subProcess : option string;
  q_question : option string
}.

(** [string | string[]]. *)
Inductive ToolChoice :=
| Single (tool : string)
| Multiple (tools : list string).

Record QuestionAnalysis := mkAnalysis {
  questionId : string;
  originalQuestion : string;
  category : string;
  subcategory : string;
  aiPrompt : string;
  toolSuggestion : ToolChoice;
  connectorReason : string;
  connectorToUse : ToolChoice
}.

Record ToolConnector := mkConnector {
  c_id : Z;
  connector_type : string;
  c_ciId : string;
  c_status : string
}.

(** The component state the handlers below write. *)
Record State := mkState {
  analyses : list QuestionAnalysis;
  isAnalyzing : bool;
  analysisProgress : Z;
  isSaved : bool;
  hasUnsavedChanges : bool
}.

(** [Array.isArray(x) ? x : [x]]. *)
Definition toolSuggestions (c : ToolChoice) : list string :=
  match c with
  | Single t => [t]
  | Multiple ts => ts
  end.

Definition isArray (c : ToolChoice) : bool :=
  match c with
  | Single _ => false
  | Multiple _ => true
  end.

(** The readiness effect. *)
Definition connectorExists (connectors : list ToolConnector) (tool : string) : bool :=
  existsb (fun c => matchesTool (connector_type c) tool) connectors.

Definition toolConfigured (connectors : list ToolConnector) (tool : string) : bool :=
  connectorExists connectors tool
  && truthyStr tool
  && negb (String.eqb (trim tool) EmptyString).

Definition allQuestionsConfigured (analyses : list QuestionAnalysis)
    (connectors : list ToolConnector) : bool :=
  forallb (fun analysis =>
             forallb (toolConfigured connectors)
                     (toolSuggestions (toolSuggestion analysis)))
          analyses.

Definition canProceed (analyses : list QuestionAnalysis)
    (connectors : list ToolConnector) (isSaved : bool) : bool :=
  let hasAnalyses := (0 <? length analyses)%nat in
  hasAnalyses && allQuestionsConfigured analyses connectors && isSaved.


(** *** The analysis mutation *)

(** What the request for one question does: it throws (network error,
    error status, unreadable body) or yields a body whose [analyses]
    property may be missing. *)
Inductive ApiOutcome :=
| Throws
| Returns (analyses : option (list QuestionAnalysis)).

Definition fallbackAnalysis (question : Question) : QuestionAnalysis :=
  mkAnalysis
    (orStr (q_id question) EmptyString)
    (orStr (q_question question) EmptyString)
    (orStr (q_process question) "General")
    (orStr (q_subProcess question) "Unknown")
    ("Analyze audit question: " +:+ orStr (q_question question) EmptyString)
    (Single "SQL Server DB")
    "Fallback due to analysis error"
    (Single "SQL Server DB").

(** The loop variables of [mutationFn]; [progressLog] records each
    [processedCount / totalQuestions] the loop reports (the percentage it
    shows is that ratio rounded). *)
Record Loop := mkLoop {
  l_analyses : list QuestionAnalysis;
  processedCount : nat;
  progressLog : list (nat * nat)
}.

Definition analyzeOne (api : Question -> ApiOutcome) (totalQuestions : nat)
    (st : Loop) (question : Question) : Loop :=
  let pushed :=
    match api question with
    | Returns (Some (first :: _)) => (l_analyses st ++ [first])%list
    | Returns _ => l_analyses st
    | Throws => (l_analyses st ++ [fallbackAnalysis question])%list
    end in
  let processed := S (processedCount st) in
  mkLoop pushed processed (progressLog st ++ [(processed, totalQuestions)])%list.

(** What the loop body pushes for one question, if anything. *)
Definition pushedFor (api : Question -> ApiOutcome) (question : Question)
  : option QuestionAnalysis :=
  match api question with
  | Returns (Some (first :: _)) => Some first
  | Returns _ => None
  | Throws => Some (fallbackAnalysis question)
  end.

Definition analyzeLoop (api : Question -> ApiOutcome) (questions : list Question) : Loop :=
  fold_left (analyzeOne api (length questions)) questions (mkLoop [] 0 []).

(** How a mutation function ends. *)
Inductive Settled (A : Type) :=
| Resolved (data : A)
| Rejected (message : string).
Arguments Resolved {A} data.
Arguments Rejected {A} message.

(** [mutationFn]: [{ analyses, total: analyses.length }]. *)
Definition mutationFn (api : Question -> ApiOutcome) (questions : list Question)
  : Settled (list QuestionAnalysis * nat) :=
  let final := analyzeLoop api questions in
  Resolved (l_analyses final, length (l_analyses final)).

(** [analyzeQuestionsMutation.mutate]: the function, then [onSuccess] or
    [onError]. *)
Definition analyzeQuestionsMutation (api : Question -> ApiOutcome) (st : State)
    (questions : list Question) : State :=
  match mutationFn api questions with
  | Resolved (data, _) => mkState data false 100 false true
  | Rejected _ =>
      mkState (analyses st) false 0 (isSaved st) (hasUnsavedChanges st)
  end.

(** *** The edit handlers *)

Definition handleToolChange (questionId newTool : string) (index : Z) (st : State) : State :=
  mkState
    (imap (fun idx analysis =>
             if (Z.of_nat idx =? index)%Z
             then mkAnalysis (StepThree.questionId analysis) (originalQuestion analysis)
                    (category analysis) (subcategory analysis) (aiPrompt analysis)
                    (Single newTool)
                    (connectorReason analysis)
                    (if isArray (toolSuggestion analysis)
                     then Multiple [] else Single EmptyString)
             else analysis)
          (analyses st))
    (isAnalyzing st) (analysisProgress st) false true.

Definition handleConnectorChange (questionId connectorName : string) (index : Z)
    (st : State) : State :=
  mkState
    (imap (fun idx analysis =>
             if (Z.of_nat idx =? index)%Z
             then mkAnalysis (StepThree.questionId analysis) (originalQuestion analysis)
                    (category analysis) (subcategory analysis) (aiPrompt analysis)
                    (toolSuggestion analysis)
                    (connectorReason analysis)
                    (if isArray (toolSuggestion analysis)
                     then toolSuggestion analysis
                     else toolSuggestion analysis)
             else analysis)
          (analyses st))
    (isAnalyzing st) (analysisProgress st) false true.

(** [saveAnalysesMutation]: [onSuccess] when the request succeeds; a failed
    request only raises a toast. *)
Definition saveAnalysesMutation (succeeds : bool) (st : State) : State :=
  if succeeds
  then mkState (analyses st) (isAnalyzing st) (analysisProgress st) true false
  else st.

(** What the readiness effect hands to [setCanProceed] in a given state. *)
Definition gate (connectors : list ToolConnector) (st : State) : bool :=
  canProceed (analyses st) connectors (isSaved st).

(** *** Loading saved analyses *)

(** [TOOL_ID_MAPPING[tool] || tool] on every tool of a suggestion; [None]
    when a tool would be replaced by a value that is not a string. *)
Definition mapChoice (c : ToolChoice) : option ToolChoice :=
  match c with
  | Single tool => Single <$> mappedToolType tool
  | Multiple tools => Multiple <$> mapM mappedToolType tools
  end.

Definition loadAnalysis (analysis : QuestionAnalysis) : option QuestionAnalysis :=
  match mapChoice (toolSuggestion analysis), mapChoice (connectorToUse analysis) with
  | Some updatedToolSuggestion, Some updatedConnectorToUse =>
      Some (mkAnalysis (questionId analysis) (originalQuestion analysis)
              (category analysis) (subcategory analysis) (aiPrompt analysis)
              updatedToolSuggestion (connectorReason analysis) updatedConnectorToUse)
  | _, _ => None
  end.

(** The effect that runs when the saved analyses arrive: nothing happens
    without any; otherwise the old tool ids are converted, the analyses
    replace the state and are marked saved. *)
Definition loadExistingAnalyses (existingAnalyses : option (list QuestionAnalysis))
    (st : State) : option State :=
  match existingAnalyses with
  | Some (first :: others) =>
      match mapM loadAnalysis (first :: others) with
      | Some updatedAnalyses =>
          Some (mkState updatedAnalyses (isAnalyzing st) (analysisProgress st)
                  true (hasUnsavedChanges st))
      | None => None
      end
  | _ => Some st
  end.

(** *** Display helpers *)



End StepThree.

(** ** The settings page: the list of configuration items *)

Module Settings.
Import Js.

Record Application := mkApplication {
  app_id : Z;
  app_ciId : string
}.

(** [self.indexOf(value)]: the first position of [value], or -1. *)
Fixpoint indexOf (self : list string) (value : string) : Z :=
  match self with
  | [] => (-1)%Z
  | x :: rest =>
      if String.eqb x value then 0%Z
      else
        let i := indexOf rest value in
        if (i <? 0)%Z then (-1)%Z else (i + 1)%Z
  end.

(** [l.filter((value, index) => p(value, index))], with the index of the
    first element of [l] given. *)
Fixpoint filterFrom {A} (p : A -> nat -> bool) (index : nat) (l : list A) : list A :=
  match l with
  | [] => []
  | value :: rest =>
      if p value index then value :: filterFrom p (S index) rest
      else filterFrom p (S index) rest
  end.

(** [uniqueCiIds]: the CI id of every application, each at its first
    position only; nothing while the applications are not loaded. *)
Definition uniqueCiIds (applications : option (list Application)) : list string :=
  match applications with
  | Some apps =>
      let self := map app_ciId apps in
      filterFrom (fun value index => (indexOf self value =? Z.of_nat index)%Z) 0 self
  | None => []
  end.

(** [filteredCiIds]: the CI ids that contain the search term, letter case
    apart. *)
Definition filteredCiIds (applications : option (list Application))
    (searchTerm : string) : list string :=
  List.filter (fun ciId => includes (toLowerCase ciId) (toLowerCase searchTerm))
              (uniqueCiIds applications).

(** The [type] of the entries of [connectorConfigs]: the connector types
    the connector dialog offers. *)
Definition connectorConfigTypes : list string :=
  ["SQL Server DB"; "Oracle DB"; "Gnosis Document Repository"; "Jira";
   "QTest"; "ServiceNow"].

End Settings.

(** ** Step 4: agent execution ([step-four-new.tsx]) *)

Module StepFour.
Import Js ToolIds.

Record QuestionAnalysis := mkAnalysis {
  an_id : string;
  originalQuestion : option string;
  category : string;
  subcategory : string;
  prompt : option string;
  toolSuggestion : string;
  connectorReason : string;
  connectorToUse : string
}.

Record ToolConnector := mkConnector {
  c_id : Z;
  connectorName : string;
  connectorType : string;
  c_ciId : string;
  c_status : string
}.

Inductive ExecStatus := pending | running | completed | failed | no_connector.

#[global] Instance ExecStatus_eq_dec : EqDecision ExecStatus.
Proof. solve_decision. Defined.

(** The [result] of a completed execution; [timestamp] is the instant
    whose ISO rendering the component stores. *)
Record ExecResult := mkResult {
  data : JsValue;
  records : JsValue;
  source : string;
  timestamp : Z;
  findings : JsValue;
  riskLevel : JsValue;
  complianceStatus : JsValue
}.

(** An entry of the [executions] record.  Entries are built by spreading
    the previous entry, so every property may be missing. *)
Record AgentExecution := mkExecution {
  ex_questionId : option string;
  ex_status : option ExecStatus;
  ex_result : option ExecResult;
  ex_error : option string;
  ex_progress : option Z;
  ex_startTime : option Z;
  ex_endTime : option Z
}.

(** *** The progression gate *)

Definition executionList (executions : gmap string AgentExecution)
  : list AgentExecution :=
  (map_to_list executions).*2.

Definition isCompleted (e : AgentExecution) : bool :=
  match ex_status e with
  | Some completed => true
  | _ => false
  end.

Definition canProceed (executions : gmap string AgentExecution) : bool :=
  let executionList := executionList executions in
  let completedCount := length (List.filter isCompleted executionList) in
  (0 <? length executionList)%nat && (completedCount =? length executionList)%nat.

(** *** Connector resolution *)

Definition getConnectorForTool (connectors : list ToolConnector) (toolType : string)
  : option ToolConnector :=
  List.find (fun c => matchesTool (connectorType c) toolType
                      && String.eqb (c_status c) "active")
            connectors.

(** *** The agent call *)

Record AgentRequest := mkRequest {
  rq_questionId : string;
  rq_prompt : string;
  rq_toolType : string;
  rq_connectorId : Z
}.

(** The body of a successful answer, an object. *)
Record AgentResponse := mkResponse {
  r_analysis : JsValue;
  r_findings : JsValue;
  r_dataPoints : JsValue
}.

(** What a rejected call throws. *)
Inductive Thrown :=
| ErrorObject (message : string)
| OtherValue.

Inductive CallOutcome :=
| Rejects (e : Thrown)
| Resolves (response : AgentResponse).

(** [!applicationId] for [number | null]. *)
Definition missingId (applicationId : option Z) : bool :=
  match applicationId with
  | None => true
  | Some n => (n =? 0)%Z
  end.

(** [executeAgentMutation.mutateAsync]: three guards, then the request. *)
Definition executeAgentMutation (applicationId : option Z)
    (api : AgentRequest -> CallOutcome) (rq : AgentRequest) : CallOutcome :=
  if missingId applicationId
  then Rejects (ErrorObject "Application ID is required")
  else if negb (truthyStr (rq_questionId rq))
  then Rejects (ErrorObject "Question ID is required")
  else if negb (truthyStr (rq_prompt rq))
  then Rejects (ErrorObject "Prompt is required")
  else api rq.

Definition requestOf (analysis : QuestionAnalysis) (connector : ToolConnector)
  : AgentRequest :=
  mkRequest (an_id analysis)
    (orStr (orOpt (prompt analysis) (originalQuestion analysis)) EmptyString)
    (toolSuggestion analysis)
    (c_id connector).

(** *** [Math.random()] and the default record count

    A binary64 number that is at least 0 and below 1 is
    [mant / 2 ^ negexp] with a 53-bit [mant] and [negexp] from 53 to
    1074. *)
Record Draw := mkDraw {
  mant : Z;
  negexp : Z
}.

Definition validDraw (d : Draw) : Prop :=
  (0 <= mant d < 2 ^ 53 /\ 53 <= negexp d <= 1074)%Z.

(** [M / 2 ^ s] rounded to the nearest integer, ties to even. *)
Definition roundNearestEven (M s : Z) : Z :=
  let q := (M / 2 ^ s)%Z in
  let r := (M mod 2 ^ s)%Z in
  let half := (2 ^ (s - 1))%Z in
  if (r <? half)%Z then q
  else if (half <? r)%Z then (q + 1)%Z
  else if Z.even q then q else (q + 1)%Z.

(** [x * 50] in binary64: exact when the product has at most 53
    significant bits, rounded to 53 bits otherwise. *)
Definition times50 (x : Draw) : Draw :=
  let M := (50 * mant x)%Z in
  if (M <? 2 ^ 53)%Z then mkDraw M (negexp x)
  else
    let s := (Z.log2 M - 52)%Z in
    mkDraw (roundNearestEven M s) (negexp x - s).

(** [Math.floor]. *)
Definition mathFloor (x : Draw) : Z := (mant x / 2 ^ negexp x)%Z.

(** [Math.floor(Math.random() * 50) + 10]. *)
Definition randomRecords (rnd : Draw) : Z := (mathFloor (times50 rnd) + 10)%Z.

(** *** Result normalization *)

Definition completedResult (analysis : QuestionAnalysis) (connector : ToolConnector)
    (response : AgentResponse) (now : Z) (rnd : Draw) : ExecResult :=
  mkResult
    (jsOr (optProp (r_analysis response) "executiveSummary")
          (JStr ("Comprehensive data analysis completed for: "
                 +:+ interpolate (originalQuestion analysis))))
    (jsOr (r_dataPoints response) (JNum (randomRecords rnd)))
    (connectorName connector)
    now
    (jsOr (r_findings response) (JArr []))
    (jsOr (optProp (r_analysis response) "riskLevel") (JStr "Low"))
    (jsOr (optProp (r_analysis response) "complianceStatus") (JStr "Compliant")).

(** *** The batch run *)

Definition emptyExecution : AgentExecution :=
  mkExecution None None None None None None None.

(** [{ ...prev[key] }]. *)
Definition spread (prev : gmap string AgentExecution) (key : string) : AgentExecution :=
  default emptyExecution (prev !! key).

Definition markNoConnector (e : AgentExecution) : AgentExecution :=
  mkExecution (ex_questionId e) (Some no_connector) (ex_result e)
    (Some "No connector configured for this tool type")
    (ex_progress e) (ex_startTime e) (ex_endTime e).

Definition markRunning (now : Z) (e : AgentExecution) : AgentExecution :=
  mkExecution (ex_questionId e) (Some running) (ex_result e) (ex_error e)
    (Some 0%Z) (Some now) (ex_endTime e).

Definition markProgress (p : Z) (e : AgentExecution) : AgentExecution :=
  mkExecution (ex_questionId e) (ex_status e) (ex_result e) (ex_error e)
    (Some p) (ex_startTime e) (ex_endTime e).

Definition markCompleted (now : Z) (r : ExecResult) (e : AgentExecution) : AgentExecution :=
  mkExecution (ex_questionId e) (Some completed) (Some r) (ex_error e)
    (Some 100%Z) (ex_startTime e) (Some now).

Definition errorMessage (e : Thrown) : string :=
  match e with
  | ErrorObject message => message
  | OtherValue => "Execution failed"
  end.

Definition markFailed (now : Z) (e : Thrown) (x : AgentExecution) : AgentExecution :=
  mkExecution (ex_questionId x) (Some failed) (ex_result x) (Some (errorMessage e))
    (ex_progress x) (ex_startTime x) (Some now).

(** A call that was issued and has not settled yet. *)
Record Task := mkTask {
  t_handle : nat;
  t_analysis : QuestionAnalysis;
  t_connector : ToolConnector
}.

(** A live progress interval with its [currentProgress] variable. *)
Record Timer := mkTimer {
  tm_handle : nat;
  tm_key : string;
  tm_progress : Z
}.

(** The state of a batch run: the [executions] record, the calls awaited
    by [Promise.all], the live intervals, and the calls issued so far. *)
Record Run := mkRun {
  executions : gmap string AgentExecution;
  inflight : list Task;
  timers : list Timer;
  attempts : list AgentRequest;
  nextHandle : nat
}.

(** The synchronous part of one [analyses.map] callback: resolve the
    connector; without one mark the question and return, otherwise mark it
    running, start its interval and issue the call. *)
Definition startAgent (connectors : list ToolConnector) (startedAt : QuestionAnalysis -> Z)
    (run : Run) (analysis : QuestionAnalysis) : Run :=
  let prev := executions run in
  let key := an_id analysis in
  match getConnectorForTool connectors (toolSuggestion analysis) with
  | None =>
      mkRun (<[key := markNoConnector (spread prev key)]> prev)
            (inflight run) (timers run) (attempts run) (nextHandle run)
  | Some connector =>
      let h := nextHandle run in
      mkRun (<[key := markRunning (startedAt analysis) (spread prev key)]> prev)
            (inflight run ++ [mkTask h analysis connector])%list
            (timers run ++ [mkTimer h key 0%Z])%list
            (attempts run ++ [requestOf analysis connector])%list
            (S h)
  end.

(** [analyses.map(async ...)]: every callback runs up to its first
    [await] before any call settles. *)
Definition dispatch (connectors : list ToolConnector) (startedAt : QuestionAnalysis -> Z)
    (executions0 : gmap string AgentExecution) (analyses : list QuestionAnalysis) : Run :=
  fold_left (startAgent connectors startedAt) analyses (mkRun executions0 [] [] [] 0).

(** One firing of a progress interval. *)
Definition tick (run : Run) (before : list Timer) (tm : Timer) (after : list Timer) : Run :=
  let prev := executions run in
  let currentProgress := Z.min (tm_progress tm + 15) 85 in
  mkRun (<[tm_key tm := markProgress currentProgress (spread prev (tm_key tm))]> prev)
        (inflight run)
        (before ++ mkTimer (tm_handle tm) (tm_key tm) currentProgress :: after)%list
        (attempts run) (nextHandle run).

(** The continuation of one callback when its call settles: on success
    the interval is cleared and the result stored; on a rejection the
    [catch] block stores the failure (the interval stays live).  The
    clock is read for [endTime] ([now]) and, on success, once more for the
    [timestamp] of the result ([stamp]). *)
Definition settle (applicationId : option Z) (api : AgentRequest -> CallOutcome)
    (run : Run) (before : list Task) (task : Task) (after : list Task)
    (now stamp : Z) (rnd : Draw) : Run :=
  let prev := executions run in
  let analysis := t_analysis task in
  let connector := t_connector task in
  let key := an_id analysis in
  match executeAgentMutation applicationId api (requestOf analysis connector) with
  | Resolves response =>
      mkRun (<[key := markCompleted now
                        (completedResult analysis connector response stamp rnd)
                        (spread prev key)]> prev)
            (before ++ after)%list
            (List.filter (fun tm => negb (tm_handle tm =? t_handle task)%nat) (timers run))
            (attempts run) (nextHandle run)
  | Rejects e =>
      mkRun (<[key := markFailed now e (spread prev key)]> prev)
            (before ++ after)%list
            (timers run)
            (attempts run) (nextHandle run)
  end.

(** The asynchronous part: intervals fire and calls settle in any order. *)
Inductive step (applicationId : option Z) (api : AgentRequest -> CallOutcome)
  : Run -> Run -> Prop :=
| step_tick run before tm after :
    timers run = (before ++ tm :: after)%list ->
    step applicationId api run (tick run before tm after)
| step_settle run before task after now stamp rnd :
    inflight run = (before ++ task :: after)%list ->
    validDraw rnd ->
    step applicationId api run
      (settle applicationId api run before task after now stamp rnd).

Inductive steps (applicationId : option Z) (api : AgentRequest -> CallOutcome)
  : Run -> Run -> Prop :=
| steps_refl run : steps applicationId api run run
| steps_step run1 run2 run3 :
    step applicationId api run1 run2 ->
    steps applicationId api run2 run3 ->
    steps applicationId api run1 run3.

(** [Promise.all] resolves when no call is pending. *)
Definition finished (run : Run) : Prop := inflight run = [].

(** [executeAllAgents], from the [executions] it finds to the run in which
    [Promise.all] resolves. *)
Definition executeAllAgents (applicationId : option Z)
    (api : AgentRequest -> CallOutcome) (connectors : list ToolConnector)
    (startedAt : QuestionAnalysis -> Z) (analyses : list QuestionAnalysis)
    (executions0 : gmap string AgentExecution) (final : Run) : Prop :=
  steps applicationId api (dispatch connectors startedAt executions0 analyses) final
  /\ finished final.

(** A schedule that settles the pending calls in dispatch order, the clock
    standing at [now]. *)
Fixpoint settleInOrder (applicationId : option Z) (api : AgentRequest -> CallOutcome)
    (now : Z) (rnd : Draw) (n : nat) (run : Run) : Run :=
  match n with
  | O => run
  | S n' =>
      match inflight run with
      | [] => run
      | task :: after =>
          settleInOrder applicationId api now rnd n'
            (settle applicationId api run [] task after now now rnd)
      end
  end.

(** The status of the entry of a question. *)
Definition statusOf (executions : gmap string AgentExecution) (key : string)
  : option ExecStatus :=
  match executions !! key with
  | Some e => ex_status e
  | None => None
  end.

Definition hasStatus (s : ExecStatus) (executions : gmap string AgentExecution)
    (analysis : QuestionAnalysis) : bool :=
  bool_decide (statusOf executions (an_id analysis) = Some s).

Definition lacksConnector (connectors : list ToolConnector)
    (analysis : QuestionAnalysis) : bool :=
  match getConnectorForTool connectors (toolSuggestion analysis) with
  | Some _ => false
  | None => true
  end.

(** The status in which the batch leaves a question: without a connector
    [no_connector]; otherwise what its own call decides. *)
Definition finalStatus (applicationId : option Z) (api : AgentRequest -> CallOutcome)
    (connectors : list ToolConnector) (analysis : QuestionAnalysis) : ExecStatus :=
  match getConnectorForTool connectors (toolSuggestion analysis) with
  | None => no_connector
  | Some connector =>
      match executeAgentMutation applicationId api (requestOf analysis connector) with
      | Resolves _ => completed
      | Rejects _ => failed
      end
  end.

Definition hasConnector (connectors : list ToolConnector)
    (analysis : QuestionAnalysis) : bool :=
  negb (lacksConnector connectors analysis).

Definition taskKey (t : Task) : string := an_id (t_analysis t).

(** What holds of a run from dispatch on, for the analyses of the batch:
    a question whose call is pending is running, every other question
    already has its final status; pending calls and live intervals belong
    to questions of the batch. *)
Definition consistent (applicationId : option Z) (api : AgentRequest -> CallOutcome)
    (connectors : list ToolConnector) (analyses : list QuestionAnalysis)
    (run : Run) : Prop :=
  (forall a, a ∈ analyses ->
     (statusOf (executions run) (an_id a)
      = Some (finalStatus applicationId api connectors a)
      /\ an_id a ∉ taskKey <$> inflight run)
     \/ (statusOf (executions run) (an_id a) = Some running
         /\ an_id a ∈ taskKey <$> inflight run))
  /\ (forall t, t ∈ inflight run ->
        t_analysis t ∈ analyses
        /\ getConnectorForTool connectors (toolSuggestion (t_analysis t))
           = Some (t_connector t))
  /\ NoDup (taskKey <$> inflight run)
  /\ (forall tm, tm ∈ timers run -> tm_key tm ∈ an_id <$> analyses).

(** *** A batch started while earlier intervals are live

    An interval is cleared only when its call resolves, so a batch may
    start while intervals of earlier batches are still firing. *)

(** The handle and the key of an interval. *)
Definition timerPair (tm : Timer) : nat * string := (tm_handle tm, tm_key tm).

(** What holds of the intervals [live] a batch finds firing, [nextHandle0]
    being the next handle [setInterval] gives out: their handles are
    distinct and were given out before, and the [currentProgress] of each,
    which starts at 0 and moves by [Math.min(currentProgress + 15, 85)],
    is between 0 and 85. *)
Definition liveIntervals (live : list Timer) (nextHandle0 : nat) : Prop :=
  NoDup (tm_handle <$> live)
  /\ (forall tm, tm ∈ live -> tm_handle tm < nextHandle0)
  /\ (forall tm, tm ∈ live -> (0 <= tm_progress tm <= 85)%Z).

(** The synchronous part of a batch that finds the record [executions0]
    and the intervals [live]. *)
Definition dispatchFrom (connectors : list ToolConnector)
    (startedAt : QuestionAnalysis -> Z) (executions0 : gmap string AgentExecution)
    (live : list Timer) (nextHandle0 : nat) (analyses : list QuestionAnalysis) : Run :=
  fold_left (startAgent connectors startedAt) analyses
    (mkRun executions0 [] live [] nextHandle0).

(** [executeAllAgents] from that state to the run in which [Promise.all]
    resolves; [executeAllAgents] above is the case without live interval. *)
Definition executeAllAgentsFrom (applicationId : option Z)
    (api : AgentRequest -> CallOutcome) (connectors : list ToolConnector)
    (startedAt : QuestionAnalysis -> Z) (analyses : list QuestionAnalysis)
    (executions0 : gmap string AgentExecution) (live : list Timer)
    (nextHandle0 : nat) (final : Run) : Prop :=
  steps applicationId api
    (dispatchFrom connectors startedAt executions0 live nextHandle0 analyses) final
  /\ finished final.

(** An entry with another [progress]. *)
Definition withProgress (p : option Z) (e : AgentExecution) : AgentExecution :=
  mkExecution (ex_questionId e) (ex_status e) (ex_result e) (ex_error e) p
    (ex_startTime e) (ex_endTime e).

(** The [progress] of an entry in which the batch wrote [written]: that
    value, unless an interval of an earlier batch belongs to the question
    ([stale]) and wrote its own over it. *)
Definition progressAfter (stale : Prop) (written p : option Z) : Prop :=
  p = written \/ (stale /\ exists q, (0 <= q <= 85)%Z /\ p = Some q).

(** The entry such a batch holds for a question: marked without
    connector; or, with a connector, running with the progress last written
    while its call is pending, and afterwards completed or failed as the
    call decided. *)
Definition entryAfter (applicationId : option Z) (api : AgentRequest -> CallOutcome)
    (connectors : list ToolConnector) (startedAt : QuestionAnalysis -> Z)
    (executions0 : gmap string AgentExecution) (live : list Timer)
    (a : QuestionAnalysis) (callPending : bool) (entry : option AgentExecution)
  : Prop :=
  let e0 := spread executions0 (an_id a) in
  let stale := an_id a ∈ tm_key <$> live in
  match getConnectorForTool connectors (toolSuggestion a) with
  | None =>
      exists p, entry = Some (withProgress p (markNoConnector e0))
        /\ progressAfter stale (ex_progress e0) p
  | Some c =>
      if callPending
      then exists q, (0 <= q <= 85)%Z
             /\ entry = Some (markProgress q (markRunning (startedAt a) e0))
      else
        match executeAgentMutation applicationId api (requestOf a c) with
        | Resolves response =>
            exists now stamp rnd p, validDraw rnd
              /\ entry = Some (withProgress p
                                 (markCompleted now
                                    (completedResult a c response stamp rnd)
                                    (markRunning (startedAt a) e0)))
              /\ progressAfter stale (Some 100%Z) p
        | Rejects err =>
            exists now q, (0 <= q <= 85)%Z
              /\ entry = Some (markFailed now err
                                 (markProgress q (markRunning (startedAt a) e0)))
        end
  end.

(** What holds of a run of such a batch from dispatch on: every question
    has the entry above; a pending call belongs to a question of the batch
    and has its interval, started by this batch; the intervals started by
    this batch belong to the questions whose call is pending or was
    rejected, one each; the intervals found live are all still there. *)
Definition tracked (applicationId : option Z) (api : AgentRequest -> CallOutcome)
    (connectors : list ToolConnector) (startedAt : QuestionAnalysis -> Z)
    (analyses : list QuestionAnalysis) (executions0 : gmap string AgentExecution)
    (live : list Timer) (nextHandle0 : nat) (run : Run) : Prop :=
  let pairs := timerPair <$> timers run in
  (forall a, a ∈ analyses ->
     entryAfter applicationId api connectors startedAt executions0 live a
       (bool_decide (an_id a ∈ taskKey <$> inflight run))
       (executions run !! an_id a))
  /\ (forall t, t ∈ inflight run ->
        t_analysis t ∈ analyses
        /\ getConnectorForTool connectors (toolSuggestion (t_analysis t))
           = Some (t_connector t)
        /\ (t_handle t, taskKey t) ∈ pairs
        /\ nextHandle0 <= t_handle t)
  /\ NoDup (taskKey <$> inflight run)
  /\ NoDup pairs.*1
  /\ (forall h h' k, (h, k) ∈ pairs -> (h', k) ∈ pairs ->
        nextHandle0 <= h -> nextHandle0 <= h' -> h = h')
  /\ (forall tm, tm ∈ timers run -> (0 <= tm_progress tm <= 85)%Z)
  /\ (forall h k, (h, k) ∈ pairs -> nextHandle0 <= h ->
        exists a, a ∈ analyses /\ an_id a = k
          /\ (k ∈ taskKey <$> inflight run
              \/ finalStatus applicationId api connectors a = failed))
  /\ (forall a, a ∈ analyses ->
        an_id a ∉ taskKey <$> inflight run ->
        finalStatus applicationId api connectors a = failed ->
        exists h, nextHandle0 <= h /\ (h, an_id a) ∈ pairs)
  /\ List.filter (fun p => (p.1 <? nextHandle0)%nat) pairs = timerPair <$> live.

(** What the synchronous phase keeps of the intervals. *)
Definition started (live : list Timer) (nextHandle0 : nat) (run : Run) : Prop :=
  let pairs := timerPair <$> timers run in
  NoDup pairs.*1
  /\ (forall p, p ∈ pairs -> p.1 < nextHandle run)
  /\ nextHandle0 <= nextHandle run
  /\ (forall t, t ∈ inflight run ->
        (t_handle t, taskKey t) ∈ pairs /\ nextHandle0 <= t_handle t)
  /\ (forall h k, (h, k) ∈ pairs -> nextHandle0 <= h ->
        exists t, t ∈ inflight run /\ t_handle t = h /\ taskKey t = k)
  /\ (forall tm, tm ∈ timers run -> (0 <= tm_progress tm <= 85)%Z)
  /\ List.filter (fun p => (p.1 <? nextHandle0)%nat) pairs = timerPair <$> live.

(** *** Saved answers and the first executions *)

(** A saved answer as the answers query returns it. *)
Record SavedAnswer := mkSavedAnswer {
  sa_questionId : string;
  sa_answer : JsValue;
  sa_findings : JsValue;
  sa_riskLevel : JsValue;
  sa_complianceStatus : JsValue;
  sa_dataPoints : JsValue;
  sa_createdAt : Z
}.

(** The entry the effect builds for one analysis: completed with the saved
    result when the question has a saved answer, otherwise pending or
    without connector. *)
Definition initialEntry (connectors : list ToolConnector)
    (savedAnswers : list SavedAnswer) (analysis : QuestionAnalysis) : AgentExecution :=
  let connector := getConnectorForTool connectors (toolSuggestion analysis) in
  match List.find (fun answer => String.eqb (sa_questionId answer) (an_id analysis))
                  savedAnswers with
  | Some savedAnswer =>
      mkExecution (Some (an_id analysis)) (Some completed)
        (Some (mkResult (sa_answer savedAnswer) (sa_dataPoints savedAnswer)
                 (match connector with
                  | Some c => orStr (Some (connectorName c)) "Unknown"
                  | None => "Unknown"
                  end)
                 (sa_createdAt savedAnswer)
                 (jsOr (sa_findings savedAnswer) (JArr []))
                 (sa_riskLevel savedAnswer) (sa_complianceStatus savedAnswer)))
        None (Some 100%Z) None None
  | None =>
      mkExecution (Some (an_id analysis))
        (Some (match connector with Some _ => pending | None => no_connector end))
        None None (Some 0%Z) None None
  end.

(** [initialExecutions], filled by [analyses.forEach].  Every assignment
    [initialExecutions[analysis.id] = ...] adds or replaces a property of
    the record, except under the key [__proto__], which JavaScript does not
    store as a property: the statements about this record take the ids of
    the analyses to differ from it. *)
Definition initialExecutions (connectors : list ToolConnector)
    (savedAnswers : list SavedAnswer) (analyses : list QuestionAnalysis)
  : gmap string AgentExecution :=
  fold_left (fun m analysis =>
               <[an_id analysis := initialEntry connectors savedAnswers analysis]> m)
            analyses ∅.

(** No analysis has the id [__proto__]. *)
Definition plainIds (analyses : list QuestionAnalysis) : Prop :=
  "__proto__" ∉ an_id <$> analyses.

(** The test of the updater: the two records differ in their keys. *)
Definition keysDiffer (prev initial : gmap string AgentExecution) : bool :=
  let prevKeys := (map_to_list prev).*1 in
  let newKeys := (map_to_list initial).*1 in
  negb (length prevKeys =? length newKeys)%nat
  || negb (forallb (fun key => existsb (String.eqb key) newKeys) prevKeys).

(** The effect that fills [executions] once the analyses are loaded. *)
Definition initializeExecutions (connectors : list ToolConnector)
    (savedAnswers : list SavedAnswer) (isLoadingSavedAnswers : bool)
    (analyses : list QuestionAnalysis) (prev : gmap string AgentExecution)
  : gmap string AgentExecution :=
  if (0 <? length analyses)%nat && (0 <=? length connectors)%nat
     && negb isLoadingSavedAnswers
  then
    let initial := initialExecutions connectors savedAnswers analyses in
    if keysDiffer prev initial then initial else prev
  else prev.

(** *** The counters of the header *)

Definition countStatus (s : ExecStatus) (executions : gmap string AgentExecution) : nat :=
  length (List.filter (fun e => bool_decide (ex_status e = Some s))
                      (executionList executions)).

(** [questionsWithoutConnectors]. *)
Definition questionsWithoutConnectors (connectors : list ToolConnector)
    (analyses : list QuestionAnalysis) : list QuestionAnalysis :=
  List.filter (fun a => match getConnectorForTool connectors (toolSuggestion a) with
                        | Some _ => false
                        | None => true
                        end)
              analyses.

(** *** Saving results *)

(** The body of a save request; [sv_findings] and the three last fields are
    sent as JSON text. *)
Record SaveRequest := mkSaveRequest {
  sv_questionId : option string;
  sv_answer : JsValue;
  sv_findings : JsValue;
  sv_riskLevel : JsValue;
  sv_complianceStatus : JsValue;
  sv_dataPoints : JsValue;
  sv_toolsUsed : option string;
  sv_source : string;
  sv_timestamp : Z
}.

(** The request [saveResultsMutation] sends for an execution and a tool
    type; none when the execution has no result (reading it throws). *)
Definition saveRequestOf (execution : AgentExecution) (toolType : option string)
  : option SaveRequest :=
  match ex_result execution with
  | Some result =>
      Some (mkSaveRequest (ex_questionId execution) (data result)
              (jsOr (findings result) (JArr [])) (riskLevel result)
              (complianceStatus result) (records result) toolType
              (source result) (timestamp result))
  | None => None
  end.

(** [analyses.find(a => a.id === execution.questionId)?.toolSuggestion]. *)
Definition toolTypeOf (analyses : list QuestionAnalysis) (execution : AgentExecution)
  : option string :=
  match ex_questionId execution with
  | Some questionId =>
      toolSuggestion <$> List.find (fun a => String.eqb (an_id a) questionId) analyses
  | None => None
  end.

Inductive SaveToast :=
| AllResultsSaved (count : nat)
| SaveError.

(** [saveAllResults]: one save per completed execution, all started
    together; the requests that were sent, and the toast. *)
Definition saveAllResults (saveApi : SaveRequest -> bool)
    (analyses : list QuestionAnalysis) (executions : gmap string AgentExecution)
  : list SaveRequest * SaveToast :=
  let completedExecutions := List.filter isCompleted (executionList executions) in
  let savePromises :=
    map (fun execution => saveRequestOf execution (toolTypeOf analyses execution))
        completedExecutions in
  let sent := omap (fun x => x) savePromises in
  (sent,
   if forallb (fun promise => match promise with
                              | Some request => saveApi request
                              | None => false
                              end) savePromises
   then AllResultsSaved (length completedExecutions)
   else SaveError).

End StepFour.

(** ** The classifier's rules as a priority table

    The rule table of the design: keyword sets in priority order, the first
    set with a keyword in the text decides.  [toolOfRule] gives each rule
    the label the server returns for it. *)

Module ClassifierSpec.
Import Js.

Definition ruleKeywords : list (list string) :=
  [["database"; "sql"; "table"];
   ["email"; "outlook"; "exchange"];
   ["servicenow"; "snow"; "ticket"];
   ["file"; "document"; "nas"];
   ["gnosis"; "knowledge"]].

(** The number of the first rule, counted from [n], one of whose keywords
    occurs in [text]; past the table when none does. *)
Fixpoint firstMatch (rules : list (list string)) (text : string) (n : nat) : nat :=
  match rules with
  | [] => n
  | keywords :: rest =>
      if existsb (includes text) keywords then n
      else firstMatch rest text (S n)
  end.

Definition firstMatchingRule (text : string) : nat :=
  firstMatch ruleKeywords text 1.

Definition toolOfRule (n : nat) : string :=
  match n with
  | 1 => "SQL Server"
  | 2 => "Outlook"
  | 3 => "ServiceNow"
  | 4 => "NAS Path"
  | 5 => "Gnosis Path"
  | _ => "Manual Review"
  end.

(** The suggestion of each rule with the connector the server pairs it
    with. *)
Definition labelPairs : list (string * string) :=
  [("SQL Server", "sql_server");
   ("Outlook", "outlook");
   ("ServiceNow", "servicenow");
   ("NAS Path", "nas_path");
   ("Gnosis Path", "gnosis_path");
   ("Manual Review", "manual")].

End ClassifierSpec.

(** ** Concrete inputs used in the examples below *)

Module Samples.

Definition emptyTable : Storage.Table := Storage.mkTable [] 0.

Definition accessQuestion : Routes.Question :=
  Routes.mkQuestion (Some "q_1")
    (Some "What are the access controls on the SQL database?")
    None (Some "Access") None.

Definition emailQuestion : Routes.Question :=
  Routes.mkQuestion (Some "q_2") (Some "Who reviews the email retention policy?")
    None None None.

Definition accessInsert : Storage.InsertQuestionAnalysis :=
  Routes.analysisOf (Some 1%Z) accessQuestion.

Definition accessRow : Storage.QuestionAnalysis :=
  Storage.mkRow 1 (Some 1%Z) "q_1"
    "What are the access controls on the SQL database?" "Access" None
    ("Analyze the question: " +:+ Js.dquote
       +:+ "What are the access controls on the SQL database?" +:+ Js.dquote)
    "SQL Server"
    ("Based on the question content and category " +:+ Js.dquote
       +:+ "Access" +:+ Js.dquote)
    "sql_server" 5.

Definition emailRow : Storage.QuestionAnalysis :=
  Storage.mkRow 1 (Some 1%Z) "q_2"
    "Who reviews the email retention policy?" "General" None
    ("Analyze the question: " +:+ Js.dquote
       +:+ "Who reviews the email retention policy?" +:+ Js.dquote)
    "Outlook"
    ("Based on the question content and category " +:+ Js.dquote
       +:+ "General" +:+ Js.dquote)
    "outlook" 5.

Definition sqlAnalysis : StepThree.QuestionAnalysis :=
  StepThree.mkAnalysis "q_1" "What are the access controls on the SQL database?"
    "Access" "Unknown" "Analyze audit question" (StepThree.Single "sql_server")
    "Database question" (StepThree.Single "SQL Server DB").

Definition failedSqlConnector : StepThree.ToolConnector :=
  StepThree.mkConnector 7 "SQL Server DB" "CI-1" "failed".

Definition q7 : StepThree.Question :=
  StepThree.mkQuestion (Some "Q7") (Some "7") (Some "Change") None
    (Some "Are changes approved?").

Definition q8 : StepThree.Question :=
  StepThree.mkQuestion (Some "Q8") (Some "8") (Some "Change") None
    (Some "Are tickets closed?").

Definition q8Analysis : StepThree.QuestionAnalysis :=
  StepThree.mkAnalysis "Q8" "Are tickets closed?" "Change" "Unknown"
    "Check ticket closure" (StepThree.Single "ServiceNow")
    "Ticketing question" (StepThree.Single "ServiceNow").

(** The call for Q7 throws, every other call answers with [q8Analysis]. *)
Definition q7Throws (q : StepThree.Question) : StepThree.ApiOutcome :=
  if bool_decide (StepThree.q_id q = Some "Q7")
  then StepThree.Throws
  else StepThree.Returns (Some [q8Analysis]).

(** The call for Q7 throws, every other call answers with a body that has
    no [analyses] property. *)
Definition q7ThrowsRestBare (q : StepThree.Question) : StepThree.ApiOutcome :=
  if bool_decide (StepThree.q_id q = Some "Q7")
  then StepThree.Throws
  else StepThree.Returns None.

Definition accessAnalysis : StepFour.QuestionAnalysis :=
  StepFour.mkAnalysis "11" (Some "What are the access controls on the SQL database?")
    "Access" "Unknown" None "sql_server" "Database question" "SQL Server DB".

Definition ticketAnalysis : StepFour.QuestionAnalysis :=
  StepFour.mkAnalysis "12" (Some "Are tickets closed?")
    "Change" "Unknown" None "ServiceNow" "Ticketing question" "ServiceNow".

Definition sqlConnector : StepFour.ToolConnector :=
  StepFour.mkConnector 3 "Production SQL Server" "SQL Server DB" "CI-1" "active".

(** Every agent call answers with an empty object. *)
Definition emptyAnswer (rq : StepFour.AgentRequest) : StepFour.CallOutcome :=
  StepFour.Resolves (StepFour.mkResponse Js.JUndefined Js.JUndefined Js.JUndefined).

(** A batch of two questions with one active connector, run to the end. *)
Definition batchRun : StepFour.Run :=
  StepFour.settleInOrder (Some 1%Z) emptyAnswer 0 (StepFour.mkDraw 0 53) 1
    (StepFour.dispatch [sqlConnector] (fun _ => 0%Z) ∅
       [accessAnalysis; ticketAnalysis]).

(** The same question sent without an application. *)
Definition orphanInsert : Storage.InsertQuestionAnalysis :=
  Routes.analysisOf None accessQuestion.

Definition orphanRow : Storage.QuestionAnalysis :=
  Storage.mkRow 1 None "q_1"
    "What are the access controls on the SQL database?" "Access" None
    ("Analyze the question: " +:+ Js.dquote
       +:+ "What are the access controls on the SQL database?" +:+ Js.dquote)
    "SQL Server"
    ("Based on the question content and category " +:+ Js.dquote
       +:+ "Access" +:+ Js.dquote)
    "sql_server" 5.

Definition emptyConnectorTable : Storage.ConnectorTable :=
  Storage.mkConnectorTable [] 0.

Definition sqlConnectorInsert : Storage.InsertToolConnector :=
  Storage.mkInsertConnector (Some 1%Z) "CI-1" "SQL Server DB" (Js.JObj []) None.

(** The Step 3 state before any analysis was loaded. *)
Definition freshState : StepThree.State :=
  StepThree.mkState [] false 0 false false.

(** A saved answer for the access question. *)
Definition savedAccess : StepFour.SavedAnswer :=
  StepFour.mkSavedAnswer "11" (Js.JStr "Access is role based") Js.JUndefined
    (Js.JStr "Low") (Js.JStr "Compliant") (Js.JNum 3) 7.

(** The same batch run without an application id. *)
Definition guardedRun : StepFour.Run :=
  StepFour.settleInOrder None emptyAnswer 0 (StepFour.mkDraw 0 53) 1
    (StepFour.dispatch [sqlConnector] (fun _ => 0%Z) ∅
       [accessAnalysis; ticketAnalysis]).

(** The batch run again with an application id, while the interval that
    [guardedRun] left is live. *)
Definition rerun : StepFour.Run :=
  StepFour.settleInOrder (Some 1%Z) emptyAnswer 9 (StepFour.mkDraw 0 53) 1
    (StepFour.dispatchFrom [sqlConnector] (fun _ => 0%Z)
       (StepFour.executions guardedRun) (StepFour.timers guardedRun)
       (StepFour.nextHandle guardedRun) [accessAnalysis; ticketAnalysis]).

(** The batch run over the record of the first fill. *)
Definition filledRun : StepFour.Run :=
  StepFour.settleInOrder (Some 1%Z) emptyAnswer 0 (StepFour.mkDraw 0 53) 1
    (StepFour.dispatch [sqlConnector] (fun _ => 0%Z)
       (StepFour.initialExecutions [sqlConnector] [] [accessAnalysis; ticketAnalysis])
       [accessAnalysis; ticketAnalysis]).

End Samples.

(** * Properties *)

(** ** Strings *)

Module JsFacts.
Import Js.

Lemma startsWith_spec (sub s : string) :
  startsWith s sub = true <-> exists post, s = sub +:+ post.
Proof.
  revert s. induction sub as [|c sub IH]; intros s; simpl.
  - split; [intros _; exists s; reflexivity | reflexivity].
  - destruct s as [|d s].
    + split; [discriminate | intros [post H]; discriminate].
    + destruct (Ascii.eqb_spec c d) as [->|Hne].
      * rewrite IH. split; intros [post H]; exists post.
        -- now rewrite H.
        -- now injection H.
      * split; [discriminate | intros [post H]; injection H; congruence].
Qed.

(** [includes] finds exactly the occurrences of [sub] in [s]. *)
Lemma includes_spec (s sub : string) :
  includes s sub = true <-> exists pre post, s = pre +:+ sub +:+ post.
Proof.
  induction s as [|c s IH]; simpl.
  - rewrite orb_false_r, startsWith_spec. split.
    + intros [post H]. exists EmptyString, post. exact H.
    + intros [pre [post H]]. destruct pre as [|d pre]; [|discriminate].
      exists post. exact H.
  - rewrite orb_true_iff, startsWith_spec, IH. split.
    + intros [[post H] | [pre [post H]]].
      * exists EmptyString, post. exact H.
      * exists (String c pre), post. simpl. now rewrite H.
    + intros [pre [post H]]. destruct pre as [|d pre].
      * left. exists post. exact H.
      * right. exists pre, post. simpl in H. now injection H.
Qed.

Lemma trimEnd_empty (s : string) :
  trimEnd s = EmptyString <-> isBlank s = true.
Proof.
  induction s as [|c s IH]; simpl; [tauto|].
  destruct (trimEnd s) eqn:E.
  - destruct (isWhiteSpace c); simpl.
    + rewrite <- IH. tauto.
    + split; discriminate.
  - split; [discriminate|]. rewrite andb_true_iff. intros [_ H].
    apply IH in H. discriminate.
Qed.

Lemma isBlank_trimStart (s : string) :
  isBlank (trimStart s) = isBlank s.
Proof.
  induction s as [|c s IH]; simpl; [reflexivity|].
  destruct (isWhiteSpace c) eqn:E; simpl; [exact IH | now rewrite E].
Qed.

(** [s.trim() === ''] exactly when [s] is all white space. *)
Lemma trim_empty (s : string) :
  String.eqb (trim s) EmptyString = isBlank s.
Proof.
  unfold trim. destruct (isBlank s) eqn:E.
  - apply String.eqb_eq, trimEnd_empty. now rewrite isBlank_trimStart.
  - apply String.eqb_neq. intros H. apply trimEnd_empty in H.
    rewrite isBlank_trimStart in H. congruence.
Qed.

End JsFacts.

(** ** The classifier *)

Module ClassifierProps.
Import Js Routes ClassifierSpec.

Lemma suggestionOfText_first_match (text : string) :
  suggestionOfText text = toolOfRule (firstMatchingRule text).
Proof.
  unfold suggestionOfText, firstMatchingRule, ruleKeywords. simpl.
  rewrite !orb_false_r, !orb_assoc.
  repeat match goal with
         | |- context [if ?b then _ else _] => destruct b; [reflexivity|]
         end.
  reflexivity.
Qed.

Lemma suggestionOfText_rule_one (text : string) :
  includes text "database" = true
  \/ includes text "sql" = true
  \/ includes text "table" = true ->
  suggestionOfText text = "SQL Server".
Proof.
  unfold suggestionOfText.
  intros [H | [H | H]]; rewrite H; rewrite ?orb_true_r; reflexivity.
Qed.

(** C1 (as amended): a question whose lower-cased text contains
    "database", "sql" or "table" is classified as "SQL Server". *)
Theorem determineToolSuggestion_sql_rule (q : Question) :
  includes (loweredText q) "database" = true
  \/ includes (loweredText q) "sql" = true
  \/ includes (loweredText q) "table" = true ->
  determineToolSuggestion q = "SQL Server".
Proof.
  unfold determineToolSuggestion, loweredText, suggestionOfText.
  intros [H | [H | H]]; rewrite H.
  - reflexivity.
  - rewrite orb_true_r. reflexivity.
  - rewrite orb_true_r. reflexivity.
Qed.

Lemma determineToolSuggestion_sql_rule_witness :
  determineToolSuggestion (textQuestion "List the DATABASE users") = "SQL Server".
Proof.
  apply determineToolSuggestion_sql_rule. left. vm_compute. reflexivity.
Defined.

(** C1, the claim as stated fails: a question that contains "sql" is not
    classified as "SQL Server DB". *)
Lemma determineToolSuggestion_not_sql_server_db :
  includes (loweredText (textQuestion "Which SQL tables hold the data?")) "sql" = true
  /\ determineToolSuggestion (textQuestion "Which SQL tables hold the data?")
     <> "SQL Server DB".
Proof. split; [vm_compute; reflexivity | vm_compute; discriminate]. Qed.

(** C7: the rules are tried in the documented order and the first match
    decides; so a question with both "ticket" and "database" gets the
    suggestion of every question with "database" (rule 1), not
    "ServiceNow" (rule 3). *)
Theorem ticket_and_database_first_match (q : Question) :
  determineToolSuggestion q = toolOfRule (firstMatchingRule (loweredText q))
  /\ (includes (loweredText q) "ticket" = true ->
      includes (loweredText q) "database" = true ->
      firstMatchingRule (loweredText q) = 1
      /\ determineToolSuggestion q = determineToolSuggestion (textQuestion "database")
      /\ (forall q', includes (loweredText q') "database" = true ->
                     determineToolSuggestion q = determineToolSuggestion q')
      /\ determineToolSuggestion q <> "ServiceNow").
Proof.
  split; [apply suggestionOfText_first_match|].
  intros _ Hdb.
  assert (Hq : determineToolSuggestion q = "SQL Server")
    by (apply suggestionOfText_rule_one; now left).
  repeat split.
  - unfold firstMatchingRule. simpl. now rewrite Hdb.
  - rewrite Hq. vm_compute. reflexivity.
  - intros q' Hq'. rewrite Hq. symmetry.
    apply suggestionOfText_rule_one. now left.
  - rewrite Hq. discriminate.
Qed.

Lemma ticket_and_database_first_match_witness :
  determineToolSuggestion
    (textQuestion "Is every ticket logged in the database?") <> "ServiceNow".
Proof.
  apply (ticket_and_database_first_match
           (textQuestion "Is every ticket logged in the database?"));
    vm_compute; reflexivity.
Defined.

End ClassifierProps.

(** ** Persisting analyses *)

Module StorageProps.
Import Js Storage.

Lemma conflicts_spec (rs : list QuestionAnalysis) (n : Z) (qid : string) :
  conflicts rs (Some n) qid = true <-> (n, qid) ∈ keysOf rs.
Proof.
  unfold conflicts, keysOf. rewrite existsb_exists, list_elem_of_omap.
  split.
  - intros [r [Hin Hk]]. exists r. split; [now apply list_elem_of_In|].
    unfold sameKey in Hk. unfold rowKey.
    destruct (qa_applicationId r) as [m|]; [|discriminate].
    apply andb_true_iff in Hk as [Hm Hq].
    apply Z.eqb_eq in Hm. apply String.eqb_eq in Hq. now subst.
  - intros [r [Hin Hk]]. exists r. split; [now apply list_elem_of_In|].
    unfold rowKey in Hk. unfold sameKey.
    destruct (qa_applicationId r) as [m|]; [|discriminate].
    injection Hk as -> <-. now rewrite Z.eqb_refl, String.eqb_refl.
Qed.

Lemma keysOf_app (rs1 rs2 : list QuestionAnalysis) :
  keysOf (rs1 ++ rs2) = keysOf rs1 ++ keysOf rs2.
Proof. unfold keysOf. apply omap_app. Qed.

Lemma insertRow_ok now t a t' r :
  insertRow now t a = (t', inr r) ->
  rows t' = rows t ++ [r]
  /\ storedAs a r
  /\ conflicts (rows t) (ins_applicationId a) (qa_questionId r) = false.
Proof.
  unfold insertRow, storedAs.
  destruct (ins_questionId a) as [qid|]; [|discriminate].
  destruct (ins_originalQuestion a) as [oq|]; [|discriminate].
  destruct (conflicts _ _ _) eqn:E; [discriminate|].
  intros H. injection H as <- <-. simpl. repeat split; auto.
Qed.


Lemma insertRows_ok now batch : forall t t' rs,
  insertRows now t batch = (t', inr rs) ->
  rows t' = rows t ++ rs /\ Forall2 storedAs batch rs.
Proof.
  induction batch as [|a batch IH]; intros t t' rs H; simpl in H.
  - injection H as <- <-. rewrite app_nil_r. split; constructor.
  - destruct (insertRow now t a) as [t1 [e|r]] eqn:E1; [discriminate|].
    destruct (insertRows now t1 batch) as [t2 [e|rs2]] eqn:E2; [discriminate|].
    injection H as <- <-.
    apply insertRow_ok in E1 as (Hr & Hst & _).
    apply IH in E2 as (Hr2 & Hall).
    split; [|now constructor].
    rewrite Hr2, Hr, <- app_assoc. reflexivity.
Qed.






End StorageProps.

(** ** The analysis route *)

Module RouteProps.
Import Js Storage Routes ToolIds ClassifierSpec.

Lemma determine_pair (q : Question) :
  In (determineToolSuggestion q, determineConnector q) labelPairs.
Proof.
  unfold determineConnector, determineToolSuggestion, suggestionOfText, labelPairs.
  repeat match goal with
         | |- context [if ?b then _ else _] =>
             lazymatch b with
             | context [includes] => destruct b; [simpl; tauto|]
             end
         end.
  simpl. tauto.
Qed.

Lemma storedAs_analysisOf app (qs : list Question) (saved : list QuestionAnalysis) :
  Forall2 storedAs (map (analysisOf app) qs) saved ->
  Forall2 (fun q r =>
             qa_toolSuggestion r = determineToolSuggestion q
             /\ qa_connectorToUse r = determineConnector q
             /\ In (qa_toolSuggestion r, qa_connectorToUse r) labelPairs)
          qs saved.
Proof.
  revert saved. induction qs as [|q qs IH]; intros saved H; simpl in H;
    inversion H as [|? r ? rs Hst Hall]; subst; constructor.
  - destruct Hst as (_ & _ & _ & _ & _ & _ & Ht & _ & Hc). simpl in Ht, Hc.
    rewrite Ht, Hc. repeat split. apply determine_pair.
  - now apply IH.
Qed.

(** C6 (as amended): the classifier yields one of six fixed pairs of
    labels, the route stores them as produced, unchecked, and only
    "ServiceNow" and "sql_server" among them are in the vocabulary. *)
Theorem route_stores_classifier_labels :
  (forall q, In (determineToolSuggestion q, determineConnector q) labelPairs)
  /\ (List.filter inVocabulary (map fst labelPairs) = ["ServiceNow"]
      /\ List.filter inVocabulary (map snd labelPairs) = ["sql_server"])
  /\ (forall db db' now app qs saved,
        postQuestionsAnalyze db now app qs = (db', Json saved) ->
        rows db' = rows db ++ saved
        /\ Forall2 (fun q r =>
                      qa_toolSuggestion r = determineToolSuggestion q
                      /\ qa_connectorToUse r = determineConnector q
                      /\ In (qa_toolSuggestion r, qa_connectorToUse r) labelPairs)
                   qs saved).
Proof.
  split; [exact determine_pair|]. split; [split; vm_compute; reflexivity|].
  intros db db' now app qs saved H. unfold postQuestionsAnalyze in H.
  destruct (createQuestionAnalyses db now (map (analysisOf app) qs))
    as [db1 [e|rs]] eqn:E; [discriminate|].
  injection H as <- <-. unfold createQuestionAnalyses in E.
  destruct (map (analysisOf app) qs) as [|a0 rest] eqn:Em; [discriminate|].
  destruct (insertRows now db (a0 :: rest)) as [t1 [e|rs1]] eqn:E1; [discriminate|].
  injection E as <- <-.
  apply StorageProps.insertRows_ok in E1 as (Hrows & Hall).
  split; [exact Hrows|]. rewrite <- Em in Hall.
  now apply (storedAs_analysisOf app).
Qed.

Lemma route_stores_classifier_labels_witness :
  rows (mkTable [Samples.accessRow] 1) = rows Samples.emptyTable ++ [Samples.accessRow]
  /\ Forall2 (fun q r =>
                qa_toolSuggestion r = determineToolSuggestion q
                /\ qa_connectorToUse r = determineConnector q
                /\ In (qa_toolSuggestion r, qa_connectorToUse r) labelPairs)
             [Samples.accessQuestion] [Samples.accessRow].
Proof.
  destruct route_stores_classifier_labels as (_ & _ & H).
  apply (H Samples.emptyTable (mkTable [Samples.accessRow] 1) 5%Z (Some 1%Z)
           [Samples.accessQuestion] [Samples.accessRow]).
  vm_compute. reflexivity.
Defined.

(** C6, the claim as stated fails: the route stores "Outlook" and
    "outlook", neither of which is in the vocabulary. *)
Lemma route_stores_label_outside_vocabulary :
  postQuestionsAnalyze Samples.emptyTable 5 (Some 1%Z) [Samples.emailQuestion]
  = (mkTable [Samples.emailRow] 1, Json [Samples.emailRow])
  /\ inVocabulary (qa_toolSuggestion Samples.emailRow) = false
  /\ inVocabulary (qa_connectorToUse Samples.emailRow) = false.
Proof. repeat split; vm_compute; reflexivity. Qed.

End RouteProps.

(** ** Step 3 *)

Module StepThreeProps.
Import Js ToolIds StepThree.

Lemma matchesTool_spec (connectorType tool : string) :
  matchesTool connectorType tool = true <-> mappedToolType tool = Some connectorType.
Proof.
  unfold matchesTool. destruct (mappedToolType tool) as [t|].
  - rewrite String.eqb_eq. split; congruence.
  - split; discriminate.
Qed.

Lemma toolConfigured_spec (connectors : list ToolConnector) (tool : string) :
  toolConfigured connectors tool = true
  <-> isBlank tool = false
      /\ exists c, In c connectors /\ mappedToolType tool = Some (connector_type c).
Proof.
  unfold toolConfigured, connectorExists.
  rewrite !andb_true_iff, negb_true_iff, JsFacts.trim_empty, existsb_exists.
  setoid_rewrite matchesTool_spec. split.
  - intros [[Hc _] Hb]. auto.
  - intros [Hb Hc]. repeat split; auto. now destruct tool.
Qed.

(** C2 (as amended): the gate opens exactly when there is an analysis,
    every suggested tool is a non-blank name for which the registry holds
    a connector of the mapped type, whatever its status, and the batch is
    saved; every edit and every new analysis closes it until the next
    save. *)
Theorem canProceed_iff (analyses : list QuestionAnalysis)
    (connectors : list ToolConnector) (isSaved : bool) :
  (canProceed analyses connectors isSaved = true
   <-> analyses <> []
       /\ (forall a, In a analyses ->
           forall tool, In tool (toolSuggestions (toolSuggestion a)) ->
             isBlank tool = false
             /\ exists c, In c connectors
                          /\ mappedToolType tool = Some (connector_type c))
       /\ isSaved = true)
  /\ (forall st questionId value index api questions,
        gate connectors (handleToolChange questionId value index st) = false
        /\ gate connectors (handleConnectorChange questionId value index st) = false
        /\ gate connectors (analyzeQuestionsMutation api st questions) = false).
Proof.
  split.
  - unfold canProceed, allQuestionsConfigured.
    rewrite !andb_true_iff, forallb_forall.
    setoid_rewrite forallb_forall. setoid_rewrite toolConfigured_spec.
    rewrite Nat.ltb_lt. split.
    + intros [[Hlen Hall] Hs]. split; [|split]; auto.
      intros ->. simpl in Hlen. lia.
    + intros (Hne & Hall & Hs). split; [split|]; auto.
      destruct analyses; [congruence | simpl; lia].
  - intros st questionId value index api questions.
    unfold gate, canProceed. simpl. rewrite !andb_false_r. auto.
Qed.

(** C2, the claim as stated fails: the gate opens although the only
    connector of the suggested type has status "failed". *)
Lemma canProceed_without_active_connector :
  canProceed [Samples.sqlAnalysis] [Samples.failedSqlConnector] true = true
  /\ List.filter (fun c => String.eqb (c_status c) "active")
                 [Samples.failedSqlConnector] = [].
Proof. split; vm_compute; reflexivity. Qed.

(** C9: the connector change does not depend on the connector name (nor
    on the question id); in the analysis at the given index it sets
    [connectorToUse] to the analysis's own [toolSuggestion], and it leaves
    every other analysis as it was. *)
Theorem handleConnectorChange_ignores_connectorName
    (questionId connectorName : string) (index : Z) (st : State) :
  let st' := handleConnectorChange questionId connectorName index st in
  (forall questionId' connectorName',
      handleConnectorChange questionId' connectorName' index st = st')
  /\ length (analyses st') = length (analyses st)
  /\ (forall i a, analyses st !! i = Some a ->
        exists a', analyses st' !! i = Some a'
          /\ toolSuggestion a' = toolSuggestion a
          /\ (Z.of_nat i = index -> connectorToUse a' = toolSuggestion a)
          /\ (Z.of_nat i <> index -> a' = a))
  /\ isSaved st' = false
  /\ hasUnsavedChanges st' = true.
Proof.
  simpl. repeat split.
  - apply length_imap.
  - intros i a Hi. rewrite list_lookup_imap, Hi. simpl.
    destruct (Z.eqb_spec (Z.of_nat i) index) as [E|E]; eexists; split; eauto;
      simpl; repeat split; try congruence.
    intros _. now destruct (isArray (toolSuggestion a)).
Qed.

Lemma analyzeLoop_app api total (qs : list Question) : forall st,
  let final := fold_left (analyzeOne api total) qs st in
  l_analyses final = l_analyses st ++ omap (pushedFor api) qs
  /\ processedCount final = processedCount st + length qs
  /\ progressLog final
     = progressLog st
       ++ ((fun k => (k, total)) <$> seq (S (processedCount st)) (length qs)).
Proof.
  induction qs as [|q qs IH]; intros st; simpl.
  - rewrite !app_nil_r. repeat split. lia.
  - destruct (IH (analyzeOne api total st q)) as (Ha & Hp & Hl).
    rewrite Ha, Hp, Hl. unfold analyzeOne. simpl.
    repeat split.
    + unfold pushedFor.
      destruct (api q) as [|[[|first rest]|]]; simpl;
        rewrite <- ?app_assoc; reflexivity.
    + lia.
    + rewrite <- app_assoc. reflexivity.
Qed.

Lemma omap_drops {A B} (f : A -> option B) (l : list A) (x : A) :
  length (omap f l) <= length l
  /\ (In x l -> f x = None -> length (omap f l) < length l).
Proof.
  induction l as [|y l [IHle IHlt]]; [split; [reflexivity | intros []]|].
  change (omap f (y :: l))
    with (match f y with Some z => z :: omap f l | None => omap f l end).
  destruct (f y) as [z|] eqn:Ey; simpl; (split; [lia|]).
  - intros [-> | Hin] Hx; [congruence|]. specialize (IHlt Hin Hx). lia.
  - intros _ _. lia.
Qed.

(** C5 (as amended): the batch always resolves; a question whose call
    throws gets the fallback analysis and counts as processed; every other
    question is still processed; it contributes the first analysis of its
    response when the response carries one, and nothing when the response
    carries none, so the batch holds an analysis for every question only
    when every call that did not throw returned one. *)
Theorem analyze_batch_recovers_from_throw
    (api : Question -> ApiOutcome) (questions : list Question) (st : State) :
  let final := analyzeLoop api questions in
  mutationFn api questions = Resolved (l_analyses final, length (l_analyses final))
  /\ analyzeQuestionsMutation api st questions = mkState (l_analyses final) false 100 false true
  /\ l_analyses final = omap (pushedFor api) questions
  /\ processedCount final = length questions
  /\ progressLog final
     = (fun k => (k, length questions)) <$> seq 1 (length questions)
  /\ (forall Q, In Q questions -> api Q = Throws ->
        In (fallbackAnalysis Q) (l_analyses final)
        /\ toolSuggestion (fallbackAnalysis Q) = Single "SQL Server DB"
        /\ connectorToUse (fallbackAnalysis Q) = Single "SQL Server DB"
        /\ connectorReason (fallbackAnalysis Q) = "Fallback due to analysis error")
  /\ (forall Q' a rest, In Q' questions -> api Q' = Returns (Some (a :: rest)) ->
        In a (l_analyses final))
  /\ ((forall Q', In Q' questions -> api Q' = Throws
                  \/ exists a rest, api Q' = Returns (Some (a :: rest))) ->
      length (l_analyses final) = length questions)
  /\ (forall Q', In Q' questions ->
        api Q' = Returns None \/ api Q' = Returns (Some []) ->
        pushedFor api Q' = None
        /\ length (l_analyses final) < length questions).
Proof.
  simpl. unfold analyzeQuestionsMutation, mutationFn, analyzeLoop.
  destruct (analyzeLoop_app api (length questions) questions (mkLoop [] 0 []))
    as (Ha & Hp & Hl). simpl in Ha, Hp, Hl.
  split; [reflexivity|]. split; [reflexivity|]. split; [exact Ha|].
  split; [exact Hp|]. split; [exact Hl|]. split; [|split; [|split]].
  - intros Q HQ Hthrow. split; [|repeat split]. rewrite Ha.
    apply list_elem_of_In, list_elem_of_omap.
    exists Q. split; [now apply list_elem_of_In|]. unfold pushedFor. now rewrite Hthrow.
  - intros Q' a rest Hin Hapi. rewrite Ha.
    apply list_elem_of_In, list_elem_of_omap.
    exists Q'. split; [now apply list_elem_of_In|]. unfold pushedFor. now rewrite Hapi.
  - intros Hall. rewrite Ha. clear Ha Hp Hl.
    induction questions as [|q qs IH]; [reflexivity|]. simpl.
    assert (Hq : exists a, pushedFor api q = Some a).
    { unfold pushedFor. destruct (Hall q (or_introl eq_refl)) as [-> | (a & rest & ->)]; eauto. }
    destruct Hq as [a ->]. simpl. f_equal. apply IH.
    intros Q' HQ'. apply Hall. now right.
  - intros Q' HQ' Hnone.
    assert (Hp' : pushedFor api Q' = None)
      by (unfold pushedFor; now destruct Hnone as [-> | ->]).
    split; [exact Hp'|]. rewrite Ha.
    now apply (omap_drops (pushedFor api) questions Q').
Qed.

Lemma analyze_batch_recovers_from_throw_witness :
  In (fallbackAnalysis Samples.q7)
     (l_analyses (analyzeLoop Samples.q7Throws [Samples.q7; Samples.q8]))
  /\ In Samples.q8Analysis
        (l_analyses (analyzeLoop Samples.q7Throws [Samples.q7; Samples.q8])).
Proof.
  destruct (analyze_batch_recovers_from_throw Samples.q7Throws
              [Samples.q7; Samples.q8] (mkState [] false 0 false false))
    as (_ & _ & _ & _ & _ & Hthrow & Hret & _).
  split.
  - apply (Hthrow Samples.q7); [simpl; tauto | vm_compute; reflexivity].
  - apply (Hret Samples.q8 Samples.q8Analysis []);
      [simpl; tauto | vm_compute; reflexivity].
Defined.

(** C5, the claim as stated fails: the call for Q7 throws and the call for
    Q8 answers with a body that has no [analyses] property (a bare array,
    as the analysis route of this server sends); the mutation resolves
    and counts both questions, but its batch is the fallback of Q7 alone
    and holds no analysis for Q8. *)
Lemma analyze_batch_loses_question_without_analyses :
  Samples.q7ThrowsRestBare Samples.q7 = Throws
  /\ Samples.q7ThrowsRestBare Samples.q8 = Returns None
  /\ mutationFn Samples.q7ThrowsRestBare [Samples.q7; Samples.q8]
     = Resolved ([fallbackAnalysis Samples.q7], 1)
  /\ processedCount (analyzeLoop Samples.q7ThrowsRestBare [Samples.q7; Samples.q8])
     = 2
  /\ existsb (fun a => String.eqb (questionId a) "Q8")
       (l_analyses (analyzeLoop Samples.q7ThrowsRestBare [Samples.q7; Samples.q8]))
     = false.
Proof. repeat split; vm_compute; reflexivity. Qed.

End StepThreeProps.

(** ** Step 4 *)

Module StepFourProps.
Import Js ToolIds StepFour.

Lemma filter_length_all {A} (p : A -> bool) (l : list A) :
  length (List.filter p l) = length l <-> Forall (fun x => p x = true) l.
Proof.
  induction l as [|x l IH]; simpl.
  - split; [constructor | reflexivity].
  - pose proof (List.filter_length_le p l) as Hle.
    destruct (p x) eqn:E; simpl.
    + split.
      * intros H. constructor; [exact E|]. apply IH. lia.
      * intros H. inversion H; subst. f_equal. now apply IH.
    + split; [lia|]. intros H. inversion H; congruence.
Qed.

Lemma isCompleted_spec (e : AgentExecution) :
  isCompleted e = true <-> ex_status e = Some completed.
Proof.
  unfold isCompleted. destruct (ex_status e) as [[]|]; split; congruence.
Qed.

Lemma all_completed_spec (executions : gmap string AgentExecution) :
  Forall (fun e => isCompleted e = true) (executionList executions)
  <-> map_Forall (fun _ e => ex_status e = Some completed) executions.
Proof.
  unfold executionList. rewrite map_Forall_to_list, Forall_fmap.
  apply Forall_proper; [|reflexivity].
  intros [k e]. simpl. apply isCompleted_spec.
Qed.

Lemma canProceed_spec (executions : gmap string AgentExecution) :
  canProceed executions = true
  <-> executions <> ∅
      /\ forall key e, executions !! key = Some e -> ex_status e = Some completed.
Proof.
  unfold canProceed. rewrite andb_true_iff, Nat.ltb_lt, Nat.eqb_eq.
  rewrite filter_length_all, all_completed_spec.
  unfold executionList. rewrite length_fmap, length_map_to_list.
  split.
  - intros [Hsz Hall]. split; [|exact Hall].
    intros ->. rewrite map_size_empty in Hsz. lia.
  - intros [Hne Hall]. split; [|exact Hall].
    destruct (decide (size executions = 0)) as [E|E]; [|lia].
    apply map_size_empty_iff in E. contradiction.
Qed.

Lemma canProceed_blocked (executions : gmap string AgentExecution)
    (key : string) (e : AgentExecution) :
  executions !! key = Some e ->
  ex_status e <> Some completed ->
  canProceed executions = false.
Proof.
  intros Hk Hs. apply not_true_is_false. intros Ht.
  apply canProceed_spec in Ht as [_ Hall]. apply Hs. eapply Hall; eauto.
Qed.

(** *** The default record count *)

Lemma roundNearestEven_bounds (M s : Z) :
  (0 <= M -> 1 <= s ->
   0 <= roundNearestEven M s /\ roundNearestEven M s * 2 ^ s <= M + 2 ^ (s - 1))%Z.
Proof.
  intros HM Hs. unfold roundNearestEven.
  assert (Hpow : (2 ^ s = 2 * 2 ^ (s - 1))%Z).
  { replace s with (Z.succ (s - 1)) at 1 by lia. apply Z.pow_succ_r. lia. }
  assert (Hhalf : (0 < 2 ^ (s - 1))%Z) by (apply Z.pow_pos_nonneg; lia).
  pose proof (Z.div_mod M (2 ^ s) ltac:(lia)) as Hdm.
  pose proof (Z.mod_pos_bound M (2 ^ s) ltac:(lia)) as Hr.
  assert (Hq : (0 <= M / 2 ^ s)%Z) by (apply Z.div_pos; lia).
  set (q := (M / 2 ^ s)%Z) in *. set (r := (M mod 2 ^ s)%Z) in *.
  set (h := (2 ^ (s - 1))%Z) in *.
  destruct (Z.ltb_spec r h); [split; [lia | nia]|].
  destruct (Z.ltb_spec h r); [split; [lia | nia]|].
  destruct (Z.even q); split; try lia; nia.
Qed.

Lemma log2_of_product (M : Z) :
  (2 ^ 53 <= M < 50 * 2 ^ 53 -> 1 <= Z.log2 M - 52 <= 6)%Z.
Proof.
  intros [Hlo Hhi].
  assert (53 <= Z.log2 M)%Z by (apply Z.log2_le_pow2; lia).
  assert (Z.log2 M < 59)%Z by (apply Z.log2_lt_pow2; lia).
  lia.
Qed.

(** [Math.floor(Math.random() * 50) + 10] lies between 10 and 59. *)
Lemma randomRecords_range (rnd : Draw) :
  validDraw rnd -> (10 <= randomRecords rnd <= 59)%Z.
Proof.
  intros [[Hm0 Hm] [He0 He]]. unfold randomRecords, mathFloor, times50.
  assert (Hp53 : (2 ^ 53 <= 2 ^ negexp rnd)%Z)
    by (apply Z.pow_le_mono_r; lia).
  destruct (Z.ltb_spec (50 * mant rnd) (2 ^ 53)) as [Hsmall|Hbig]; simpl.
  - rewrite Z.div_small by lia. lia.
  - set (M := (50 * mant rnd)%Z) in *.
    pose proof (log2_of_product M ltac:(lia)) as Hs.
    set (s := (Z.log2 M - 52)%Z) in *.
    destruct (roundNearestEven_bounds M s ltac:(lia) ltac:(lia)) as [Hr0 Hr].
    assert (Hsplit : (2 ^ negexp rnd = 2 ^ (negexp rnd - s) * 2 ^ s)%Z).
    { rewrite <- Z.pow_add_r by lia. f_equal. lia. }
    assert (Hps : (0 < 2 ^ s)%Z) by (apply Z.pow_pos_nonneg; lia).
    assert (Hpp : (0 < 2 ^ (negexp rnd - s))%Z) by (apply Z.pow_pos_nonneg; lia).
    assert (Hhalf : (2 ^ (s - 1) <= 2 ^ 5)%Z) by (apply Z.pow_le_mono_r; lia).
    assert (Hlt : (roundNearestEven M s < 50 * 2 ^ (negexp rnd - s))%Z).
    { change (2 ^ 5)%Z with 32%Z in Hhalf. nia. }
    assert (0 <= roundNearestEven M s / 2 ^ (negexp rnd - s) < 50)%Z.
    { split; [apply Z.div_pos; lia|]. apply Z.div_lt_upper_bound; lia. }
    lia.
Qed.

(** C10: normalization fills in every field that is missing: "Low" and
    "Compliant" when [response.analysis] lacks them, no findings, the
    default summary; without a (non-zero) [dataPoints] the record count is
    an integer from 10 to 59 that depends on the random draw, so the same
    response can be normalized to different record counts. *)
Theorem completedResult_defaults
    (analysis : QuestionAnalysis) (connector : ToolConnector)
    (response : AgentResponse) (now : Z) (rnd : Draw) :
  validDraw rnd ->
  let result := completedResult analysis connector response now rnd in
  (truthy (optProp (r_analysis response) "riskLevel") = false ->
     riskLevel result = JStr "Low")
  /\ (truthy (optProp (r_analysis response) "complianceStatus") = false ->
        complianceStatus result = JStr "Compliant")
  /\ (r_analysis response = JUndefined ->
        riskLevel result = JStr "Low"
        /\ complianceStatus result = JStr "Compliant"
        /\ data result
           = JStr ("Comprehensive data analysis completed for: "
                   +:+ interpolate (originalQuestion analysis)))
  /\ (r_findings response = JUndefined -> findings result = JArr [])
  /\ (truthy (r_dataPoints response) = true ->
        records result = r_dataPoints response)
  /\ (r_dataPoints response = JUndefined \/ r_dataPoints response = JNum 0 ->
        (exists n, records result = JNum n /\ (10 <= n <= 59)%Z)
        /\ exists rnd1 rnd2,
             validDraw rnd1 /\ validDraw rnd2
             /\ records (completedResult analysis connector response now rnd1)
                = JNum 10
             /\ records (completedResult analysis connector response now rnd2)
                = JNum 59).
Proof.
  intros Hv. simpl. unfold jsOr.
  split; [now intros ->|]. split; [now intros ->|].
  split; [now intros ->|]. split; [now intros ->|].
  split; [now intros ->|].
  intros Hd.
  assert (Hf : truthy (r_dataPoints response) = false)
    by (destruct Hd as [-> | ->]; reflexivity).
  rewrite Hf. split.
  - eexists. split; [reflexivity|]. now apply randomRecords_range.
  - exists (mkDraw 0 53), (mkDraw (2 ^ 53 - 1) 53).
    repeat split; try (vm_compute; congruence).
Qed.

Lemma completedResult_defaults_witness :
  riskLevel (completedResult Samples.accessAnalysis Samples.sqlConnector
               (mkResponse JUndefined JUndefined JUndefined) 0 (mkDraw 1 53))
  = JStr "Low".
Proof.
  apply (completedResult_defaults Samples.accessAnalysis Samples.sqlConnector
           (mkResponse JUndefined JUndefined JUndefined) 0 (mkDraw 1 53)).
  - unfold validDraw. simpl. lia.
  - reflexivity.
Defined.

(** *** The batch run *)

Lemma statusOf_insert (m : gmap string AgentExecution) (k k' : string)
    (e : AgentExecution) :
  statusOf (<[k := e]> m) k' = if decide (k = k') then ex_status e else statusOf m k'.
Proof. unfold statusOf. rewrite lookup_insert. now case_decide. Qed.

Lemma statusOf_spread (m : gmap string AgentExecution) (k : string) (s : ExecStatus) :
  statusOf m k = Some s -> ex_status (spread m k) = Some s.
Proof. unfold statusOf, spread. now destruct (m !! k). Qed.

Lemma fmap_NoDup_inj {A B} (f : A -> B) (l : list A) (x y : A) :
  NoDup (f <$> l) -> x ∈ l -> y ∈ l -> f x = f y -> x = y.
Proof.
  induction l as [|z l IH]; intros Hnd Hx Hy E; [inversion Hx|].
  rewrite fmap_cons in Hnd. apply NoDup_cons in Hnd as [Hz Hnd].
  apply elem_of_cons in Hx as [-> | Hx]; apply elem_of_cons in Hy as [-> | Hy]; auto.
  - exfalso. apply Hz. rewrite E. now apply list_elem_of_fmap_2.
  - exfalso. apply Hz. rewrite <- E. now apply list_elem_of_fmap_2.
Qed.

Lemma elem_of_fmap_filter {A B} (f : A -> B) (p : A -> bool) (l : list A) (y : B) :
  y ∈ f <$> List.filter p l <-> exists x, y = f x /\ x ∈ l /\ p x = true.
Proof.
  rewrite list_elem_of_fmap. split; intros (x & -> & Hx); exists x;
    (split; [reflexivity|]).
  - apply list_elem_of_In, filter_In in Hx as [Hx Hp].
    split; [now apply list_elem_of_In | exact Hp].
  - destruct Hx as [Hx Hp]. apply list_elem_of_In, filter_In.
    split; [now apply list_elem_of_In | exact Hp].
Qed.

Lemma NoDup_fmap_filter {A B} (f : A -> B) (p : A -> bool) (l : list A) :
  NoDup (f <$> l) -> NoDup (f <$> List.filter p l).
Proof.
  induction l as [|x l IH]; simpl; [auto|].
  rewrite NoDup_cons. intros [Hx Hnd].
  destruct (p x); [|now apply IH].
  simpl. apply NoDup_cons. split; [|now apply IH].
  intros Hin. apply Hx. apply elem_of_fmap_filter in Hin as (z & -> & Hz & _).
  now apply list_elem_of_fmap_2.
Qed.

Section Batch.
Variable applicationId : option Z.
Variable api : AgentRequest -> CallOutcome.
Variable connectors : list ToolConnector.
Variable startedAt : QuestionAnalysis -> Z.

Lemma lacksConnector_finalStatus (a : QuestionAnalysis) :
  lacksConnector connectors a = true
  <-> finalStatus applicationId api connectors a = no_connector.
Proof.
  unfold lacksConnector, finalStatus.
  destruct (getConnectorForTool connectors (toolSuggestion a)) as [c|].
  - destruct (executeAgentMutation _ _ _); split; discriminate.
  - split; reflexivity.
Qed.


(** The synchronous phase, from any run. *)
Lemma dispatch_shape (l : list QuestionAnalysis) : forall run,
  let run' := fold_left (startAgent connectors startedAt) l run in
  taskKey <$> inflight run'
  = (taskKey <$> inflight run) ++ (an_id <$> List.filter (hasConnector connectors) l)
  /\ rq_questionId <$> attempts run'
     = (rq_questionId <$> attempts run) ++ (an_id <$> List.filter (hasConnector connectors) l)
  /\ (forall t, t ∈ inflight run' ->
        t ∈ inflight run
        \/ (t_analysis t ∈ l
            /\ getConnectorForTool connectors (toolSuggestion (t_analysis t))
               = Some (t_connector t)))
  /\ (forall tm, tm ∈ timers run' ->
        tm ∈ timers run \/ tm_key tm ∈ an_id <$> l)
  /\ (forall key, key ∉ an_id <$> l ->
        executions run' !! key = executions run !! key).
Proof.
  induction l as [|a l IH]; intros run; simpl.
  - rewrite !app_nil_r. repeat split; auto.
  - destruct (IH (startAgent connectors startedAt run a)) as (Hk & Hq & Ht & Htm & Hex). clear IH.
    unfold startAgent, hasConnector, lacksConnector in *.
    destruct (getConnectorForTool connectors (toolSuggestion a)) as [c|] eqn:Ec;
      simpl in *.
    + rewrite Hk, Hq, !fmap_app, <- !app_assoc. simpl.
      split; [reflexivity|]. split; [reflexivity|]. split; [|split].
      * intros t Hin. apply Ht in Hin as [Hin | [Hin Hc]].
        -- apply elem_of_app in Hin as [Hin | Hin]; [now left|].
           apply list_elem_of_singleton in Hin. subst t. right. simpl.
           split; [apply list_elem_of_here | exact Ec].
        -- right. split; [now apply list_elem_of_further | exact Hc].
      * intros tm Hin. apply Htm in Hin as [Hin | Hin].
        -- apply elem_of_app in Hin as [Hin | Hin]; [now left|].
           apply list_elem_of_singleton in Hin. subst tm. right. simpl.
           apply list_elem_of_here.
        -- right. now apply list_elem_of_further.
      * intros key Hkey. apply not_elem_of_cons in Hkey as [Hne Hkey].
        rewrite Hex by exact Hkey. now rewrite lookup_insert_ne.
    + rewrite Hk, Hq.
      split; [reflexivity|]. split; [reflexivity|]. split; [|split].
      * intros t Hin. apply Ht in Hin as [Hin | [Hin Hc]]; [now left|].
        right. split; [now apply list_elem_of_further | exact Hc].
      * intros tm Hin. apply Htm in Hin as [Hin | Hin]; [now left|].
        right. now apply list_elem_of_further.
      * intros key Hkey. apply not_elem_of_cons in Hkey as [Hne Hkey].
        rewrite Hex by exact Hkey. now rewrite lookup_insert_ne.
Qed.

Lemma dispatch_status (l : list QuestionAnalysis) : forall run,
  NoDup (an_id <$> l) ->
  forall a, a ∈ l ->
    statusOf (executions (fold_left (startAgent connectors startedAt) l run)) (an_id a)
    = Some (if lacksConnector connectors a then no_connector else running).
Proof.
  induction l as [|a0 l IH]; intros run Hnd a Ha; [inversion Ha|].
  rewrite fmap_cons in Hnd. apply NoDup_cons in Hnd as [Hfresh Hnd].
  simpl. apply elem_of_cons in Ha as [-> | Ha]; [|now apply IH].
  destruct (dispatch_shape l (startAgent connectors startedAt run a0)) as (_ & _ & _ & _ & Hex).
  unfold statusOf. rewrite Hex by exact Hfresh.
  unfold startAgent, lacksConnector.
  destruct (getConnectorForTool connectors (toolSuggestion a0)); simpl;
    now rewrite lookup_insert_eq.
Qed.

Variable analyses : list QuestionAnalysis.
Hypothesis analyses_distinct : NoDup (an_id <$> analyses).

Lemma dispatch_consistent (executions0 : gmap string AgentExecution) :
  consistent applicationId api connectors analyses
    (dispatch connectors startedAt executions0 analyses).
Proof.
  unfold dispatch.
  destruct (dispatch_shape analyses (mkRun executions0 [] [] [] 0))
    as (Hk & _ & Ht & Htm & _). simpl in Hk, Ht, Htm.
  pose proof (dispatch_status analyses (mkRun executions0 [] [] [] 0)
                analyses_distinct) as Hst.
  unfold consistent. split; [|split; [|split]].
  - intros a Ha. rewrite (Hst a Ha), Hk.
    destruct (lacksConnector connectors a) eqn:El.
    + left. split.
      * f_equal. symmetry. now apply lacksConnector_finalStatus.
      * intros Hin. apply elem_of_fmap_filter in Hin as (a' & E & Ha' & Hc).
        assert (a = a') by (eapply fmap_NoDup_inj; eauto). subst a'.
        unfold hasConnector in Hc. rewrite El in Hc. discriminate.
    + right. split; [reflexivity|].
      apply elem_of_fmap_filter. exists a. repeat split; auto.
      unfold hasConnector. now rewrite El.
  - intros t Hin. apply Ht in Hin as [Hin | Hin]; [inversion Hin | exact Hin].
  - rewrite Hk. now apply NoDup_fmap_filter.
  - intros tm Hin. apply Htm in Hin as [Hin | Hin]; [inversion Hin | exact Hin].
Qed.

Lemma finalStatus_of_task (a : QuestionAnalysis) (c : ToolConnector) :
  getConnectorForTool connectors (toolSuggestion a) = Some c ->
  finalStatus applicationId api connectors a
  = match executeAgentMutation applicationId api (requestOf a c) with
    | Resolves _ => completed
    | Rejects _ => failed
    end.
Proof. unfold finalStatus. now intros ->. Qed.

(** Storing the final status of a pending call and dropping the call
    keeps a run consistent. *)
Lemma settled_consistent (run : Run) (before : list Task) (task : Task)
    (after : list Task) (e' : AgentExecution) (tms : list Timer)
    (atts : list AgentRequest) (h : nat) :
  consistent applicationId api connectors analyses run ->
  inflight run = before ++ task :: after ->
  ex_status e' = Some (finalStatus applicationId api connectors (t_analysis task)) ->
  (forall tm, tm ∈ tms -> tm ∈ timers run) ->
  consistent applicationId api connectors analyses
    (mkRun (<[taskKey task := e']> (executions run)) (before ++ after) tms atts h).
Proof.
  intros (Hst & Htask & Hnd & Htm) Hin He' Htms.
  rewrite Hin in Hnd, Htask, Hst.
  rewrite fmap_app, fmap_cons in Hnd, Hst.
  apply NoDup_app in Hnd as (Hnd1 & Hdisj & Hnd2).
  apply NoDup_cons in Hnd2 as (Hfresh & Hnd2).
  assert (Hkey : taskKey task ∉ taskKey <$> before ++ after).
  { rewrite fmap_app. apply not_elem_of_app. split; [|exact Hfresh].
    intros Hk. apply (Hdisj _ Hk). apply list_elem_of_here. }
  assert (Htask_in : t_analysis task ∈ analyses).
  { apply Htask. apply elem_of_app. right. apply list_elem_of_here. }
  unfold consistent. simpl. split; [|split; [|split]].
  - intros a Ha. rewrite statusOf_insert. case_decide as Ek.
    + assert (a = t_analysis task)
        by (eapply fmap_NoDup_inj; eauto). subst a.
      left. split; [exact He' | exact Hkey].
    + rewrite fmap_app.
      destruct (Hst a Ha) as [[Hs Hout] | [Hs Hrun]]; [left | right];
        (split; [exact Hs|]).
      * intros Hk. apply Hout. apply elem_of_app in Hk as [Hk | Hk];
          apply elem_of_app; [now left | right; now apply list_elem_of_further].
      * apply elem_of_app in Hrun as [Hk | Hk]; apply elem_of_app; [now left|].
        apply elem_of_cons in Hk as [Hk | Hk]; [|now right].
        exfalso. apply Ek. symmetry. exact Hk.
  - intros t Ht. apply Htask. apply elem_of_app in Ht as [Ht | Ht];
      apply elem_of_app; [now left | right; now apply list_elem_of_further].
  - rewrite fmap_app. apply NoDup_app. split; [exact Hnd1|]. split; [|exact Hnd2].
    intros k Hk Hk'. apply (Hdisj _ Hk). now apply list_elem_of_further.
  - intros tm Hin'. apply Htm, Htms, Hin'.
Qed.

Lemma step_consistent (run run' : Run) :
  consistent applicationId api connectors analyses run ->
  step applicationId api run run' ->
  consistent applicationId api connectors analyses run'.
Proof.
  intros Hc Hstep. destruct Hstep as [run before tm after Htm | run before task after now stamp rnd Hin Hv].
  - destruct Hc as (Hst & Htask & Hnd & Htms).
    assert (Hkey : tm_key tm ∈ an_id <$> analyses).
    { apply Htms. rewrite Htm. apply elem_of_app. right. apply list_elem_of_here. }
    unfold consistent, tick. simpl. split; [|split; [|split]]; auto.
    + intros a Ha.
      assert (Hsame : statusOf
                        (<[tm_key tm := markProgress (Z.min (tm_progress tm + 15) 85)
                                          (spread (executions run) (tm_key tm))]>
                           (executions run)) (an_id a)
                      = statusOf (executions run) (an_id a)).
      { rewrite statusOf_insert. case_decide as Ek; [|reflexivity].
        rewrite Ek. simpl.
        destruct (Hst a Ha) as [[Hs _] | [Hs _]]; rewrite Hs;
          now apply statusOf_spread. }
      rewrite Hsame. apply Hst, Ha.
    + intros tm' Hin. apply elem_of_app in Hin as [Hin | Hin].
      * apply Htms. rewrite Htm. apply elem_of_app. now left.
      * apply elem_of_cons in Hin as [-> | Hin]; [exact Hkey|].
        apply Htms. rewrite Htm. apply elem_of_app. right.
        now apply list_elem_of_further.
  - pose proof Hc as (_ & Htask & _ & _).
    assert (Hconn : getConnectorForTool connectors (toolSuggestion (t_analysis task))
                    = Some (t_connector task)).
    { apply Htask. rewrite Hin. apply elem_of_app. right. apply list_elem_of_here. }
    pose proof (finalStatus_of_task _ _ Hconn) as Hfinal.
    unfold settle.
    destruct (executeAgentMutation applicationId api
                (requestOf (t_analysis task) (t_connector task))) as [e | response];
      apply settled_consistent; auto; simpl; try (now rewrite Hfinal).
    intros tm' Htm'. apply list_elem_of_In, filter_In in Htm' as [Htm' _].
    now apply list_elem_of_In.
Qed.

Lemma step_attempts (run run' : Run) :
  step applicationId api run run' -> attempts run' = attempts run.
Proof.
  intros [run0 before tm after Htm | run0 before task after now stamp rnd Hin Hv];
    [reflexivity|].
  unfold settle. now destruct (executeAgentMutation _ _ _).
Qed.

Lemma steps_consistent (run run' : Run) :
  steps applicationId api run run' ->
  consistent applicationId api connectors analyses run ->
  consistent applicationId api connectors analyses run'
  /\ attempts run' = attempts run.
Proof.
  induction 1 as [run | run1 run2 run3 Hstep Hsteps IH]; intros Hc; [auto|].
  destruct (IH (step_consistent _ _ Hc Hstep)) as [Hc3 Hat].
  split; [exact Hc3|]. rewrite Hat. now apply step_attempts.
Qed.

Lemma inflight_settle (run : Run) (task : Task) (after : list Task)
    (now : Z) (rnd : Draw) :
  inflight (settle applicationId api run [] task after now now rnd) = after.
Proof. unfold settle. now destruct (executeAgentMutation _ _ _). Qed.

(** Settling the pending calls one after the other is a run of the
    batch, and it finishes. *)
Lemma settleInOrder_finishes (now : Z) (rnd : Draw) (n : nat) : forall run,
  validDraw rnd ->
  length (inflight run) <= n ->
  steps applicationId api run (settleInOrder applicationId api now rnd n run)
  /\ finished (settleInOrder applicationId api now rnd n run).
Proof.
  induction n as [|n IH]; intros run Hv Hlen; simpl.
  - split; [constructor|]. unfold finished.
    destruct (inflight run); [reflexivity | simpl in Hlen; lia].
  - destruct (inflight run) as [|task after] eqn:Ein.
    + split; [constructor | exact Ein].
    + destruct (IH (settle applicationId api run [] task after now now rnd) Hv)
        as [Hsteps Hfin].
      { rewrite inflight_settle. simpl in Hlen. lia. }
      split; [|exact Hfin].
      eapply steps_step; [|exact Hsteps].
      now apply (step_settle applicationId api run [] task after now now rnd).
Qed.

Lemma hasStatus_final (s : ExecStatus) (m : gmap string AgentExecution)
    (a : QuestionAnalysis) (s' : ExecStatus) :
  statusOf m (an_id a) = Some s' ->
  hasStatus s m a = bool_decide (s' = s).
Proof.
  intros H. unfold hasStatus. rewrite H. apply bool_decide_ext.
  split; congruence.
Qed.

(** Where every finished run of the batch leaves the questions. *)
Lemma batch_final (executions0 : gmap string AgentExecution) (final : Run) :
  executeAllAgents applicationId api connectors startedAt analyses executions0 final ->
  (forall a, a ∈ analyses ->
     statusOf (executions final) (an_id a)
     = Some (finalStatus applicationId api connectors a))
  /\ attempts final = attempts (dispatch connectors startedAt executions0 analyses).
Proof.
  intros [Hsteps Hfin].
  destruct (steps_consistent _ _ Hsteps (dispatch_consistent executions0))
    as [(Hst & _ & _ & _) Hat].
  split; [|exact Hat].
  intros a Ha. destruct (Hst a Ha) as [[Hs _] | [_ Hin]]; [exact Hs|].
  unfold finished in Hfin. rewrite Hfin in Hin. inversion Hin.
Qed.

Lemma filter_none {A} (p : A -> bool) (l : list A) :
  (forall x, In x l -> p x = false) -> List.filter p l = [].
Proof.
  induction l as [|x l IH]; intros H; simpl; [reflexivity|].
  rewrite (H x (or_introl eq_refl)). apply IH. intros y Hy. apply H. now right.
Qed.


End Batch.


(** C8: the gate of Step 4 is open exactly when the execution set is not
    empty and every execution is completed; one execution in any other
    status, failed and no_connector included, keeps it closed, and so does
    every finished batch run that leaves a question without a connector or
    with a failed call. *)
Theorem canProceed_all_completed (executions : gmap string AgentExecution) :
  (canProceed executions = true
   <-> executions <> ∅
       /\ forall key e, executions !! key = Some e -> ex_status e = Some completed)
  /\ (forall key e, executions !! key = Some e ->
        ex_status e <> Some completed -> canProceed executions = false)
  /\ (forall applicationId api connectors startedAt analyses final a,
        NoDup (an_id <$> analyses) ->
        executeAllAgents applicationId api connectors startedAt analyses
          executions final ->
        a ∈ analyses ->
        finalStatus applicationId api connectors a <> completed ->
        canProceed (StepFour.executions final) = false).
Proof.
  split; [apply canProceed_spec|]. split; [apply canProceed_blocked|].
  intros applicationId api connectors startedAt analyses final a Hnd Hrun Ha Hs.
  destruct (batch_final applicationId api connectors startedAt analyses Hnd
              executions final Hrun) as [Hfinal _].
  specialize (Hfinal a Ha). unfold statusOf in Hfinal.
  destruct (StepFour.executions final !! an_id a) as [e|] eqn:Ee; [|discriminate].
  apply (canProceed_blocked _ (an_id a) e Ee). rewrite Hfinal. congruence.
Qed.

Lemma canProceed_all_completed_witness :
  canProceed (executions Samples.batchRun) = false.
Proof.
  assert (Hnd : NoDup (an_id <$> [Samples.accessAnalysis; Samples.ticketAnalysis])).
  { apply NoDup_ListNoDup. repeat constructor; simpl; intuition discriminate. }
  destruct (settleInOrder_finishes (Some 1%Z) Samples.emptyAnswer 0 (mkDraw 0 53) 1
              (dispatch [Samples.sqlConnector] (fun _ => 0%Z) ∅
                 [Samples.accessAnalysis; Samples.ticketAnalysis]))
    as [Hsteps Hfin].
  { unfold validDraw. simpl. lia. }
  { vm_compute. lia. }
  destruct (canProceed_all_completed ∅) as (_ & _ & Hbatch).
  apply (Hbatch (Some 1%Z) Samples.emptyAnswer [Samples.sqlConnector]
           (fun _ => 0%Z) [Samples.accessAnalysis; Samples.ticketAnalysis]
           Samples.batchRun Samples.ticketAnalysis Hnd (conj Hsteps Hfin)).
  - apply list_elem_of_further, list_elem_of_here.
  - vm_compute. discriminate.
Defined.

End StepFourProps.

(** * Further properties of the modelled code *)

(** ** The persistence layer *)

Module StorageExtra.
Import Js Storage.

Lemma conflicts_no_application (rs : list QuestionAnalysis) (qid : string) :
  conflicts rs None qid = false.
Proof. unfold conflicts. induction rs as [|r rs IH]; simpl; auto. Qed.

Lemma conflicts_insertKey (rs : list QuestionAnalysis) (a : InsertQuestionAnalysis)
    (qid : string) :
  ins_questionId a = Some qid ->
  conflicts rs (ins_applicationId a) qid = true
  <-> exists k, insertKey a = Some k /\ k ∈ keysOf rs.
Proof.
  intros Hq. unfold insertKey. rewrite Hq.
  destruct (ins_applicationId a) as [n|].
  - rewrite StorageProps.conflicts_spec. split.
    + intros H. eauto.
    + intros (k & Hk & Hin). now injection Hk as <-.
  - rewrite conflicts_no_application. split; [discriminate|].
    intros (k & Hk & _). discriminate.
Qed.

Lemma insertRow_rowKey now t a t' r :
  insertRow now t a = (t', inr r) -> rowKey r = insertKey a.
Proof.
  intros H. apply StorageProps.insertRow_ok in H as (_ & Hst & _).
  destruct Hst as (Hq & _ & Happ & _).
  unfold rowKey, insertKey. rewrite Happ, Hq. now destruct (ins_applicationId a).
Qed.

Lemma insertRow_succeeds now t a :
  (exists t' r, insertRow now t a = (t', inr r))
  <-> complete a /\ (forall k, insertKey a = Some k -> k ∉ keysOf (rows t)).
Proof.
  unfold complete, insertRow.
  destruct (ins_questionId a) as [qid|] eqn:Eq.
  2:{ split; [intros (t' & r & H); discriminate | intros [[[x Hx] _] _]; discriminate]. }
  destruct (ins_originalQuestion a) as [oq|] eqn:Eo.
  2:{ split; [intros (t' & r & H); discriminate | intros [[_ [x Hx]] _]; discriminate]. }
  pose proof (conflicts_insertKey (rows t) a qid Eq) as Hc.
  destruct (conflicts (rows t) (ins_applicationId a) qid) eqn:Ec.
  - split; [intros (t' & r & H); discriminate|].
    intros [_ Hfree]. destruct Hc as [Hc _].
    destruct (Hc eq_refl) as (k & Hk & Hin). exfalso. exact (Hfree k Hk Hin).
  - split; [|eauto]. intros _. split; [split; eauto|].
    intros k Hk Hin. destruct Hc as [_ Hc]. discriminate Hc. eauto.
Qed.

Lemma keysOf_snoc (rs : list QuestionAnalysis) (r : QuestionAnalysis) :
  keysOf (rs ++ [r]) = keysOf rs ++ option_list (rowKey r).
Proof.
  rewrite StorageProps.keysOf_app. unfold keysOf. simpl.
  now destruct (rowKey r).
Qed.

(** When a multi-row insert goes through. *)
Lemma insertRows_succeeds now (batch : list InsertQuestionAnalysis) : forall t,
  (exists t' rs, insertRows now t batch = (t', inr rs))
  <-> Forall complete batch
      /\ NoDup (omap insertKey batch)
      /\ (forall k, k ∈ omap insertKey batch -> k ∉ keysOf (rows t)).
Proof.
  induction batch as [|a batch IH]; intros t; simpl.
  - split; [|eauto]. intros _. repeat split; [constructor | constructor |].
    intros k Hk. inversion Hk.
  - destruct (insertRow now t a) as [t1 [e|r]] eqn:E1.
    + split; [intros (t' & rs & H); discriminate|].
      intros (Hall & Hnd & Hfree). exfalso.
      inversion Hall as [|? ? Ha Hrest]; subst.
      assert (Hs : exists t' r, insertRow now t a = (t', inr r)).
      { apply insertRow_succeeds. split; [exact Ha|].
        intros k Hk. apply Hfree. rewrite Hk. apply list_elem_of_here. }
      destruct Hs as (t' & r & Hs). congruence.
    + pose proof (insertRow_rowKey _ _ _ _ _ E1) as Hkey.
      assert (Hs : complete a /\ (forall k, insertKey a = Some k -> k ∉ keysOf (rows t)))
        by (apply (insertRow_succeeds now); eauto).
      destruct Hs as [Ha Hfresh].
      apply StorageProps.insertRow_ok in E1 as (Hrows & _ & _).
      specialize (IH t1). rewrite Hrows, keysOf_snoc, Hkey in IH.
      destruct (insertRows now t1 batch) as [t2 [e|rs]] eqn:E2.
      * split; [intros (t' & rs & H); discriminate|].
        intros (Hall & Hnd & Hfree). exfalso.
        inversion Hall as [|? ? _ Hrest]; subst.
        destruct IH as [_ IH]. destruct IH as (t' & rs & H); [|discriminate].
        split; [exact Hrest|]. destruct (insertKey a) as [k0|] eqn:Ek; simpl in *.
        -- apply NoDup_cons in Hnd as [Hk0 Hnd]. split; [exact Hnd|].
           intros k Hk Hin. apply elem_of_app in Hin as [Hin | Hin].
           ++ apply (Hfree k); [now apply list_elem_of_further | exact Hin].
           ++ apply list_elem_of_singleton in Hin. subst k. contradiction.
        -- split; [exact Hnd|]. intros k Hk Hin. rewrite app_nil_r in Hin.
           exact (Hfree k Hk Hin).
      * split; [|eauto]. intros _.
        destruct IH as [IH _]. destruct IH as (Hall & Hnd & Hfree); [eauto|].
        split; [now constructor|].
        destruct (insertKey a) as [k0|] eqn:Ek; simpl in *.
        -- split.
           ++ apply NoDup_cons. split; [|exact Hnd].
              intros Hin. apply (Hfree k0 Hin). apply elem_of_app. right.
              apply list_elem_of_here.
           ++ intros k Hk. apply elem_of_cons in Hk as [-> | Hk].
              ** now apply Hfresh.
              ** intros Hin. apply (Hfree k Hk). apply elem_of_app. now left.
        -- split; [exact Hnd|]. intros k Hk Hin. apply (Hfree k Hk).
           rewrite app_nil_r. exact Hin.
Qed.

Lemma createQuestionAnalyses_all_or_nothing_rows
    (t t' : Table) (now : Z) (batch : list InsertQuestionAnalysis)
    (res : StorageError + list QuestionAnalysis) :
  createQuestionAnalyses t now batch = (t', res) ->
  match res with
  | inr rs => rows t' = rows t ++ rs /\ Forall2 storedAs batch rs
  | inl _ => rows t' = rows t
  end.
Proof.
  unfold createQuestionAnalyses. intros H.
  destruct batch as [|a0 rest]; [now injection H as <- <-|].
  destruct (insertRows now t (a0 :: rest)) as [t1 [e|rs]] eqn:E;
    injection H as <- <-; [reflexivity|].
  now apply StorageProps.insertRows_ok in E.
Qed.

(** X1: [createQuestionAnalyses] stores a batch whole or not at all, and it
    stores nothing when the batch is empty, when a row lacks its question id
    or its original question, when two rows of the batch have the same key,
    or when the key of a row is already in the table. *)
Theorem createQuestionAnalyses_all_or_nothing
    (t t' : Table) (now : Z) (batch : list InsertQuestionAnalysis)
    (res : StorageError + list QuestionAnalysis) :
  createQuestionAnalyses t now batch = (t', res) ->
  match res with
  | inr rs => rows t' = rows t ++ rs /\ Forall2 storedAs batch rs
  | inl _ => rows t' = rows t
  end
  /\ (batch = []
      \/ ~ Forall complete batch
      \/ ~ NoDup (omap insertKey batch)
      \/ (exists k, k ∈ omap insertKey batch /\ k ∈ keysOf (rows t)) ->
      exists e, res = inl e).
Proof.
  unfold createQuestionAnalyses. intros H.
  destruct batch as [|a0 rest].
  - injection H as <- <-. split; [reflexivity | eauto].
  - destruct (insertRows now t (a0 :: rest)) as [t1 [e|rs]] eqn:E.
    + injection H as <- <-. split; [reflexivity | eauto].
    + injection H as <- <-. split.
      * now apply StorageProps.insertRows_ok in E.
      * intros Hbad. exfalso.
        assert (Hs : exists t' rs, insertRows now t (a0 :: rest) = (t', inr rs)) by eauto.
        apply insertRows_succeeds in Hs as (Hall & Hnd & Hfree).
        destruct Hbad as [Hb | [Hb | [Hb | (k & Hk & Hin)]]];
          [discriminate | now apply Hb | now apply Hb | exact (Hfree k Hk Hin)].
Qed.

Lemma createQuestionAnalyses_all_or_nothing_witness :
  rows (mkTable [Samples.accessRow] 1) = rows Samples.emptyTable ++ [Samples.accessRow]
  /\ Forall2 storedAs [Samples.accessInsert] [Samples.accessRow].
Proof.
  destruct (createQuestionAnalyses_all_or_nothing Samples.emptyTable
              (mkTable [Samples.accessRow] 1) 5 [Samples.accessInsert]
              (inr [Samples.accessRow])) as [H _].
  - vm_compute. reflexivity.
  - exact H.
Defined.

Lemma insertRow_id now t a t' r :
  insertRow now t a = (t', inr r) ->
  qa_id r = (lastId t + 1)%Z /\ lastId t' = (lastId t + 1)%Z /\ qa_createdAt r = now.
Proof.
  unfold insertRow.
  destruct (ins_questionId a); [|discriminate].
  destruct (ins_originalQuestion a); [|discriminate].
  destruct (conflicts _ _ _); [discriminate|].
  intros H. injection H as <- <-. auto.
Qed.

Lemma insertRow_lastId now t a t' res :
  insertRow now t a = (t', res) -> lastId t' = (lastId t + 1)%Z.
Proof.
  unfold insertRow.
  destruct (ins_questionId a); [destruct (ins_originalQuestion a);
    [destruct (conflicts _ _ _)|]|]; intros H; now injection H as <- _.
Qed.

Lemma insertRows_lastId now (batch : list InsertQuestionAnalysis) : forall t t' res,
  insertRows now t batch = (t', res) -> (lastId t <= lastId t')%Z.
Proof.
  induction batch as [|a batch IH]; intros t t' res H; simpl in H.
  - injection H as <- _. lia.
  - destruct (insertRow now t a) as [t1 [e|r]] eqn:E1;
      pose proof (insertRow_lastId _ _ _ _ _ E1) as H1.
    + injection H as <- _. lia.
    + destruct (insertRows now t1 batch) as [t2 res2] eqn:E2.
      apply IH in E2.
      destruct res2; injection H as <- _; lia.
Qed.

Lemma insertRows_ids now (batch : list InsertQuestionAnalysis) : forall t t' rs,
  insertRows now t batch = (t', inr rs) ->
  qa_id <$> rs = (fun i => (lastId t + Z.of_nat i)%Z) <$> seq 1 (length batch)
  /\ lastId t' = (lastId t + Z.of_nat (length batch))%Z
  /\ Forall (fun r => qa_createdAt r = now) rs.
Proof.
  induction batch as [|a batch IH]; intros t t' rs H; simpl in H.
  - injection H as <- <-. simpl. repeat split; [lia | constructor].
  - destruct (insertRow now t a) as [t1 [e|r]] eqn:E1; [discriminate|].
    destruct (insertRows now t1 batch) as [t2 [e|rs2]] eqn:E2; [discriminate|].
    injection H as <- <-.
    apply insertRow_id in E1 as (Hid & Hlast & Hnow).
    apply IH in E2 as (Hids & Hlast2 & Hall).
    split; [|split].
    + simpl length. rewrite <- cons_seq, !fmap_cons, Hid. f_equal; try lia.
      rewrite Hids, Hlast.
      replace (seq 2 (length batch)) with (S <$> seq 1 (length batch))
        by apply fmap_S_seq.
      rewrite <- list_fmap_compose.
      apply list_fmap_ext. intros i x _. simpl. lia.
    + rewrite Hlast2, Hlast. simpl length. lia.
    + now constructor.
Qed.

(** X2: the primary key is kept: whatever a statement does, the ids in the
    table stay distinct and at most the sequence value, which never goes
    back; the rows of a batch that persists get the next ids of the
    sequence, in order, and all carry the statement's time. *)
Theorem createQuestionAnalyses_ids
    (t t' : Table) (now : Z) (batch : list InsertQuestionAnalysis)
    (res : StorageError + list QuestionAnalysis) :
  idsDrawn t ->
  createQuestionAnalyses t now batch = (t', res) ->
  idsDrawn t'
  /\ (lastId t <= lastId t')%Z
  /\ match res with
     | inr rs =>
         qa_id <$> rs = (fun i => (lastId t + Z.of_nat i)%Z) <$> seq 1 (length batch)
         /\ lastId t' = (lastId t + Z.of_nat (length batch))%Z
         /\ Forall (fun r => qa_createdAt r = now) rs
     | inl _ => True
     end.
Proof.
  intros [Hle Hnd] H. unfold createQuestionAnalyses in H.
  destruct batch as [|a0 rest].
  - injection H as <- <-. repeat split; auto. lia.
  - destruct (insertRows now t (a0 :: rest)) as [t1 [e|rs]] eqn:E.
    + injection H as <- <-. apply insertRows_lastId in E. simpl.
      repeat split; auto.
      eapply Forall_impl; [exact Hle|]. simpl. intros r Hr. lia.
    + injection H as <- <-.
      pose proof (insertRows_lastId _ _ _ _ _ E) as Hmono.
      pose proof (StorageProps.insertRows_ok _ _ _ _ _ E) as (Hrows & _).
      pose proof (insertRows_ids _ _ _ _ _ E) as (Hids & Hlast & Hnow).
      split; [|auto]. split.
      * rewrite Hrows. apply Forall_app. split.
        -- eapply Forall_impl; [exact Hle|]. simpl. intros r Hr. lia.
        -- apply Forall_forall. intros r Hr.
           assert (Hin : qa_id r ∈ qa_id <$> rs) by now apply list_elem_of_fmap_2.
           rewrite Hids in Hin. apply list_elem_of_fmap in Hin as (i & Hi & Hin).
           apply elem_of_seq in Hin. simpl in *. lia.
      * rewrite Hrows, fmap_app. apply NoDup_app. split; [exact Hnd|]. split.
        -- intros x Hx Hx'. rewrite Hids in Hx'.
           apply list_elem_of_fmap in Hx' as (i & -> & Hi). apply elem_of_seq in Hi.
           apply list_elem_of_fmap in Hx as (r & Hr & Hin).
           rewrite Forall_forall in Hle. specialize (Hle r Hin). lia.
        -- rewrite Hids. apply NoDup_fmap_2_strong; [|apply NoDup_seq].
           intros i j _ _ Hij. lia.
Qed.

Lemma createQuestionAnalyses_ids_witness :
  idsDrawn (mkTable [Samples.accessRow] 1)
  /\ (lastId Samples.emptyTable <= lastId (mkTable [Samples.accessRow] 1))%Z.
Proof.
  destruct (createQuestionAnalyses_ids Samples.emptyTable
              (mkTable [Samples.accessRow] 1) 5 [Samples.accessInsert]
              (inr [Samples.accessRow])) as (H1 & H2 & _).
  - split; [constructor | apply NoDup_nil_2].
  - vm_compute. reflexivity.
  - split; [exact H1 | exact H2].
Defined.

(** X3: the unique index does not see rows without an application id:
    when a batch of rows that carry none has persisted, the same batch
    persists again as long as the sequence of the id has values left, and
    the table then holds every question of the batch twice. *)
Theorem createQuestionAnalyses_without_application
    (t t' : Table) (now now' : Z) (batch : list InsertQuestionAnalysis)
    (rs : list QuestionAnalysis) :
  createQuestionAnalyses t now batch = (t', inr rs) ->
  Forall (fun a => ins_applicationId a = None) batch ->
  (lastId t' + Z.of_nat (length batch) <= maxSerial)%Z ->
  exists t'' rs',
    createQuestionAnalyses t' now' batch = (t'', inr rs')
    /\ rows t'' = rows t ++ rs ++ rs'
    /\ Forall2 storedAs batch rs
    /\ Forall2 storedAs batch rs'
    /\ Forall (fun r => qa_applicationId r = None) (rs ++ rs').
Proof.
  intros E1 Hnone _.
  assert (Hkeys : omap insertKey batch = []).
  { clear E1. induction batch as [|a batch IH]; [reflexivity|].
    inversion Hnone as [|? ? Ha Hrest]; subst. simpl.
    unfold insertKey at 1. rewrite Ha. now apply IH. }
  unfold createQuestionAnalyses in *.
  destruct batch as [|a0 rest]; [discriminate|].
  destruct (insertRows now t (a0 :: rest)) as [t1 [e|rs1]] eqn:R1;
    [discriminate|].
  injection E1 as <- <-.
  assert (Hall : Forall complete (a0 :: rest)).
  { apply (proj1 (insertRows_succeeds now (a0 :: rest) t)). eauto. }
  destruct (proj2 (insertRows_succeeds now' (a0 :: rest) t1)) as (t2 & rs2 & R2).
  { rewrite Hkeys. split; [exact Hall|]. split; [constructor|].
    intros k Hk. inversion Hk. }
  exists t2, rs2. rewrite R2.
  pose proof (StorageProps.insertRows_ok _ _ _ _ _ R1) as (Hrows1 & Hst1).
  pose proof (StorageProps.insertRows_ok _ _ _ _ _ R2) as (Hrows2 & Hst2).
  assert (Hnull : forall b l,
             Forall (fun a => ins_applicationId a = None) b ->
             Forall2 storedAs b l ->
             Forall (fun r => qa_applicationId r = None) l).
  { intros b l Hb Hst.
    induction Hst as [|a r b' l' Har _ IH]; [constructor|].
    inversion Hb as [|? ? Ha Hrest]; subst. constructor; [|now apply IH].
    destruct Har as (_ & _ & Happ & _). now rewrite Happ. }
  split; [reflexivity|]. split; [now rewrite Hrows2, Hrows1, <- app_assoc|].
  split; [exact Hst1|]. split; [exact Hst2|].
  apply Forall_app. split; now apply (Hnull (a0 :: rest)).
Qed.

Lemma createQuestionAnalyses_without_application_witness :
  exists t'' rs',
    createQuestionAnalyses (mkTable [Samples.orphanRow] 1) 9 [Samples.orphanInsert]
    = (t'', inr rs')
    /\ rows t'' = rows Samples.emptyTable ++ [Samples.orphanRow] ++ rs'
    /\ Forall2 storedAs [Samples.orphanInsert] [Samples.orphanRow]
    /\ Forall2 storedAs [Samples.orphanInsert] rs'
    /\ Forall (fun r => qa_applicationId r = None) ([Samples.orphanRow] ++ rs').
Proof.
  apply (createQuestionAnalyses_without_application Samples.emptyTable
           (mkTable [Samples.orphanRow] 1) 5 9 [Samples.orphanInsert]
           [Samples.orphanRow]).
  - vm_compute. reflexivity.
  - repeat constructor.
  - vm_compute. discriminate.
Defined.



Lemma sameConnector_spec (ciId connectorType : string) (r : ToolConnector) :
  sameConnector ciId connectorType r = true <-> connectorKey r = (ciId, connectorType).
Proof.
  unfold sameConnector, connectorKey.
  rewrite andb_true_iff, !String.eqb_eq. split.
  - intros [-> ->]. reflexivity.
  - intros H. now injection H.
Qed.

(** X5: [createConnector] keeps one connector per (CI, connector type): a
    second connector of a type a CI already has is rejected and nothing is
    stored; a connector that is stored is appended with the values given,
    status "pending" unless one was given, and is among the connectors the
    registry then lists for its CI. *)
Theorem createConnector_one_per_type
    (t t' : ConnectorTable) (now : Z) (c : InsertToolConnector)
    (res : StorageError + ToolConnector) :
  createConnector t now c = (t', res) ->
  match res with
  | inr r =>
      connectorRows t' = connectorRows t ++ [r]
      /\ connectorKey r = (itc_ciId c, itc_connectorType c)
      /\ tc_configuration r = itc_configuration c
      /\ tc_status r = default "pending" (itc_status c)
      /\ In r (getConnectorsByCiId t' (itc_ciId c))
  | inl _ => connectorRows t' = connectorRows t
  end
  /\ ((exists r0, In r0 (connectorRows t)
                  /\ connectorKey r0 = (itc_ciId c, itc_connectorType c)) ->
      exists e, res = inl e)
  /\ (NoDup (connectorKey <$> connectorRows t) ->
      NoDup (connectorKey <$> connectorRows t')).
Proof.
  unfold createConnector. intros H.
  destruct (existsb (sameConnector (itc_ciId c) (itc_connectorType c))
              (connectorRows t)) eqn:Ex.
  - assert (Hres : connectorRows t' = connectorRows t /\ exists e, res = inl e).
    { destruct (itc_configuration c); injection H as <- <-; simpl; eauto. }
    destruct Hres as [Hrows [e ->]]. rewrite Hrows. repeat split; eauto.
  - assert (Hfree : forall r0, In r0 (connectorRows t) ->
                      connectorKey r0 <> (itc_ciId c, itc_connectorType c)).
    { intros r0 Hin Hk. apply sameConnector_spec in Hk.
      assert (existsb (sameConnector (itc_ciId c) (itc_connectorType c))
                (connectorRows t) = true) by (apply existsb_exists; eauto).
      congruence. }
    destruct (itc_configuration c) eqn:Ec;
      injection H as <- <-; simpl;
      try (split; [|split];
           [ repeat split; auto;
             unfold getConnectorsByCiId; simpl; apply filter_In; split;
             [apply in_or_app; right; now left | simpl; apply String.eqb_refl]
           | intros (r0 & Hin & Hk); exfalso; exact (Hfree r0 Hin Hk)
           | intros Hnd; rewrite fmap_app; apply NoDup_app; split; [exact Hnd|];
             split; [|apply NoDup_singleton];
             intros k Hk Hk'; apply list_elem_of_singleton in Hk'; subst k;
             apply list_elem_of_fmap in Hk as (r0 & Hk & Hin);
             apply list_elem_of_In in Hin; apply (Hfree r0 Hin); now rewrite <- Hk ]).
    all: split; [reflexivity|]; split; [|auto];
      intros (r0 & Hin & Hk); exfalso; exact (Hfree r0 Hin Hk).
Qed.

Lemma createConnector_one_per_type_witness :
  NoDup (connectorKey
           <$> connectorRows
                 (createConnector Samples.emptyConnectorTable 5
                    Samples.sqlConnectorInsert).1).
Proof.
  destruct (createConnector_one_per_type Samples.emptyConnectorTable
              (createConnector Samples.emptyConnectorTable 5
                 Samples.sqlConnectorInsert).1
              5 Samples.sqlConnectorInsert
              (createConnector Samples.emptyConnectorTable 5
                 Samples.sqlConnectorInsert).2) as (_ & _ & H).
  - vm_compute. reflexivity.
  - apply H. apply NoDup_nil_2.
Defined.

Lemma filter_length_lt {A} (p : A -> bool) (l : list A) :
  (length (List.filter p l) < length l)%nat <-> exists x, In x l /\ p x = false.
Proof.
  induction l as [|x l IH]; simpl.
  - split; [lia | intros (x & [] & _)].
  - pose proof (List.filter_length_le p l) as Hle.
    destruct (p x) eqn:E; simpl.
    + rewrite <- Nat.succ_lt_mono, IH. split.
      * intros (y & Hy & Hp). eauto.
      * intros (y & [-> | Hy] & Hp); [congruence | eauto].
    + split; [eauto | lia].
Qed.

Lemma filter_twice {A} (p : A -> bool) (l : list A) :
  List.filter p (List.filter p l) = List.filter p l.
Proof.
  induction l as [|x l IH]; [reflexivity|].
  simpl. destruct (p x) eqn:E; simpl; [rewrite E; f_equal|]; exact IH.
Qed.

(** X6: [deleteConnector] answers true exactly when a connector had the id;
    afterwards no connector has it, every other id reads as before, and
    deleting again answers false and changes nothing. *)
Theorem deleteConnector_spec (t : ConnectorTable) (id : Z) :
  let t' := fst (deleteConnector t id) in
  (snd (deleteConnector t id) = true
   <-> exists r, In r (connectorRows t) /\ tc_id r = id)
  /\ getConnector t' id = None
  /\ (forall id', id' <> id -> getConnector t' id' = getConnector t id')
  /\ (forall ciId r, In r (getConnectorsByCiId t' ciId)
                     <-> In r (getConnectorsByCiId t ciId) /\ tc_id r <> id)
  /\ deleteConnector t' id = (t', false).
Proof.
  unfold deleteConnector, getConnector, getConnectorsByCiId. simpl.
  set (keep := fun r => negb (tc_id r =? id)%Z).
  split; [|split; [|split; [|split]]].
  - rewrite Nat.ltb_lt.
    pose proof (List.filter_length_le keep (connectorRows t)) as Hle.
    pose proof (filter_length_lt keep (connectorRows t)) as Hlt.
    split.
    + intros H. destruct Hlt as [Hlt _]. destruct Hlt as (r & Hin & Hr); [lia|].
      exists r. split; [exact Hin|]. unfold keep in Hr.
      apply negb_false_iff, Z.eqb_eq in Hr. exact Hr.
    + intros (r & Hin & Hr). destruct Hlt as [_ Hlt].
      assert (length (List.filter keep (connectorRows t)) < length (connectorRows t))%nat.
      { apply Hlt. exists r. split; [exact Hin|]. unfold keep.
        apply negb_false_iff, Z.eqb_eq. exact Hr. }
      lia.
  - destruct (List.find _ _) as [r|] eqn:Ef; [|reflexivity].
    apply find_some in Ef as [Hin Hr]. apply filter_In in Hin as [_ Hk].
    unfold keep in Hk. rewrite Hr in Hk. discriminate.
  - intros id' Hne. induction (connectorRows t) as [|r rs IH]; [reflexivity|].
    simpl. unfold keep at 1.
    destruct (Z.eqb_spec (tc_id r) id) as [E|E]; simpl.
    + destruct (Z.eqb_spec (tc_id r) id') as [E'|E']; [congruence | exact IH].
    + destruct (tc_id r =? id')%Z; [reflexivity | exact IH].
  - intros ciId r. rewrite !filter_In. unfold keep.
    rewrite negb_true_iff, Z.eqb_neq. tauto.
  - rewrite filter_twice, Nat.sub_diag. reflexivity.
Qed.

End StorageExtra.

(** ** The classifier and the analysis route *)

Module RoutesExtra.
Import Js Storage Routes ClassifierSpec.

Lemma lowerChar_idempotent (c : ascii) : lowerChar (lowerChar c) = lowerChar c.
Proof. destruct c as [[] [] [] [] [] [] [] []]; vm_compute; reflexivity. Qed.

Lemma toLowerCase_idempotent (s : string) :
  toLowerCase (toLowerCase s) = toLowerCase s.
Proof.
  induction s as [|c s IH]; simpl; [reflexivity|].
  now rewrite lowerChar_idempotent, IH.
Qed.

Lemma questionText_textQuestion (s : string) : questionText (textQuestion s) = s.
Proof. unfold questionText, textQuestion. simpl. now destruct s. Qed.

(** X7: the classifier does not see letter case: a text and its
    lower-cased form get the same suggestion and the same connector, and so
    do any two texts with the same lower-cased form. *)
Theorem determineToolSuggestion_ignores_case (s : string) :
  determineToolSuggestion (textQuestion (toLowerCase s))
  = determineToolSuggestion (textQuestion s)
  /\ determineConnector (textQuestion (toLowerCase s))
     = determineConnector (textQuestion s)
  /\ (forall s', toLowerCase s' = toLowerCase s ->
        determineToolSuggestion (textQuestion s')
        = determineToolSuggestion (textQuestion s)).
Proof.
  assert (H : forall s', toLowerCase s' = toLowerCase s ->
                determineToolSuggestion (textQuestion s')
                = determineToolSuggestion (textQuestion s)).
  { intros s' E. unfold determineToolSuggestion.
    now rewrite !questionText_textQuestion, E. }
  pose proof (H _ (toLowerCase_idempotent s)) as Hl.
  split; [exact Hl|]. split; [|exact H].
  unfold determineConnector. now rewrite Hl.
Qed.

Lemma existsb_false_forall {A} (p : A -> bool) (l : list A) :
  existsb p l = false <-> forall x, In x l -> p x = false.
Proof.
  induction l as [|x l IH]; simpl.
  - split; [intros _ x [] | reflexivity].
  - rewrite orb_false_iff, IH. split.
    + intros [Hx Hl] y [<- | Hy]; auto.
    + intros H. split; [apply H; now left | intros y Hy; apply H; now right].
Qed.

Lemma firstMatch_range (rules : list (list string)) (text : string) (n : nat) :
  n <= firstMatch rules text n <= n + length rules.
Proof.
  revert n. induction rules as [|ks rules IH]; intros n; simpl; [lia|].
  destruct (existsb (includes text) ks); [lia|]. specialize (IH (S n)). lia.
Qed.

Lemma firstMatch_none (rules : list (list string)) (text : string) (n : nat) :
  firstMatch rules text n = n + length rules
  <-> forall kw, In kw (concat rules) -> includes text kw = false.
Proof.
  revert n. induction rules as [|ks rules IH]; intros n; simpl.
  - split; [intros _ kw [] | lia].
  - pose proof (firstMatch_range rules text (S n)) as Hr.
    destruct (existsb (includes text) ks) eqn:E.
    + split; [lia|]. intros H. exfalso.
      apply existsb_exists in E as (kw & Hin & Hkw).
      rewrite H in Hkw; [discriminate|]. apply in_or_app. now left.
    + rewrite existsb_false_forall in E.
      replace (n + S (length rules)) with (S n + length rules) by lia.
      rewrite IH. split.
      * intros H kw Hin. apply in_app_or in Hin as [Hin | Hin]; auto.
      * intros H kw Hin. apply H, in_or_app. now right.
Qed.

(** X8: which rule a suggestion stands for: each of the six labels is
    returned exactly when its rule is the first one with a keyword in the
    lower-cased text, and "Manual Review" exactly when none of the fourteen
    keywords occurs in it. *)
Theorem determineToolSuggestion_rule (q : Question) :
  (forall k, 1 <= k <= 6 ->
     (determineToolSuggestion q = toolOfRule k
      <-> firstMatchingRule (loweredText q) = k))
  /\ (determineToolSuggestion q = "Manual Review"
      <-> forall kw, In kw (concat ruleKeywords) ->
                     includes (loweredText q) kw = false).
Proof.
  pose proof (ClassifierProps.suggestionOfText_first_match (loweredText q)) as Hfm.
  pose proof (firstMatch_range ruleKeywords (loweredText q) 1) as Hr.
  fold (firstMatchingRule (loweredText q)) in Hr. simpl in Hr.
  assert (Hk : forall k, 1 <= k <= 6 ->
            (determineToolSuggestion q = toolOfRule k
             <-> firstMatchingRule (loweredText q) = k)).
  { intros k Hk. unfold determineToolSuggestion. fold (loweredText q). rewrite Hfm.
    split; [|now intros ->].
    destruct (firstMatchingRule (loweredText q)) as [|[|[|[|[|[|[|m]]]]]]];
      destruct k as [|[|[|[|[|[|[|k]]]]]]]; simpl; try lia; try discriminate;
      reflexivity. }
  split; [exact Hk|].
  change "Manual Review" with (toolOfRule 6). rewrite (Hk 6) by lia.
  unfold firstMatchingRule.
  rewrite <- (firstMatch_none ruleKeywords (loweredText q) 1). reflexivity.
Qed.

Lemma omap_insertKey_analysisOf (n : Z) (qs : list Question) :
  omap insertKey (map (analysisOf (Some n)) qs) = (fun id => (n, id)) <$> omap q_id qs.
Proof.
  induction qs as [|q qs IH]; [reflexivity|].
  cbn -[insertKey analysisOf] in *. rewrite IH.
  unfold insertKey. simpl. now destruct (q_id q).
Qed.

(** X9: one bad question fails the whole request: [POST /questions/analyze]
    answers 500 and stores nothing when the list is empty, when a question
    has no id, when it has neither [question] nor [text], or when an
    application id is given and two questions share an id; when it answers
    with saved rows there is one per question, in order, holding the
    question's id, text and category ("General" without a process). *)
Theorem postQuestionsAnalyze_whole_request
    (db db' : Table) (now : Z) (applicationId : option Z) (questions : list Question)
    (response : HttpResponse) :
  postQuestionsAnalyze db now applicationId questions = (db', response) ->
  match response with
  | Json saved =>
      rows db' = rows db ++ saved
      /\ Forall2 (fun q r =>
                    q_id q = Some (qa_questionId r)
                    /\ orOpt (q_question q) (q_text q) = Some (qa_originalQuestion r)
                    /\ qa_category r = orStr (q_process q) "General"
                    /\ qa_applicationId r = applicationId
                    /\ qa_createdAt r = now)
                 questions saved
  | Status500 error =>
      error = "Failed to analyze questions" /\ rows db' = rows db
  end
  /\ (questions = []
      \/ (exists q, In q questions
                    /\ (q_id q = None \/ orOpt (q_question q) (q_text q) = None))
      \/ (is_Some applicationId /\ ~ NoDup (omap q_id questions)) ->
      response = Status500 "Failed to analyze questions").
Proof.
  unfold postQuestionsAnalyze. intros H.
  destruct (createQuestionAnalyses db now (map (analysisOf applicationId) questions))
    as [db1 res] eqn:E.
  pose proof (StorageExtra.createQuestionAnalyses_all_or_nothing_rows _ _ _ _ _ E)
    as Hrows.
  destruct res as [e|saved]; injection H as <- <-.
  - split; [split; [reflexivity | exact Hrows] | reflexivity].
  - destruct Hrows as [Hrows Hst]. split.
    + split; [exact Hrows|].
      assert (Hnow : Forall (fun r => qa_createdAt r = now) saved).
      { unfold createQuestionAnalyses in E.
        destruct (map (analysisOf applicationId) questions) as [|a0 rest];
          [discriminate|].
        destruct (insertRows now db (a0 :: rest)) as [t1 [e|rs]] eqn:E1;
          [discriminate|].
        injection E as <- <-. now apply StorageExtra.insertRows_ids in E1. }
      clear -Hst Hnow. revert saved Hst Hnow.
      induction questions as [|q qs IH]; intros saved Hst Hnow; simpl in Hst;
        inversion Hst as [|? r ? rs Hqr Hrest]; subst; constructor.
      * destruct Hqr as (Hq & Ho & Happ & Hc & _). simpl in *.
        inversion Hnow; subst. repeat split; auto.
      * apply IH; [exact Hrest | now inversion Hnow].
    + intros Hbad. exfalso.
      unfold createQuestionAnalyses in E.
      destruct (map (analysisOf applicationId) questions) as [|a0 rest] eqn:Em;
        [discriminate|].
      destruct (insertRows now db (a0 :: rest)) as [t1 [e|rs]] eqn:E1;
        [discriminate|].
      assert (Hs : exists t' rs, insertRows now db (a0 :: rest) = (t', inr rs)) by eauto.
      rewrite <- Em in Hs. apply StorageExtra.insertRows_succeeds in Hs
        as (Hall & Hnd & _).
      destruct Hbad as [-> | [(q & Hin & Hq) | [[n ->] Hdup]]].
      * discriminate.
      * rewrite Forall_forall in Hall.
        assert (Hc : complete (analysisOf applicationId q)).
        { apply Hall, list_elem_of_In, in_map, Hin. }
        destruct Hc as [[x Hx] [y Hy]]. simpl in Hx, Hy.
        destruct Hq as [Hq | Hq]; congruence.
      * rewrite omap_insertKey_analysisOf in Hnd. apply Hdup.
        eapply NoDup_fmap_1, Hnd.
Qed.

Lemma postQuestionsAnalyze_whole_request_witness :
  rows (mkTable [Samples.accessRow] 1) = rows Samples.emptyTable ++ [Samples.accessRow].
Proof.
  destruct (postQuestionsAnalyze_whole_request Samples.emptyTable
              (mkTable [Samples.accessRow] 1) 5 (Some 1%Z) [Samples.accessQuestion]
              (Json [Samples.accessRow])) as [[H _] _].
  - vm_compute. reflexivity.
  - exact H.
Defined.

End RoutesExtra.

(** ** Step 3: loading, display and edits *)

Module StepThreeExtra.
Import Js ToolIds StepThree.

Lemma assoc_In (k : string) (m : list (string * string)) (v : string) :
  assoc k m = Some v -> In (k, v) m.
Proof.
  induction m as [|[k' v'] m IH]; simpl; [discriminate|].
  destruct (String.eqb_spec k' k) as [->|_].
  - intros [= ->]. now left.
  - intros H. right. now apply IH.
Qed.

(** What [TOOL_ID_MAPPING[tool] || tool] yields is never a key of the
    table, and it is blank or empty exactly when the tool was. *)
Lemma mappedToolType_fixed (tool tool' : string) :
  mappedToolType tool = Some tool' ->
  lookupTool tool' = Absent
  /\ mappedToolType tool' = Some tool'
  /\ isBlank tool' = isBlank tool
  /\ truthyStr tool' = truthyStr tool.
Proof.
  unfold mappedToolType at 1. unfold lookupTool at 1.
  destruct (assoc tool TOOL_ID_MAPPING) as [v|] eqn:Ea.
  - intros [= <-]. apply assoc_In in Ea. simpl in Ea.
    repeat (destruct Ea as [Ea | Ea];
            [injection Ea as <- <-; repeat split; vm_compute; reflexivity|]).
    destruct Ea.
  - destruct (existsb (String.eqb tool) inheritedKeys) eqn:Ei; [discriminate|].
    intros [= <-]. unfold mappedToolType, lookupTool. rewrite Ea, Ei. auto.
Qed.

Lemma toolConfigured_mapped (connectors : list ToolConnector) (tool tool' : string) :
  mappedToolType tool = Some tool' ->
  toolConfigured connectors tool' = toolConfigured connectors tool.
Proof.
  intros H. destruct (mappedToolType_fixed _ _ H) as (_ & Hm & Hb & Ht).
  unfold toolConfigured, connectorExists, matchesTool.
  rewrite !JsFacts.trim_empty, Hm, H, Hb, Ht. reflexivity.
Qed.

Lemma mapChoice_tools (c c' : ToolChoice) :
  mapChoice c = Some c' ->
  Forall2 (fun tool tool' => mappedToolType tool = Some tool')
          (toolSuggestions c) (toolSuggestions c').
Proof.
  destruct c as [tool | tools]; simpl.
  - destruct (mappedToolType tool) as [tool'|] eqn:E; [|discriminate].
    intros [= <-]. simpl. now repeat constructor.
  - destruct (mapM mappedToolType tools) as [tools'|] eqn:E; [|discriminate].
    intros [= <-]. simpl. now apply mapM_Some.
Qed.

Lemma mapChoice_fixed (c c' : ToolChoice) :
  mapChoice c = Some c' -> mapChoice c' = Some c'.
Proof.
  intros H. pose proof (mapChoice_tools _ _ H) as Hall.
  destruct c as [tool | tools]; simpl in H.
  - destruct (mappedToolType tool) as [tool'|] eqn:E; [|discriminate].
    injection H as <-. simpl. now destruct (mappedToolType_fixed _ _ E) as (_ & -> & _).
  - destruct (mapM mappedToolType tools) as [tools'|] eqn:E; [|discriminate].
    injection H as <-. simpl in *.
    assert (Hfix : mapM mappedToolType tools' = Some tools'); [|now rewrite Hfix].
    apply mapM_Some. clear E. induction Hall as [|t t' ts ts' Ht _ IH]; constructor.
    + now destruct (mappedToolType_fixed _ _ Ht) as (_ & -> & _).
    + exact IH.
Qed.

Lemma loadAnalysis_fixed (a a' : QuestionAnalysis) :
  loadAnalysis a = Some a' -> loadAnalysis a' = Some a'.
Proof.
  unfold loadAnalysis.
  destruct (mapChoice (toolSuggestion a)) as [ts|] eqn:Et; [|discriminate].
  destruct (mapChoice (connectorToUse a)) as [cs|] eqn:Ec; [|discriminate].
  intros [= <-]. simpl.
  now rewrite (mapChoice_fixed _ _ Et), (mapChoice_fixed _ _ Ec).
Qed.

Lemma loadAnalysis_configured (connectors : list ToolConnector)
    (a a' : QuestionAnalysis) :
  loadAnalysis a = Some a' ->
  forallb (toolConfigured connectors) (toolSuggestions (toolSuggestion a'))
  = forallb (toolConfigured connectors) (toolSuggestions (toolSuggestion a))
  /\ Forall (fun tool => lookupTool tool = Absent)
            (toolSuggestions (toolSuggestion a'))
  /\ questionId a' = questionId a
  /\ originalQuestion a' = originalQuestion a
  /\ aiPrompt a' = aiPrompt a.
Proof.
  unfold loadAnalysis.
  destruct (mapChoice (toolSuggestion a)) as [ts|] eqn:Et; [|discriminate].
  destruct (mapChoice (connectorToUse a)) as [cs|] eqn:Ec; [|discriminate].
  intros [= <-]. simpl. apply mapChoice_tools in Et.
  split; [|split; [|auto]].
  - induction Et as [|t t' l l' Ht _ IH]; [reflexivity|]. simpl.
    now rewrite (toolConfigured_mapped _ _ _ Ht), IH.
  - induction Et as [|t t' l l' Ht _ IH]; constructor; [|exact IH].
    now destruct (mappedToolType_fixed _ _ Ht).
Qed.

(** X10: loading the saved analyses replaces every old tool id by its
    display name, leaves no key of the id table behind and marks the batch
    saved; it keeps the questions and their order, loading the result again
    changes nothing, and the readiness gate is what it would be for the
    analyses as saved. *)
Theorem loadExistingAnalyses_normalizes
    (existing : list QuestionAnalysis) (st st' : State) :
  existing <> [] ->
  loadExistingAnalyses (Some existing) st = Some st' ->
  isSaved st' = true
  /\ Forall2 (fun a a' =>
                questionId a' = questionId a
                /\ originalQuestion a' = originalQuestion a
                /\ aiPrompt a' = aiPrompt a
                /\ Forall (fun tool => lookupTool tool = Absent)
                          (toolSuggestions (toolSuggestion a')))
             existing (analyses st')
  /\ loadExistingAnalyses (Some (analyses st')) st' = Some st'
  /\ (forall connectors,
        gate connectors st' = canProceed existing connectors true).
Proof.
  intros Hne H. unfold loadExistingAnalyses in H.
  destruct existing as [|first others]; [congruence|].
  destruct (mapM loadAnalysis (first :: others)) as [updated|] eqn:Em; [|discriminate].
  injection H as <-. cbn [analyses isSaved]. apply mapM_Some in Em.
  split; [reflexivity|]. split; [|split].
  - clear Hne. induction Em as [|a a' l l' Ha _ IH]; constructor; [|exact IH].
    destruct (loadAnalysis_configured [] _ _ Ha) as (_ & Habs & Hq & Ho & Hp). auto.
  - unfold loadExistingAnalyses.
    assert (Hfix : mapM loadAnalysis updated = Some updated).
    { apply mapM_Some. clear Hne.
      induction Em as [|a a' l l' Ha _ IH]; constructor; [|exact IH].
      now apply (loadAnalysis_fixed a). }
    destruct updated as [|u us]; [inversion Em|].
    simpl in Hfix |- *. now rewrite Hfix.
  - intros connectors. unfold gate, canProceed, allQuestionsConfigured.
    cbn [analyses isSaved].
    rewrite (Forall2_length _ _ _ Em). f_equal. f_equal. clear Hne.
    induction Em as [|a a' l l' Ha _ IH]; [reflexivity|]. simpl.
    destruct (loadAnalysis_configured connectors _ _ Ha) as (-> & _). now rewrite IH.
Qed.

Lemma loadExistingAnalyses_normalizes_witness :
  exists st',
    loadExistingAnalyses (Some [Samples.sqlAnalysis]) Samples.freshState = Some st'
    /\ isSaved st' = true
    /\ loadExistingAnalyses (Some (analyses st')) st' = Some st'.
Proof.
  eexists. split; [vm_compute; reflexivity|].
  match goal with
  | |- isSaved ?s = true /\ _ =>
      destruct (loadExistingAnalyses_normalizes [Samples.sqlAnalysis]
                  Samples.freshState s) as (H1 & _ & H2 & _)
  end.
  - discriminate.
  - vm_compute. reflexivity.
  - split; [exact H1 | exact H2].
Defined.



(** X12: a tool change sets the suggestion of the analysis at the index to
    the single new tool and empties its connector (an empty list when the
    old suggestion was a list, the empty string otherwise), leaves every
    other analysis as it was, and marks the batch unsaved even when the
    index is outside the list and nothing changed; a connector change at
    the same index then records the new tool as the connector. *)
Theorem handleToolChange_resets_connector
    (questionId newTool : string) (index : Z) (st : State) :
  let st' := handleToolChange questionId newTool index st in
  length (analyses st') = length (analyses st)
  /\ (forall i a, analyses st !! i = Some a ->
        exists a', analyses st' !! i = Some a'
          /\ StepThree.questionId a' = StepThree.questionId a
          /\ aiPrompt a' = aiPrompt a
          /\ (Z.of_nat i = index ->
              toolSuggestion a' = Single newTool
              /\ connectorToUse a'
                 = (if isArray (toolSuggestion a) then Multiple []
                    else Single EmptyString))
          /\ (Z.of_nat i <> index -> a' = a))
  /\ ((index < 0 \/ Z.of_nat (length (analyses st)) <= index)%Z ->
      analyses st' = analyses st)
  /\ isSaved st' = false
  /\ hasUnsavedChanges st' = true
  /\ (forall i a' name, analyses st' !! i = Some a' -> Z.of_nat i = index ->
        exists a'',
          analyses (handleConnectorChange questionId name index st') !! i = Some a''
          /\ toolSuggestion a'' = Single newTool
          /\ connectorToUse a'' = Single newTool).
Proof.
  simpl. split; [apply length_imap|]. split; [|split; [|split; [|split]]]; auto.
  - intros i a Hi. rewrite list_lookup_imap, Hi. simpl.
    destruct (Z.eqb_spec (Z.of_nat i) index) as [E|E]; eexists; split; eauto;
      simpl; repeat split; congruence.
  - intros Hout. apply list_eq. intros i. rewrite list_lookup_imap.
    destruct (analyses st !! i) as [a|] eqn:Hi; [|reflexivity]. simpl.
    apply lookup_lt_Some in Hi.
    destruct (Z.eqb_spec (Z.of_nat i) index) as [E|E]; [lia | reflexivity].
  - intros i a' name Hi E. rewrite list_lookup_imap in Hi |- *.
    rewrite list_lookup_imap.
    destruct (analyses st !! i) as [a|] eqn:Ha; [|discriminate]. simpl in *.
    apply Z.eqb_eq in E. rewrite E in *. simpl. injection Hi as <-.
    eexists. split; [reflexivity|]. simpl. auto.
Qed.

End StepThreeExtra.

(** ** The settings page *)

Module SettingsExtra.
Import Js Settings.

Lemma indexOf_lower (self : list string) (value : string) :
  (-1 <= indexOf self value)%Z.
Proof.
  induction self as [|x self IH]; simpl; [lia|].
  destruct (String.eqb x value); [lia|].
  destruct (Z.ltb_spec (indexOf self value) 0); lia.
Qed.

(** The index of a value that occurs in [pre] is inside [pre]. *)
Lemma indexOf_seen (pre l : list string) (value : string) :
  value ∈ pre -> (0 <= indexOf (pre ++ l) value < Z.of_nat (length pre))%Z.
Proof.
  induction pre as [|x pre IH]; intros Hin; [inversion Hin|]. simpl.
  destruct (String.eqb_spec x value) as [->|Hne]; [lia|].
  apply elem_of_cons in Hin as [-> | Hin]; [congruence|].
  specialize (IH Hin). destruct (Z.ltb_spec (indexOf (pre ++ l) value) 0); lia.
Qed.

(** The index of a value that does not occur in [pre] and comes next. *)
Lemma indexOf_first (pre rest : list string) (value : string) :
  value ∉ pre -> indexOf (pre ++ value :: rest) value = Z.of_nat (length pre).
Proof.
  induction pre as [|x pre IH]; intros Hnot; simpl.
  - now rewrite String.eqb_refl.
  - apply not_elem_of_cons in Hnot as [Hne Hnot].
    destruct (String.eqb_spec x value) as [->|_]; [congruence|].
    rewrite (IH Hnot). destruct (Z.ltb_spec (Z.of_nat (length pre)) 0); lia.
Qed.

Lemma keeps_first (pre rest : list string) (value : string) :
  (indexOf (pre ++ value :: rest) value =? Z.of_nat (length pre))%Z = true
  <-> value ∉ pre.
Proof.
  rewrite Z.eqb_eq. split.
  - intros H Hin. pose proof (indexOf_seen pre (value :: rest) value Hin). lia.
  - apply indexOf_first.
Qed.

(** The filter of [uniqueCiIds], started after a prefix [pre] of the list. *)
Lemma filterFrom_first (l : list string) : forall pre,
  let kept := filterFrom
                (fun value index => (indexOf (pre ++ l) value =? Z.of_nat index)%Z)
                (length pre) l in
  (forall x, x ∈ kept <-> x ∈ l /\ x ∉ pre)
  /\ NoDup kept
  /\ sublist kept l
  /\ (NoDup (pre ++ l) -> kept = l).
Proof.
  induction l as [|x l IH]; intros pre; simpl.
  - split; [|split; [constructor | split; [constructor | reflexivity]]].
    intros x. split; [intros H; inversion H | intros [H _]; inversion H].
  - specialize (IH (pre ++ [x])).
    rewrite <- app_assoc, length_app in IH. simpl in IH.
    replace (length pre + 1) with (S (length pre)) in IH by lia.
    destruct IH as (Hmem & Hnd & Hsub & Hsame).
    pose proof (keeps_first pre l x) as Hkeep.
    destruct (indexOf (pre ++ x :: l) x =? Z.of_nat (length pre))%Z eqn:E.
    + assert (Hx : x ∉ pre) by now apply Hkeep.
      split; [|split; [|split]].
      * intros y. rewrite !elem_of_cons, Hmem, not_elem_of_app, list_elem_of_singleton.
        split.
        -- intros [-> | (Hy & Hpre & Hne)]; [auto | auto].
        -- intros [[-> | Hy] Hpre]; [now left|].
           destruct (decide (y = x)) as [->|Hne]; [now left | right; auto].
      * apply NoDup_cons. split; [|exact Hnd].
        rewrite Hmem, not_elem_of_app, list_elem_of_singleton. tauto.
      * now constructor.
      * intros Hall. f_equal. apply Hsame. exact Hall.
    + assert (Hx : x ∈ pre).
      { destruct (decide (x ∈ pre)) as [H|H]; [exact H|].
        apply Hkeep in H. congruence. }
      split; [|split; [|split]].
      * intros y. rewrite Hmem, elem_of_cons, not_elem_of_app, list_elem_of_singleton.
        split.
        -- intros (Hy & Hpre & _). auto.
        -- intros [[-> | Hy] Hpre]; [contradiction|].
           repeat split; auto. intros ->. contradiction.
      * exact Hnd.
      * now constructor.
      * intros Hall. exfalso. apply NoDup_app in Hall as (_ & Hdisj & _).
        apply (Hdisj x Hx). apply list_elem_of_here.
Qed.

Lemma uniqueCiIds_nodup (apps : list Application) :
  NoDup (uniqueCiIds (Some apps)).
Proof.
  unfold uniqueCiIds.
  now destruct (filterFrom_first (map app_ciId apps) []) as (_ & Hnd & _).
Qed.

(** X13: [uniqueCiIds] lists every CI id of the applications once, at the
    place of its first occurrence: no id is listed twice, the ids listed
    are those of the applications, in their order, and a list without
    repetition is returned as it is. *)
Theorem uniqueCiIds_spec (apps : list Application) :
  NoDup (uniqueCiIds (Some apps))
  /\ (forall ciId, ciId ∈ uniqueCiIds (Some apps) <-> ciId ∈ map app_ciId apps)
  /\ sublist (uniqueCiIds (Some apps)) (map app_ciId apps)
  /\ (NoDup (map app_ciId apps) -> uniqueCiIds (Some apps) = map app_ciId apps).
Proof.
  unfold uniqueCiIds.
  destruct (filterFrom_first (map app_ciId apps) []) as (Hmem & Hnd & Hsub & Hsame).
  simpl in *. repeat split; auto.
  - intros H. now apply Hmem.
  - intros H. apply Hmem. split; [exact H|]. intros Hnil. inversion Hnil.
Qed.

Lemma includes_empty (s : string) : includes s EmptyString = true.
Proof. destruct s; reflexivity. Qed.

Lemma filter_true {A} (p : A -> bool) (l : list A) :
  (forall x, p x = true) -> List.filter p l = l.
Proof.
  intros H. induction l as [|x l IH]; [reflexivity|]. simpl.
  now rewrite H, IH.
Qed.

(** X14: the search keeps the CI ids that contain the term when both are
    lower-cased: the empty term keeps them all, the letter case of the term
    does not matter, and the result never lists an id twice. *)
Theorem filteredCiIds_spec (applications : option (list Application))
    (searchTerm : string) :
  (forall ciId,
     ciId ∈ filteredCiIds applications searchTerm
     <-> ciId ∈ uniqueCiIds applications
         /\ exists pre post,
              toLowerCase ciId = pre +:+ toLowerCase searchTerm +:+ post)
  /\ filteredCiIds applications EmptyString = uniqueCiIds applications
  /\ filteredCiIds applications (toLowerCase searchTerm)
     = filteredCiIds applications searchTerm
  /\ NoDup (filteredCiIds applications searchTerm).
Proof.
  unfold filteredCiIds. split; [|split; [|split]].
  - intros ciId. rewrite list_elem_of_In, filter_In, <- list_elem_of_In.
    now rewrite JsFacts.includes_spec.
  - apply filter_true. intros x. apply includes_empty.
  - now rewrite RoutesExtra.toLowerCase_idempotent.
  - assert (Hnd : NoDup (uniqueCiIds applications)).
    { destruct applications as [apps|]; [apply uniqueCiIds_nodup | constructor]. }
    revert Hnd. generalize (uniqueCiIds applications) as l.
    induction l as [|x l IH]; simpl; intros Hnd; [constructor|].
    apply NoDup_cons in Hnd as [Hx Hnd].
    destruct (includes _ _); [|now apply IH].
    apply NoDup_cons. split; [|now apply IH].
    intros Hin. apply Hx. apply list_elem_of_In, filter_In in Hin as [Hin _].
    now apply list_elem_of_In.
Qed.

End SettingsExtra.

(** ** Step 4: first fill, counters, re-runs and saving *)

Module StepFourExtra.
Import Js ToolIds StepFour.

Lemma initial_fold_other (connectors : list ToolConnector)
    (savedAnswers : list SavedAnswer) (l : list QuestionAnalysis) :
  forall (m : gmap string AgentExecution) key,
    key ∉ an_id <$> l ->
    fold_left (fun m a => <[an_id a := initialEntry connectors savedAnswers a]> m) l m
      !! key
    = m !! key.
Proof.
  induction l as [|a l IH]; intros m key Hkey; [reflexivity|]. simpl.
  rewrite fmap_cons in Hkey. apply not_elem_of_cons in Hkey as [Hne Hkey].
  rewrite IH by exact Hkey. now rewrite lookup_insert_ne.
Qed.

Lemma initial_fold_dom (connectors : list ToolConnector)
    (savedAnswers : list SavedAnswer) (l : list QuestionAnalysis) :
  forall (m : gmap string AgentExecution),
    dom (fold_left
           (fun m a => <[an_id a := initialEntry connectors savedAnswers a]> m) l m)
    = dom m ∪ list_to_set (an_id <$> l).
Proof.
  induction l as [|a l IH]; intros m; simpl.
  - now rewrite union_empty_r_L.
  - rewrite IH, dom_insert_L, (union_comm_L {[an_id a]}).
    now rewrite <- union_assoc_L.
Qed.

Lemma initialExecutions_lookup (connectors : list ToolConnector)
    (savedAnswers : list SavedAnswer) (analyses : list QuestionAnalysis)
    (a : QuestionAnalysis) :
  NoDup (an_id <$> analyses) ->
  a ∈ analyses ->
  initialExecutions connectors savedAnswers analyses !! an_id a
  = Some (initialEntry connectors savedAnswers a).
Proof.
  unfold initialExecutions. generalize (∅ : gmap string AgentExecution).
  induction analyses as [|a0 l IH]; intros m Hnd Ha; [inversion Ha|].
  rewrite fmap_cons in Hnd. apply NoDup_cons in Hnd as [Hfresh Hnd]. simpl.
  apply elem_of_cons in Ha as [-> | Ha]; [|now apply IH].
  rewrite initial_fold_other by exact Hfresh. apply lookup_insert_eq.
Qed.

Lemma keys_length (m : gmap string AgentExecution) :
  length (map_to_list m).*1 = size (dom m).
Proof. now rewrite length_fmap, length_map_to_list, size_dom. Qed.

Lemma keys_elem_of (m : gmap string AgentExecution) (key : string) :
  key ∈ (map_to_list m).*1 <-> key ∈ dom m.
Proof.
  rewrite elem_of_dom, list_elem_of_fmap. split.
  - intros ([k e] & -> & Hin). apply elem_of_map_to_list in Hin. simpl. eauto.
  - intros [e He]. exists (key, e). split; [reflexivity|].
    now apply elem_of_map_to_list.
Qed.

(** The updater keeps the previous record exactly when it has the keys of
    the new one. *)
Lemma keysDiffer_spec (prev initial : gmap string AgentExecution) :
  keysDiffer prev initial = false <-> dom prev = dom initial.
Proof.
  unfold keysDiffer.
  rewrite orb_false_iff, !negb_false_iff, Nat.eqb_eq, forallb_forall, !keys_length.
  assert (Hsub : (forall key, In key (map_to_list prev).*1 ->
                    existsb (String.eqb key) (map_to_list initial).*1 = true)
                 <-> dom prev ⊆ dom initial).
  { rewrite elem_of_subseteq. split.
    - intros H key Hk. apply keys_elem_of, list_elem_of_In in Hk.
      apply H, existsb_exists in Hk as (k' & Hin & Heq).
      apply String.eqb_eq in Heq. subst k'.
      now apply keys_elem_of, list_elem_of_In.
    - intros H key Hk. apply list_elem_of_In, keys_elem_of, H in Hk.
      apply existsb_exists. exists key. split; [|apply String.eqb_refl].
      now apply list_elem_of_In, keys_elem_of. }
  rewrite Hsub. split.
  - intros [Hsize Hincl]. apply set_subseteq_size_eq; [exact Hincl | lia].
  - intros ->. split; reflexivity.
Qed.

Lemma find_saved_spec (savedAnswers : list SavedAnswer) (key : string) :
  is_Some (List.find (fun answer => String.eqb (sa_questionId answer) key) savedAnswers)
  <-> exists answer, In answer savedAnswers /\ sa_questionId answer = key.
Proof.
  split.
  - intros [answer Hf]. apply find_some in Hf as [Hin Heq].
    apply String.eqb_eq in Heq. eauto.
  - intros (answer & Hin & Heq).
    destruct (List.find _ savedAnswers) as [x|] eqn:Ef; [eauto|].
    pose proof (find_none _ _ Ef answer Hin) as Hn. simpl in Hn.
    rewrite Heq, String.eqb_refl in Hn. discriminate.
Qed.

Lemma initialExecutions_dom (connectors : list ToolConnector)
    (savedAnswers : list SavedAnswer) (analyses : list QuestionAnalysis) :
  dom (initialExecutions connectors savedAnswers analyses)
  = list_to_set (an_id <$> analyses).
Proof.
  unfold initialExecutions. now rewrite initial_fold_dom, dom_empty_L, union_empty_l_L.
Qed.

Lemma initialExecutions_status (connectors : list ToolConnector)
    (savedAnswers : list SavedAnswer) (analyses : list QuestionAnalysis)
    (a : QuestionAnalysis) :
  NoDup (an_id <$> analyses) ->
  a ∈ analyses ->
  statusOf (initialExecutions connectors savedAnswers analyses) (an_id a)
  = Some (match List.find
                  (fun answer => String.eqb (sa_questionId answer) (an_id a))
                  savedAnswers with
          | Some _ => completed
          | None => if lacksConnector connectors a then no_connector else pending
          end).
Proof.
  intros Hnd Ha. unfold statusOf.
  rewrite (initialExecutions_lookup _ _ _ _ Hnd Ha).
  unfold initialEntry, lacksConnector.
  destruct (List.find _ savedAnswers); [reflexivity|]. simpl.
  now destruct (getConnectorForTool connectors (toolSuggestion a)).
Qed.

Lemma initializeExecutions_replaces (connectors : list ToolConnector)
    (savedAnswers : list SavedAnswer) (analyses : list QuestionAnalysis)
    (prev : gmap string AgentExecution) :
  analyses <> [] ->
  dom prev <> list_to_set (an_id <$> analyses) ->
  initializeExecutions connectors savedAnswers false analyses prev
  = initialExecutions connectors savedAnswers analyses.
Proof.
  intros Hne Hprev. unfold initializeExecutions.
  destruct analyses as [|a l]; [congruence|]. simpl negb. simpl length.
  replace ((0 <? S (length l))%nat && (0 <=? length connectors)%nat && true)
    with true by reflexivity.
  destruct (keysDiffer prev _) eqn:Ek; [reflexivity|].
  apply keysDiffer_spec in Ek. rewrite initialExecutions_dom in Ek. contradiction.
Qed.

Lemma head_in_ids (a : QuestionAnalysis) (l : list QuestionAnalysis) :
  an_id a ∈ (list_to_set (an_id <$> a :: l) : gset string).
Proof. apply elem_of_list_to_set. rewrite fmap_cons. apply list_elem_of_here. Qed.

(** X15: when no analysis has the id [__proto__], the first fill gives every
    analysis an execution under its id: with distinct ids, completed when
    the question has a saved answer, otherwise pending with an active
    connector of the mapped tool type and no_connector without; the effect
    replaces the record only when its keys differ from the ids of the
    analyses, so a record that already has one entry per analysis is never
    overwritten, and it does nothing without analyses or while the saved
    answers are loading. *)
Theorem initializeExecutions_spec (connectors : list ToolConnector)
    (savedAnswers : list SavedAnswer) (analyses : list QuestionAnalysis) :
  plainIds analyses ->
  let initial := initialExecutions connectors savedAnswers analyses in
  dom initial = list_to_set (an_id <$> analyses)
  /\ (NoDup (an_id <$> analyses) ->
      forall a, a ∈ analyses ->
        statusOf initial (an_id a)
        = Some (match List.find
                        (fun answer => String.eqb (sa_questionId answer) (an_id a))
                        savedAnswers with
                | Some _ => completed
                | None =>
                    if lacksConnector connectors a then no_connector else pending
                end))
  /\ (forall prev isLoading,
        dom prev = list_to_set (an_id <$> analyses) ->
        initializeExecutions connectors savedAnswers isLoading analyses prev = prev)
  /\ (forall prev,
        analyses <> [] ->
        dom prev <> list_to_set (an_id <$> analyses) ->
        initializeExecutions connectors savedAnswers false analyses prev = initial)
  /\ (forall prev,
        initializeExecutions connectors savedAnswers true analyses prev = prev)
  /\ (forall prev isLoading,
        initializeExecutions connectors savedAnswers isLoading [] prev = prev).
Proof.
  intros _.
  pose proof (initialExecutions_dom connectors savedAnswers analyses) as Hdom.
  cbv zeta. split; [exact Hdom|]. split; [|split; [|split; [|split]]].
  - intros Hnd a Ha. now apply initialExecutions_status.
  - intros prev isLoading Hprev. unfold initializeExecutions.
    destruct (_ && _ && _); [|reflexivity].
    rewrite <- Hdom in Hprev. apply keysDiffer_spec in Hprev. now rewrite Hprev.
  - intros prev Hne Hprev. now apply initializeExecutions_replaces.
  - intros prev. unfold initializeExecutions. now rewrite andb_false_r.
  - intros prev isLoading. reflexivity.
Qed.

Lemma initializeExecutions_spec_witness :
  statusOf (initialExecutions [Samples.sqlConnector] [Samples.savedAccess]
              [Samples.accessAnalysis; Samples.ticketAnalysis])
    "12"
  = Some no_connector.
Proof.
  destruct (initializeExecutions_spec [Samples.sqlConnector] [Samples.savedAccess]
              [Samples.accessAnalysis; Samples.ticketAnalysis]) as (_ & Hst & _).
  - unfold plainIds. intros Hin.
    apply elem_of_cons in Hin as [Hin | Hin]; [discriminate|].
    apply list_elem_of_singleton in Hin. discriminate.
  - apply (Hst ltac:(apply NoDup_ListNoDup; repeat constructor; simpl;
                     intuition discriminate)
             Samples.ticketAnalysis).
    apply list_elem_of_further, list_elem_of_here.
Defined.

(** X16: for analyses with distinct ids, none of them [__proto__], and at
    least one analysis: after the first fill of an empty record the gate of
    Step 4 is open exactly when every analysis has a saved answer. *)
Theorem canProceed_after_first_fill (connectors : list ToolConnector)
    (savedAnswers : list SavedAnswer) (analyses : list QuestionAnalysis) :
  plainIds analyses ->
  NoDup (an_id <$> analyses) ->
  analyses <> [] ->
  canProceed (initializeExecutions connectors savedAnswers false analyses ∅) = true
  <-> forall a, a ∈ analyses ->
        exists answer, In answer savedAnswers /\ sa_questionId answer = an_id a.
Proof.
  intros _ Hnd Hne.
  pose proof (initialExecutions_dom connectors savedAnswers analyses) as Hdom.
  pose proof (initialExecutions_status connectors savedAnswers analyses) as Hst.
  assert (Hdiff : dom (∅ : gmap string AgentExecution)
                  <> list_to_set (an_id <$> analyses)).
  { destruct analyses as [|a l]; [congruence|]. intros E.
    pose proof (head_in_ids a l) as Hin. rewrite <- E, dom_empty_L in Hin.
    now apply not_elem_of_empty in Hin. }
  rewrite (initializeExecutions_replaces _ _ _ ∅ Hne Hdiff),
    StepFourProps.canProceed_spec.
  split.
  - intros [_ Hall] a Ha. apply find_saved_spec.
    specialize (Hst a Hnd Ha). unfold statusOf in Hst.
    destruct (initialExecutions connectors savedAnswers analyses !! an_id a)
      as [e|] eqn:Ee; [|discriminate].
    rewrite (Hall _ _ Ee) in Hst.
    destruct (List.find _ savedAnswers); [eauto|].
    destruct (lacksConnector connectors a); discriminate.
  - intros Hall. split.
    + intros Hempty. destruct analyses as [|a l]; [congruence|].
      pose proof (head_in_ids a l) as Hin.
      rewrite <- Hdom, Hempty, dom_empty_L in Hin.
      now apply not_elem_of_empty in Hin.
    + intros key e Hk.
      assert (Hin : key ∈ dom (initialExecutions connectors savedAnswers analyses))
        by (apply elem_of_dom; eauto).
      rewrite Hdom in Hin. apply elem_of_list_to_set in Hin.
      apply list_elem_of_fmap in Hin as (a & -> & Ha).
      specialize (Hst a Hnd Ha). unfold statusOf in Hst. rewrite Hk in Hst.
      destruct (proj2 (find_saved_spec savedAnswers (an_id a)) (Hall a Ha))
        as [answer Hf].
      rewrite Hf in Hst. congruence.
Qed.

Lemma canProceed_after_first_fill_witness :
  canProceed (initializeExecutions [Samples.sqlConnector] [Samples.savedAccess] false
                [Samples.accessAnalysis] ∅) = true.
Proof.
  apply (canProceed_after_first_fill [Samples.sqlConnector] [Samples.savedAccess]
           [Samples.accessAnalysis]).
  - unfold plainIds. intros Hin. apply list_elem_of_singleton in Hin. discriminate.
  - apply NoDup_ListNoDup. repeat constructor. simpl. intuition.
  - discriminate.
  - intros a Ha. apply list_elem_of_singleton in Ha. subst a.
    exists Samples.savedAccess. split; [left; reflexivity | reflexivity].
Defined.

(** *** The entries and the intervals of a batch *)

Lemma tick_back (before after : list Timer) (tm : Timer) (p : Z) (x : Timer) :
  x ∈ before ++ mkTimer (tm_handle tm) (tm_key tm) p :: after ->
  exists o, o ∈ before ++ tm :: after
    /\ tm_handle o = tm_handle x /\ tm_key o = tm_key x
    /\ (x = o \/ tm_progress x = p).
Proof.
  intros Hin. apply elem_of_app in Hin as [Hin | Hin].
  - exists x. repeat split; auto. apply elem_of_app. now left.
  - apply elem_of_cons in Hin as [-> | Hin].
    + exists tm. simpl. repeat split; auto.
      apply elem_of_app. right. apply list_elem_of_here.
    + exists x. repeat split; auto.
      apply elem_of_app. right. now apply list_elem_of_further.
Qed.

Lemma tick_fmap {B} (f : Timer -> B) (before after : list Timer) (tm tm' : Timer) :
  f tm' = f tm ->
  f <$> before ++ tm' :: after = f <$> before ++ tm :: after.
Proof. intros E. now rewrite !fmap_app, !fmap_cons, E. Qed.

Lemma middle_fresh {A B} `{EqDecision B} (f : A -> B) (before after : list A) (x y : A) :
  NoDup (f <$> before ++ x :: after) ->
  (f y ∈ f <$> before ++ after <-> f y ∈ f <$> before ++ x :: after /\ f y <> f x).
Proof.
  rewrite !fmap_app, fmap_cons. intros Hnd.
  apply NoDup_app in Hnd as (_ & Hdisj & Hnd).
  apply NoDup_cons in Hnd as (Hfresh & _).
  rewrite !elem_of_app, elem_of_cons. split.
  - intros [Hin | Hin]; (split; [auto|]); intros E; rewrite E in Hin.
    + apply (Hdisj _ Hin). apply list_elem_of_here.
    + contradiction.
  - intros [[Hin | [E | Hin]] Hne]; auto. contradiction.
Qed.

Lemma fmap_filter_handle (h : nat) (l : list Timer) :
  timerPair <$> List.filter (fun tm => negb (tm_handle tm =? h)%nat) l
  = List.filter (fun p => negb (p.1 =? h)%nat) (timerPair <$> l).
Proof.
  induction l as [|x l IH]; [reflexivity|].
  rewrite fmap_cons. cbn [List.filter].
  change ((timerPair x).1) with (tm_handle x).
  destruct (tm_handle x =? h)%nat; cbn [negb]; [exact IH|].
  rewrite fmap_cons. now rewrite IH.
Qed.

Lemma filter_filter_implied {A} (p q : A -> bool) (l : list A) :
  (forall x, p x = true -> q x = true) ->
  List.filter p (List.filter q l) = List.filter p l.
Proof.
  intros H. induction l as [|x l IH]; [reflexivity|]. cbn [List.filter].
  destruct (q x) eqn:Eq; cbn [List.filter].
  - now rewrite IH.
  - destruct (p x) eqn:Ep; [|exact IH]. rewrite (H x Ep) in Eq. discriminate.
Qed.

Lemma filter_all {A} (p : A -> bool) (l : list A) :
  (forall x, x ∈ l -> p x = true) -> List.filter p l = l.
Proof.
  induction l as [|x l IH]; intros H; [reflexivity|]. cbn [List.filter].
  rewrite (H x) by apply list_elem_of_here.
  rewrite IH; [reflexivity|]. intros y Hy. apply H. now apply list_elem_of_further.
Qed.

Lemma elem_of_filter_list {A} (p : A -> bool) (l : list A) (x : A) :
  x ∈ List.filter p l <-> x ∈ l /\ p x = true.
Proof. now rewrite !list_elem_of_In, filter_In. Qed.

(** Two intervals with the same handle are the same interval. *)
Lemma pairs_same_handle (pairs : list (nat * string)) (h : nat) (k k' : string) :
  NoDup pairs.*1 -> (h, k) ∈ pairs -> (h, k') ∈ pairs -> k = k'.
Proof.
  intros Hnd Hk Hk'.
  assert (E : (h, k) = (h, k'))
    by (apply (StepFourProps.fmap_NoDup_inj fst pairs); auto).
  congruence.
Qed.

Lemma timerPair_elem_of (l : list Timer) (tm : Timer) :
  tm ∈ l -> (tm_handle tm, tm_key tm) ∈ timerPair <$> l.
Proof. intros H. now apply (list_elem_of_fmap_2 timerPair). Qed.

Lemma timerPair_key (l : list Timer) (h : nat) (k : string) :
  (h, k) ∈ timerPair <$> l -> k ∈ tm_key <$> l.
Proof.
  intros H. apply list_elem_of_fmap in H as (tm & E & Htm).
  injection E as -> ->. now apply list_elem_of_fmap_2.
Qed.

Section Reruns.
Variable applicationId : option Z.
Variable api : AgentRequest -> CallOutcome.
Variable connectors : list ToolConnector.
Variable startedAt : QuestionAnalysis -> Z.

Lemma dispatch_entry (l : list QuestionAnalysis) : forall run a,
  NoDup (an_id <$> l) -> a ∈ l ->
  executions (fold_left (startAgent connectors startedAt) l run) !! an_id a
  = Some (match getConnectorForTool connectors (toolSuggestion a) with
          | Some _ => markRunning (startedAt a) (spread (executions run) (an_id a))
          | None => markNoConnector (spread (executions run) (an_id a))
          end).
Proof.
  induction l as [|a0 l IH]; intros run a Hnd Ha; [inversion Ha|].
  rewrite fmap_cons in Hnd. apply NoDup_cons in Hnd as [Hfresh Hnd]. simpl.
  apply elem_of_cons in Ha as [-> | Ha].
  - destruct (StepFourProps.dispatch_shape connectors startedAt l
                (startAgent connectors startedAt run a0)) as (_ & _ & _ & _ & Hex).
    rewrite Hex by exact Hfresh. unfold startAgent.
    destruct (getConnectorForTool connectors (toolSuggestion a0)); simpl;
      now rewrite lookup_insert_eq.
  - rewrite (IH _ a Hnd Ha).
    assert (Hne : an_id a0 <> an_id a).
    { intros E. apply Hfresh. rewrite E. now apply list_elem_of_fmap_2. }
    assert (Hsp : spread (executions (startAgent connectors startedAt run a0)) (an_id a)
                  = spread (executions run) (an_id a)).
    { unfold spread, startAgent.
      destruct (getConnectorForTool connectors (toolSuggestion a0)); simpl;
        now rewrite lookup_insert_ne. }
    now rewrite Hsp.
Qed.

Lemma failed_connected (a : QuestionAnalysis) :
  finalStatus applicationId api connectors a = failed ->
  exists c err,
    getConnectorForTool connectors (toolSuggestion a) = Some c
    /\ executeAgentMutation applicationId api (requestOf a c) = Rejects err.
Proof.
  unfold finalStatus.
  destruct (getConnectorForTool connectors (toolSuggestion a)) as [c|]; [|discriminate].
  destruct (executeAgentMutation applicationId api (requestOf a c)) as [err|] eqn:E;
    [|discriminate].
  intros _. eauto.
Qed.

Variable analyses : list QuestionAnalysis.
Hypothesis analyses_distinct : NoDup (an_id <$> analyses).
Variable executions0 : gmap string AgentExecution.
Variable live : list Timer.
Variable nextHandle0 : nat.
Hypothesis live_intervals : liveIntervals live nextHandle0.

Lemma startAgent_started (run : Run) (a : QuestionAnalysis) :
  started live nextHandle0 run ->
  started live nextHandle0 (startAgent connectors startedAt run a).
Proof.
  intros H. unfold startAgent.
  destruct (getConnectorForTool connectors (toolSuggestion a)) as [c|]; [|exact H].
  destruct H as (Hnd & Hlt & Hle & Htask & Hfresh & Hp & Hstale).
  unfold started. cbn [timers inflight nextHandle].
  rewrite fmap_app.
  change (timerPair <$> [mkTimer (nextHandle run) (an_id a) 0%Z])
    with [(nextHandle run, an_id a)].
  split; [|split; [|split; [|split; [|split; [|split]]]]].
  - rewrite fmap_app. apply NoDup_app. split; [exact Hnd|].
    split; [|apply NoDup_singleton].
    intros h Hh Hh'. apply list_elem_of_singleton in Hh'. simpl in Hh'. subst h.
    apply list_elem_of_fmap in Hh as (p & E & Hin). apply Hlt in Hin. lia.
  - intros p Hin. apply elem_of_app in Hin as [Hin | Hin].
    + apply Hlt in Hin. lia.
    + apply list_elem_of_singleton in Hin. subst p. simpl. lia.
  - lia.
  - intros t Hin. apply elem_of_app in Hin as [Hin | Hin].
    + destruct (Htask t Hin) as [Hpair Hh]. split; [|exact Hh].
      apply elem_of_app. now left.
    + apply list_elem_of_singleton in Hin. subst t. split; [|exact Hle].
      apply elem_of_app. right. apply list_elem_of_here.
  - intros h k Hin Hh. apply elem_of_app in Hin as [Hin | Hin].
    + destruct (Hfresh h k Hin Hh) as (t & Ht & E1 & E2). exists t.
      split; [apply elem_of_app; now left | auto].
    + apply list_elem_of_singleton in Hin. injection Hin as -> ->. eexists.
      split; [apply elem_of_app; right; apply list_elem_of_here|].
      split; reflexivity.
  - intros tm Hin. apply elem_of_app in Hin as [Hin | Hin]; [auto|].
    apply list_elem_of_singleton in Hin. subst tm. simpl. lia.
  - rewrite List.filter_app, Hstale. cbn [List.filter fst].
    destruct (Nat.ltb_spec (nextHandle run) nextHandle0); [lia|].
    apply app_nil_r.
Qed.

Lemma dispatch_started (l : list QuestionAnalysis) : forall run,
  started live nextHandle0 run ->
  started live nextHandle0 (fold_left (startAgent connectors startedAt) l run).
Proof.
  induction l as [|a l IH]; intros run H; simpl; [exact H|].
  apply IH, startAgent_started, H.
Qed.

Lemma started_initial :
  started live nextHandle0 (mkRun executions0 [] live [] nextHandle0).
Proof.
  destruct live_intervals as (Hnd & Hlt & Hp).
  unfold started. cbn [timers inflight nextHandle].
  assert (Hlt' : forall p, p ∈ timerPair <$> live -> p.1 < nextHandle0).
  { intros p Hin. apply list_elem_of_fmap in Hin as (tm & -> & Htm).
    simpl. now apply Hlt. }
  split; [|split; [|split; [|split; [|split; [|split]]]]].
  - now rewrite <- list_fmap_compose.
  - exact Hlt'.
  - lia.
  - intros t Hin. inversion Hin.
  - intros h k Hin Hh. apply Hlt' in Hin. simpl in Hin. lia.
  - exact Hp.
  - apply filter_all. intros p Hin. apply Nat.ltb_lt. now apply Hlt'.
Qed.

Lemma same_analysis (a a' : QuestionAnalysis) :
  a ∈ analyses -> a' ∈ analyses -> an_id a = an_id a' -> a = a'.
Proof. intros Ha Ha' E. eapply StepFourProps.fmap_NoDup_inj; eauto. Qed.

Lemma inflight_connected (run : Run) (a : QuestionAnalysis) :
  tracked applicationId api connectors startedAt analyses executions0 live
    nextHandle0 run ->
  a ∈ analyses ->
  an_id a ∈ taskKey <$> inflight run ->
  exists c, getConnectorForTool connectors (toolSuggestion a) = Some c.
Proof.
  intros (_ & Htask & _) Ha Hin.
  apply list_elem_of_fmap in Hin as (t & E & Ht).
  destruct (Htask t Ht) as (Hta & Hc & _).
  assert (a = t_analysis t) by (apply same_analysis; auto). subst a. eauto.
Qed.

Lemma dispatch_tracked :
  tracked applicationId api connectors startedAt analyses executions0 live
    nextHandle0
    (dispatchFrom connectors startedAt executions0 live nextHandle0 analyses).
Proof.
  unfold dispatchFrom.
  destruct (StepFourProps.dispatch_shape connectors startedAt analyses
              (mkRun executions0 [] live [] nextHandle0)) as (Hk & _ & Ht & _ & _).
  simpl in Hk, Ht.
  destruct (dispatch_started analyses _ started_initial)
    as (Hnd & _ & _ & Htask & Hfresh & Hp & Hstale).
  assert (Hndk : NoDup (taskKey <$> inflight
                          (fold_left (startAgent connectors startedAt) analyses
                             (mkRun executions0 [] live [] nextHandle0)))).
  { rewrite Hk. now apply StepFourProps.NoDup_fmap_filter. }
  unfold tracked. cbv zeta.
  split; [|split; [|split; [|split; [|split; [|split; [|split; [|split]]]]]]].
  - intros a Ha. rewrite (dispatch_entry analyses _ a analyses_distinct Ha).
    unfold entryAfter. simpl executions.
    destruct (getConnectorForTool connectors (toolSuggestion a)) as [c|] eqn:Ec.
    + rewrite bool_decide_eq_true_2.
      * exists 0%Z. split; [lia | reflexivity].
      * rewrite Hk. apply StepFourProps.elem_of_fmap_filter. exists a.
        repeat split; auto. unfold hasConnector, lacksConnector. now rewrite Ec.
    + eexists. split; [reflexivity|]. now left.
  - intros t Hin. destruct (Htask t Hin) as [Hpair Hh].
    destruct (Ht t Hin) as [Hin' | [Hta Hc]]; [inversion Hin'|].
    repeat split; auto.
  - exact Hndk.
  - exact Hnd.
  - intros h h' k Hin Hin' Hh Hh'.
    destruct (Hfresh h k Hin Hh) as (t & Ht1 & <- & Ek).
    destruct (Hfresh h' k Hin' Hh') as (t' & Ht1' & <- & Ek').
    assert (t = t')
      by (apply (StepFourProps.fmap_NoDup_inj taskKey _ t t' Hndk); congruence).
    now subst t'.
  - exact Hp.
  - intros h k Hin Hh. destruct (Hfresh h k Hin Hh) as (t & Ht1 & _ & <-).
    destruct (Ht t Ht1) as [Hin' | [Hta _]]; [inversion Hin'|].
    exists (t_analysis t). split; [exact Hta|]. split; [reflexivity|]. left.
    now apply (list_elem_of_fmap_2 taskKey).
  - intros a Ha Hout Hf. exfalso. apply Hout.
    destruct (failed_connected a Hf) as (c & err & Ec & _).
    rewrite Hk. apply StepFourProps.elem_of_fmap_filter. exists a.
    repeat split; auto. unfold hasConnector, lacksConnector. now rewrite Ec.
  - exact Hstale.
Qed.

Lemma tick_tracked (run : Run) (before after : list Timer) (tm : Timer) :
  tracked applicationId api connectors startedAt analyses executions0 live
    nextHandle0 run ->
  timers run = before ++ tm :: after ->
  tracked applicationId api connectors startedAt analyses executions0 live
    nextHandle0 (tick run before tm after).
Proof.
  intros Ht Htm.
  pose proof Ht as (He & Htask & Hndk & Hnd & Hone & Hp & Hown & Hfail & Hstale).
  cbv zeta in *.
  assert (Hin_tm : tm ∈ timers run).
  { rewrite Htm. apply elem_of_app. right. apply list_elem_of_here. }
  assert (Hpairs : timerPair
                     <$> before
                         ++ mkTimer (tm_handle tm) (tm_key tm)
                              (Z.min (tm_progress tm + 15) 85) :: after
                   = timerPair <$> timers run).
  { rewrite Htm. now apply tick_fmap. }
  pose proof (Hp tm Hin_tm) as Hb.
  unfold tracked, tick. cbn [executions inflight timers]. cbv zeta.
  rewrite Hpairs.
  split; [|split; [|split; [|split; [|split; [|split; [|split; [|split]]]]]]];
    auto.
  - intros a Ha. specialize (He a Ha).
    destruct (decide (tm_key tm = an_id a)) as [Ek | Ek];
      [|now rewrite lookup_insert_ne].
    rewrite Ek, lookup_insert_eq.
    assert (Hwho : an_id a ∈ tm_key <$> live
                   \/ an_id a ∈ taskKey <$> inflight run
                   \/ finalStatus applicationId api connectors a = failed).
    { pose proof (timerPair_elem_of _ _ Hin_tm) as Hpair.
      destruct (Nat.ltb_spec (tm_handle tm) nextHandle0) as [Hlt | Hge].
      - left. rewrite <- Ek. apply (timerPair_key live (tm_handle tm)).
        rewrite <- Hstale. apply elem_of_filter_list. split; [exact Hpair|].
        now apply Nat.ltb_lt.
      - right. destruct (Hown _ _ Hpair Hge) as (a' & Ha' & Eid & Hor).
        assert (a' = a) by (apply same_analysis; congruence). subst a'.
        rewrite <- Ek. exact Hor. }
    assert (Hsp : forall x, executions run !! an_id a = Some x ->
                    spread (executions run) (an_id a) = x).
    { intros x Hx. unfold spread. now rewrite Hx. }
    unfold entryAfter in *.
    destruct (getConnectorForTool connectors (toolSuggestion a)) as [c|] eqn:Ec.
    + revert He.
      destruct (bool_decide (an_id a ∈ taskKey <$> inflight run)) eqn:Eb.
      * intros (q & _ & Hl). rewrite (Hsp _ Hl).
        eexists. split; [|reflexivity]. lia.
      * apply bool_decide_eq_false in Eb.
        destruct (executeAgentMutation applicationId api (requestOf a c))
          as [err | response] eqn:Eout.
        -- intros (now & q & _ & Hl). rewrite (Hsp _ Hl). exists now. eexists.
           split; [|reflexivity]. lia.
        -- intros (now & stamp & rnd & p & Hv & Hl & _). rewrite (Hsp _ Hl).
           exists now, stamp, rnd. eexists. split; [exact Hv|].
           split; [reflexivity|]. right.
           destruct Hwho as [Hs | [Hi | Hf]].
           ++ split; [exact Hs|]. eexists. split; [|reflexivity]. lia.
           ++ contradiction.
           ++ exfalso. unfold finalStatus in Hf. rewrite Ec, Eout in Hf.
              discriminate.
    + destruct He as (p & Hl & _). rewrite (Hsp _ Hl).
      eexists. split; [reflexivity|]. right.
      destruct Hwho as [Hs | [Hi | Hf]].
      * split; [exact Hs|]. eexists. split; [|reflexivity]. lia.
      * destruct (inflight_connected run a Ht Ha Hi) as [c Ec']. congruence.
      * destruct (failed_connected a Hf) as (c & err & Ec' & _). congruence.
  - intros x Hx. apply (tick_back before after tm) in Hx as (o & Ho & _ & _ & [-> | ->]).
    + apply Hp. now rewrite Htm.
    + lia.
Qed.

Lemma settle_tracked (run : Run) (before after : list Task) (task : Task)
    (now stamp : Z) (rnd : Draw) :
  tracked applicationId api connectors startedAt analyses executions0 live
    nextHandle0 run ->
  inflight run = before ++ task :: after ->
  validDraw rnd ->
  tracked applicationId api connectors startedAt analyses executions0 live
    nextHandle0 (settle applicationId api run before task after now stamp rnd).
Proof.
  intros Ht Hin Hv.
  pose proof Ht as (He & Htask & HndK & Hnd & Hone & Hp & Hown & Hfail & Hstale).
  cbv zeta in *.
  assert (Hin_task : task ∈ inflight run).
  { rewrite Hin. apply elem_of_app. right. apply list_elem_of_here. }
  destruct (Htask task Hin_task) as (Hta & Hconn & Hpair & Hfresh).
  pose proof (StepFourProps.finalStatus_of_task applicationId api connectors
                _ _ Hconn) as Hfinal.
  rewrite Hin in HndK.
  assert (Hkeys : forall a,
             an_id a ∈ taskKey <$> before ++ after
             <-> an_id a ∈ taskKey <$> inflight run /\ an_id a <> taskKey task).
  { intros a. rewrite Hin.
    exact (middle_fresh taskKey before after task
             (mkTask 0 a (t_connector task)) HndK). }
  assert (Hkeys' : forall k,
             k ∈ taskKey <$> inflight run -> k <> taskKey task ->
             k ∈ taskKey <$> before ++ after).
  { intros k Hk Hne. apply list_elem_of_fmap in Hk as (t & -> & Htin).
    apply (middle_fresh taskKey before after task t HndK). split; [|exact Hne].
    rewrite <- Hin. now apply list_elem_of_fmap_2. }
  assert (Hsub : forall t, t ∈ before ++ after ->
                   t ∈ inflight run /\ taskKey t <> taskKey task).
  { intros t Hti.
    assert (Hk' : taskKey t ∈ taskKey <$> before ++ after)
      by now apply list_elem_of_fmap_2.
    apply (middle_fresh taskKey before after task t HndK) in Hk' as [_ Hne].
    split; [|exact Hne]. rewrite Hin.
    apply elem_of_app in Hti as [Hti | Hti]; apply elem_of_app;
      [now left | right; now apply list_elem_of_further]. }
  assert (Hentries : forall e',
             (forall a, a ∈ analyses -> an_id a = taskKey task ->
                entryAfter applicationId api connectors startedAt executions0 live a
                  false (Some e')) ->
             forall a, a ∈ analyses ->
               entryAfter applicationId api connectors startedAt executions0 live a
                 (bool_decide (an_id a ∈ taskKey <$> before ++ after))
                 (<[taskKey task := e']> (executions run) !! an_id a)).
  { intros e' Hown' a Ha.
    destruct (decide (taskKey task = an_id a)) as [Ek | Ek].
    - rewrite Ek, lookup_insert_eq, bool_decide_eq_false_2.
      + now apply Hown'.
      + intros Hi. apply Hkeys in Hi as [_ Hne]. congruence.
    - rewrite lookup_insert_ne by exact Ek.
      replace (bool_decide (an_id a ∈ taskKey <$> before ++ after))
        with (bool_decide (an_id a ∈ taskKey <$> inflight run)); [now apply He|].
      apply bool_decide_ext. rewrite Hkeys. intuition congruence. }
  assert (Hold : exists q, (0 <= q <= 85)%Z
                   /\ executions run !! taskKey task
                      = Some (markProgress q
                                (markRunning (startedAt (t_analysis task))
                                   (spread executions0 (taskKey task))))).
  { specialize (He _ Hta). unfold entryAfter in He. rewrite Hconn in He.
    rewrite bool_decide_eq_true_2 in He; [exact He|].
    now apply (list_elem_of_fmap_2 taskKey). }
  destruct Hold as (q & Hqb & Hl).
  assert (Htasks : forall pairs' : list (nat * string),
             (forall t, t ∈ inflight run -> taskKey t <> taskKey task ->
                (t_handle t, taskKey t) ∈ pairs') ->
             forall t, t ∈ before ++ after ->
               t_analysis t ∈ analyses
               /\ getConnectorForTool connectors (toolSuggestion (t_analysis t))
                  = Some (t_connector t)
               /\ (t_handle t, taskKey t) ∈ pairs'
               /\ nextHandle0 <= t_handle t).
  { intros pairs' Hkeep t Hti. apply Hsub in Hti as [Hti Hne].
    destruct (Htask t Hti) as (H1 & H2 & _ & H4). repeat split; auto. }
  assert (HndK' : NoDup (taskKey <$> before ++ after)).
  { rewrite fmap_app, fmap_cons in HndK. rewrite fmap_app.
    apply NoDup_app in HndK as (Hnd1 & Hdisj & Hnd2).
    apply NoDup_cons in Hnd2 as (_ & Hnd2).
    apply NoDup_app. split; [exact Hnd1|]. split; [|exact Hnd2].
    intros k Hk Hk'. apply (Hdisj _ Hk). now apply list_elem_of_further. }
  unfold settle, tracked.
  destruct (executeAgentMutation applicationId api
              (requestOf (t_analysis task) (t_connector task)))
    as [err | response] eqn:Eout;
    cbn [executions inflight timers]; cbv zeta;
    (split; [|split; [|split; [|split; [|split; [|split; [|split; [|split]]]]]]]).
  - apply Hentries. intros a Ha Ek.
    assert (a = t_analysis task) by (apply same_analysis; auto). subst a.
    unfold entryAfter. rewrite Hconn, Eout. exists now, q.
    split; [exact Hqb|]. unfold spread. fold (taskKey task). rewrite Hl. reflexivity.
  - apply Htasks. intros t Hti _. now apply Htask.
  - exact HndK'.
  - exact Hnd.
  - exact Hone.
  - exact Hp.
  - intros h k Hhk Hh. destruct (Hown h k Hhk Hh) as (a & Ha & Eid & Hor).
    exists a. split; [exact Ha|]. split; [exact Eid|].
    destruct Hor as [Hi | Hf]; [|now right].
    destruct (decide (k = taskKey task)) as [Ek | Ek].
    + right. assert (a = t_analysis task)
        by (apply same_analysis; auto; unfold taskKey in Ek; congruence).
      subst a. now rewrite Hfinal.
    + left. now apply Hkeys'.
  - intros a Ha Hout Hf.
    destruct (decide (an_id a = taskKey task)) as [Ek | Ek].
    + exists (t_handle task). split; [exact Hfresh|]. now rewrite Ek.
    + apply Hfail; [exact Ha | | exact Hf].
      intros Hi. apply Hout, Hkeys. auto.
  - exact Hstale.
  - apply Hentries. intros a Ha Ek.
    assert (a = t_analysis task) by (apply same_analysis; auto). subst a.
    unfold entryAfter. rewrite Hconn, Eout. exists now, stamp, rnd. eexists.
    split; [exact Hv|]. unfold spread. fold (taskKey task). rewrite Hl.
    split; [reflexivity|]. now left.
  - rewrite fmap_filter_handle. apply Htasks. intros t Hti Hne.
    destruct (Htask t Hti) as (_ & _ & Hpt & _).
    apply elem_of_filter_list. split; [exact Hpt|]. cbn [fst].
    apply negb_true_iff, Nat.eqb_neq. intros E. apply Hne.
    rewrite E in Hpt. exact (pairs_same_handle _ _ _ _ Hnd Hpt Hpair).
  - exact HndK'.
  - rewrite fmap_filter_handle. now apply StepFourProps.NoDup_fmap_filter.
  - rewrite fmap_filter_handle. intros h h' k Hhk Hhk'.
    apply elem_of_filter_list in Hhk as [Hhk _].
    apply elem_of_filter_list in Hhk' as [Hhk' _]. now apply (Hone h h' k).
  - intros x Hx. apply elem_of_filter_list in Hx as [Hx _]. now apply Hp.
  - rewrite fmap_filter_handle. intros h k Hhk Hh.
    apply elem_of_filter_list in Hhk as [Hhk Hne]. cbn [fst] in Hne.
    apply negb_true_iff, Nat.eqb_neq in Hne.
    destruct (Hown h k Hhk Hh) as (a & Ha & Eid & Hor).
    exists a. split; [exact Ha|]. split; [exact Eid|].
    destruct Hor as [Hi | Hf]; [|now right].
    left. apply Hkeys'; [exact Hi|]. intros E. apply Hne.
    rewrite E in Hhk. exact (Hone _ _ _ Hhk Hpair Hh Hfresh).
  - rewrite fmap_filter_handle. intros a Ha Hout Hf.
    assert (Ek : an_id a <> taskKey task).
    { intros Ek. assert (a = t_analysis task) by (apply same_analysis; auto).
      subst a. rewrite Hfinal in Hf. discriminate. }
    destruct (Hfail a Ha) as (h & Hh & Hhk); [|exact Hf|].
    { intros Hi. apply Hout, Hkeys. auto. }
    exists h. split; [exact Hh|]. apply elem_of_filter_list.
    split; [exact Hhk|]. cbn [fst]. apply negb_true_iff, Nat.eqb_neq.
    intros E. apply Ek. rewrite E in Hhk.
    exact (pairs_same_handle _ _ _ _ Hnd Hhk Hpair).
  - rewrite fmap_filter_handle, filter_filter_implied; [exact Hstale|].
    intros p Hp'. apply Nat.ltb_lt in Hp'.
    apply negb_true_iff, Nat.eqb_neq. lia.
Qed.

Lemma steps_tracked (run run' : Run) :
  steps applicationId api run run' ->
  tracked applicationId api connectors startedAt analyses executions0 live
    nextHandle0 run ->
  tracked applicationId api connectors startedAt analyses executions0 live
    nextHandle0 run'.
Proof.
  induction 1 as [run | run1 run2 run3 Hstep Hsteps IH]; intros Ht; [exact Ht|].
  apply IH.
  destruct Hstep as [run before tm after Htm | run before task after now stamp rnd Hin Hv].
  - now apply tick_tracked.
  - now apply settle_tracked.
Qed.

(** The entries and the intervals in which every finished run of the
    batch ends. *)
Lemma batch_tracked (final : Run) :
  executeAllAgentsFrom applicationId api connectors startedAt analyses
    executions0 live nextHandle0 final ->
  tracked applicationId api connectors startedAt analyses executions0 live
    nextHandle0 final
  /\ inflight final = [].
Proof.
  intros [Hsteps Hfin]. split; [|exact Hfin].
  apply (steps_tracked _ _ Hsteps), dispatch_tracked.
Qed.

(** A step writes the entry of a question of the batch or of a question
    that has an interval. *)
Lemma step_untouched (run run' : Run) (key : string) :
  tracked applicationId api connectors startedAt analyses executions0 live
    nextHandle0 run ->
  step applicationId api run run' ->
  key ∉ an_id <$> analyses ->
  key ∉ tm_key <$> live ->
  executions run' !! key = executions run !! key.
Proof.
  intros (_ & Htask & _ & _ & _ & _ & Hown & _ & Hstale) Hstep Hkey Hlive.
  cbv zeta in *.
  destruct Hstep as [run before tm after Htm | run before task after now stamp rnd Hin Hv].
  - unfold tick. cbn [executions]. apply lookup_insert_ne. intros E.
    assert (Hpair : (tm_handle tm, tm_key tm) ∈ timerPair <$> timers run).
    { apply timerPair_elem_of. rewrite Htm. apply elem_of_app. right.
      apply list_elem_of_here. }
    destruct (Nat.ltb_spec (tm_handle tm) nextHandle0) as [Hlt | Hge].
    + apply Hlive. rewrite <- E. apply (timerPair_key live (tm_handle tm)).
      rewrite <- Hstale. apply elem_of_filter_list. split; [exact Hpair|].
      now apply Nat.ltb_lt.
    + destruct (Hown _ _ Hpair Hge) as (a & Ha & Eid & _).
      apply Hkey. rewrite <- E, <- Eid. now apply list_elem_of_fmap_2.
  - assert (Hne : an_id (t_analysis task) <> key).
    { intros E. apply Hkey. rewrite <- E. apply list_elem_of_fmap_2.
      apply Htask. rewrite Hin. apply elem_of_app. right. apply list_elem_of_here. }
    unfold settle. destruct (executeAgentMutation _ _ _); cbn [executions];
      now apply lookup_insert_ne.
Qed.

Lemma steps_untouched (run run' : Run) (key : string) :
  steps applicationId api run run' ->
  tracked applicationId api connectors startedAt analyses executions0 live
    nextHandle0 run ->
  key ∉ an_id <$> analyses ->
  key ∉ tm_key <$> live ->
  executions run' !! key = executions run !! key.
Proof.
  induction 1 as [run | run1 run2 run3 Hstep Hsteps IH]; intros Ht Hkey Hlive;
    [reflexivity|].
  rewrite IH; [now apply (step_untouched run1 run2) | | exact Hkey | exact Hlive].
  apply (steps_tracked run1 run2); [|exact Ht].
  eapply steps_step; [exact Hstep | apply steps_refl].
Qed.

(** X17: the record in which a batch over analyses with distinct ids ends,
    entry by entry, also when it is run again while intervals of earlier
    batches are live.  A question without connector has its previous entry
    with status no_connector and the fixed error; a question whose call
    resolved has the normalized result, the start time, an end time and
    progress 100; a question whose call was rejected has the error of the
    rejection, both times and the progress last written by an interval,
    between 0 and 85.  The fields a batch does not write keep their
    previous value (a stale error after a successful re-run, a stale
    result after a failed one).  Only where an interval of an earlier
    batch belongs to the question may the progress of a completed or
    connector-less entry be one that this interval wrote instead, and
    entries under keys that are neither of the batch nor of such an
    interval are not touched. *)
Theorem executeAllAgents_entries (final : Run) :
  executeAllAgentsFrom applicationId api connectors startedAt analyses
    executions0 live nextHandle0 final ->
  (forall a, a ∈ analyses ->
     let e0 := spread executions0 (an_id a) in
     let stale := an_id a ∈ tm_key <$> live in
     match getConnectorForTool connectors (toolSuggestion a) with
     | None =>
         exists p,
           executions final !! an_id a
           = Some (mkExecution (ex_questionId e0) (Some no_connector)
                     (ex_result e0)
                     (Some "No connector configured for this tool type") p
                     (ex_startTime e0) (ex_endTime e0))
           /\ (p = ex_progress e0
               \/ (stale /\ exists q, (0 <= q <= 85)%Z /\ p = Some q))
     | Some c =>
         match executeAgentMutation applicationId api (requestOf a c) with
         | Resolves response =>
             exists now stamp rnd p, validDraw rnd
               /\ executions final !! an_id a
                  = Some (mkExecution (ex_questionId e0) (Some completed)
                            (Some (completedResult a c response stamp rnd))
                            (ex_error e0) p (Some (startedAt a)) (Some now))
               /\ (p = Some 100%Z
                   \/ (stale /\ exists q, (0 <= q <= 85)%Z /\ p = Some q))
         | Rejects err =>
             exists now q, (0 <= q <= 85)%Z
               /\ executions final !! an_id a
                  = Some (mkExecution (ex_questionId e0) (Some failed)
                            (ex_result e0) (Some (errorMessage err)) (Some q)
                            (Some (startedAt a)) (Some now))
         end
     end)
  /\ (forall key, key ∉ an_id <$> analyses -> key ∉ tm_key <$> live ->
        executions final !! key = executions0 !! key).
Proof.
  intros Hrun.
  destruct (batch_tracked final Hrun) as [(He & _) Hfin]. split.
  - intros a Ha. specialize (He a Ha). unfold entryAfter in He.
    rewrite Hfin in He. simpl in He. exact He.
  - intros key Hkey Hlive. destruct Hrun as [Hsteps _].
    rewrite (steps_untouched _ _ key Hsteps dispatch_tracked Hkey Hlive).
    unfold dispatchFrom.
    destruct (StepFourProps.dispatch_shape connectors startedAt analyses
                (mkRun executions0 [] live [] nextHandle0)) as (_ & _ & _ & _ & Hex).
    now rewrite Hex.
Qed.

Lemma finished_step (run run' : Run) :
  inflight run = [] ->
  step applicationId api run run' ->
  exists before tm after,
    timers run = before ++ tm :: after /\ run' = tick run before tm after.
Proof.
  intros Hfin Hstep.
  destruct Hstep as [run before tm after Htm | run before task after now stamp rnd Hin Hv].
  - eauto.
  - rewrite Hfin in Hin. now apply app_cons_not_nil in Hin.
Qed.

(** Once a batch has finished only intervals fire: they write under their
    own keys and none is cleared. *)
Lemma steps_after_finish (run later : Run) :
  steps applicationId api run later ->
  inflight run = [] ->
  inflight later = []
  /\ timerPair <$> timers later = timerPair <$> timers run
  /\ forall key, key ∉ tm_key <$> timers run ->
       executions later !! key = executions run !! key.
Proof.
  induction 1 as [run | run1 run2 run3 Hstep Hsteps IH]; intros Hfin; [auto|].
  destruct (finished_step _ _ Hfin Hstep) as (before & tm & after & Htm & ->).
  assert (Hpairs : timerPair <$> timers (tick run1 before tm after)
                   = timerPair <$> timers run1).
  { unfold tick. cbn [timers]. rewrite Htm. now apply tick_fmap. }
  destruct IH as (IH1 & IH2 & IH3); [exact Hfin|].
  split; [exact IH1|]. split; [now rewrite IH2|].
  intros key Hkey. rewrite IH3.
  - unfold tick. cbn [executions]. apply lookup_insert_ne. intros E.
    apply Hkey. rewrite <- E, Htm. apply list_elem_of_fmap_2.
    apply elem_of_app. right. apply list_elem_of_here.
  - intros Hin. apply Hkey.
    apply list_elem_of_fmap in Hin as (x & -> & Hx).
    apply (timerPair_key _ (tm_handle x)). rewrite <- Hpairs.
    now apply timerPair_elem_of.
Qed.

Lemma fresh_keys_nodup (pairs : list (nat * string)) :
  NoDup pairs.*1 ->
  (forall h h' k, (h, k) ∈ pairs -> (h', k) ∈ pairs ->
     nextHandle0 <= h -> nextHandle0 <= h' -> h = h') ->
  NoDup (List.filter (fun p => negb (p.1 <? nextHandle0)%nat) pairs).*2.
Proof.
  intros Hnd Hone.
  apply NoDup_fmap_2_strong.
  - intros [h k] [h' k'] Hin Hin' E. simpl in E. subst k'.
    apply elem_of_filter_list in Hin as [Hin Hh].
    apply elem_of_filter_list in Hin' as [Hin' Hh'].
    cbn [fst] in Hh, Hh'.
    apply negb_true_iff, Nat.ltb_ge in Hh. apply negb_true_iff, Nat.ltb_ge in Hh'.
    f_equal. now apply (Hone h h' k).
  - apply (NoDup_fmap_1 fst). now apply StepFourProps.NoDup_fmap_filter.
Qed.

(** X18: a call that resolves clears its progress interval, a call that is
    rejected leaves it running, and nothing else clears an interval.  When
    a batch over analyses with distinct ids has finished, the intervals it
    found live are all still live, the intervals it started and left are
    those of the questions that failed in it, one each, so the number of
    live intervals has grown by the number of failed questions; afterwards
    no interval is ever cleared, and an interval that fires writes the
    entry of its own question only. *)
Theorem executeAllAgents_intervals (final : Run) :
  executeAllAgentsFrom applicationId api connectors startedAt analyses
    executions0 live nextHandle0 final ->
  let pairs := timerPair <$> timers final in
  List.filter (fun p => (p.1 <? nextHandle0)%nat) pairs = timerPair <$> live
  /\ NoDup pairs.*1
  /\ (forall h k, (h, k) ∈ pairs -> nextHandle0 <= h ->
        exists a, a ∈ analyses /\ an_id a = k
          /\ finalStatus applicationId api connectors a = failed)
  /\ (forall a, a ∈ analyses ->
        finalStatus applicationId api connectors a = failed ->
        exists h, nextHandle0 <= h /\ (h, an_id a) ∈ pairs
          /\ forall h', nextHandle0 <= h' -> (h', an_id a) ∈ pairs -> h' = h)
  /\ length (timers final)
     = length live
       + length (List.filter
                   (fun a => bool_decide
                               (finalStatus applicationId api connectors a = failed))
                   analyses)
  /\ (forall later, steps applicationId api final later ->
        timerPair <$> timers later = pairs
        /\ forall key, key ∉ tm_key <$> timers final ->
             executions later !! key = executions final !! key).
Proof.
  intros Hrun pairs.
  destruct (batch_tracked final Hrun)
    as [(_ & _ & _ & Hnd & Hone & _ & Hown & Hfail & Hstale) Hfin].
  cbv zeta in *. fold pairs in Hnd, Hone, Hown, Hfail, Hstale.
  assert (Hfrom : forall h k, (h, k) ∈ pairs -> nextHandle0 <= h ->
            exists a, a ∈ analyses /\ an_id a = k
              /\ finalStatus applicationId api connectors a = failed).
  { intros h k Hhk Hh. destruct (Hown h k Hhk Hh) as (a & Ha & Eid & Hor).
    exists a. split; [exact Ha|]. split; [exact Eid|].
    destruct Hor as [Hin | Hf]; [|exact Hf].
    rewrite Hfin in Hin. inversion Hin. }
  assert (Hto : forall a, a ∈ analyses ->
            finalStatus applicationId api connectors a = failed ->
            exists h, nextHandle0 <= h /\ (h, an_id a) ∈ pairs).
  { intros a Ha Hf. apply Hfail; auto. rewrite Hfin. intros Hin. inversion Hin. }
  split; [exact Hstale|]. split; [exact Hnd|]. split; [exact Hfrom|].
  split; [|split].
  - intros a Ha Hf. destruct (Hto a Ha Hf) as (h & Hh & Hhk).
    exists h. split; [exact Hh|]. split; [exact Hhk|].
    intros h' Hh' Hhk'. now apply (Hone h' h (an_id a)).
  - rewrite <- (length_fmap timerPair (timers final)). fold pairs.
    rewrite <- (List.filter_length (fun p => (p.1 <? nextHandle0)%nat) pairs).
    rewrite Hstale, length_fmap. f_equal.
    rewrite <- (length_fmap snd
                  (List.filter (fun p => negb (p.1 <? nextHandle0)%nat) pairs)).
    rewrite <- (length_fmap an_id
                  (List.filter
                     (fun a => bool_decide
                                 (finalStatus applicationId api connectors a = failed))
                     analyses)).
    apply Permutation_length, NoDup_Permutation.
    + now apply fresh_keys_nodup.
    + now apply StepFourProps.NoDup_fmap_filter.
    + intros k. rewrite !StepFourProps.elem_of_fmap_filter. split.
      * intros ([h k'] & -> & Hin & Hh). cbn [fst snd] in *.
        apply negb_true_iff, Nat.ltb_ge in Hh.
        destruct (Hfrom h k' Hin Hh) as (a & Ha & Eid & Hf).
        exists a. split; [now symmetry|]. split; [exact Ha|].
        now apply bool_decide_eq_true.
      * intros (a & -> & Ha & Hf). apply bool_decide_eq_true in Hf.
        destruct (Hto a Ha Hf) as (h & Hh & Hhk).
        exists (h, an_id a). split; [reflexivity|]. split; [exact Hhk|].
        cbn [fst]. apply negb_true_iff, Nat.ltb_ge. exact Hh.
  - intros later Hsteps.
    destruct (steps_after_finish final later Hsteps Hfin) as (_ & H2 & H3).
    split; [exact H2 | exact H3].
Qed.

End Reruns.

Lemma no_live_interval (nextHandle0 : nat) : liveIntervals [] nextHandle0.
Proof.
  split; [apply NoDup_nil_2|]. split; intros tm Hin; inversion Hin.
Qed.

Section Entries.
Variable applicationId : option Z.
Variable api : AgentRequest -> CallOutcome.
Variable connectors : list ToolConnector.
Variable startedAt : QuestionAnalysis -> Z.
Variable analyses : list QuestionAnalysis.
Hypothesis analyses_distinct : NoDup (an_id <$> analyses).
Variable executions0 : gmap string AgentExecution.

(** The entries in which a batch without live interval ends. *)
Lemma first_batch_entry (final : Run) (a : QuestionAnalysis) :
  executeAllAgents applicationId api connectors startedAt analyses executions0 final ->
  a ∈ analyses ->
  entryAfter applicationId api connectors startedAt executions0 [] a false
    (executions final !! an_id a).
Proof.
  intros Hrun Ha.
  destruct (batch_tracked applicationId api connectors startedAt analyses
              analyses_distinct executions0 [] 0 (no_live_interval 0) final Hrun)
    as [(He & _) Hfin].
  specialize (He a Ha). rewrite Hfin in He. exact He.
Qed.

Lemma step_other_keys (run run' : Run) (key : string) :
  consistent applicationId api connectors analyses run ->
  step applicationId api run run' ->
  key ∉ an_id <$> analyses ->
  executions run' !! key = executions run !! key.
Proof.
  intros (_ & Htask & _ & Htms) Hstep Hkey.
  destruct Hstep as [run before tm after Htm | run before task after now stamp rnd Hin Hv].
  - unfold tick. cbn [executions]. apply lookup_insert_ne. intros E.
    apply Hkey. rewrite <- E. apply Htms. rewrite Htm.
    apply elem_of_app. right. apply list_elem_of_here.
  - assert (Hne : an_id (t_analysis task) <> key).
    { intros E. apply Hkey. rewrite <- E. apply list_elem_of_fmap_2.
      apply Htask. rewrite Hin. apply elem_of_app. right. apply list_elem_of_here. }
    unfold settle. destruct (executeAgentMutation _ _ _); cbn [executions];
      now apply lookup_insert_ne.
Qed.

Lemma steps_other_keys (run run' : Run) (key : string) :
  steps applicationId api run run' ->
  consistent applicationId api connectors analyses run ->
  key ∉ an_id <$> analyses ->
  executions run' !! key = executions run !! key.
Proof.
  induction 1 as [run | run1 run2 run3 Hstep Hsteps IH]; intros Hc Hkey;
    [reflexivity|].
  rewrite IH; [now apply step_other_keys | | exact Hkey].
  exact (StepFourProps.step_consistent applicationId api connectors analyses
           analyses_distinct _ _ Hc Hstep).
Qed.

Lemma batch_other_keys (final : Run) (key : string) :
  executeAllAgents applicationId api connectors startedAt analyses executions0 final ->
  key ∉ an_id <$> analyses ->
  executions final !! key = executions0 !! key.
Proof.
  intros [Hsteps _] Hkey.
  rewrite (steps_other_keys _ _ key Hsteps); [| |exact Hkey].
  - unfold dispatch.
    destruct (StepFourProps.dispatch_shape connectors startedAt analyses
                (mkRun executions0 [] [] [] 0)) as (_ & _ & _ & _ & Hex).
    now rewrite Hex.
  - apply StepFourProps.dispatch_consistent, analyses_distinct.
Qed.

Lemma batch_dom (final : Run) :
  executeAllAgents applicationId api connectors startedAt analyses executions0 final ->
  dom (executions final) = dom executions0 ∪ list_to_set (an_id <$> analyses).
Proof.
  intros Hrun.
  destruct (StepFourProps.batch_final applicationId api connectors startedAt
              analyses analyses_distinct executions0 final Hrun) as [Hst _].
  apply set_eq. intros key. rewrite elem_of_union, !elem_of_dom, elem_of_list_to_set.
  destruct (decide (key ∈ an_id <$> analyses)) as [Hin | Hout].
  - split; [now right|]. intros _.
    apply list_elem_of_fmap in Hin as (a & -> & Ha).
    specialize (Hst a Ha). unfold statusOf in Hst.
    destruct (executions final !! an_id a); [eauto | discriminate].
  - rewrite (batch_other_keys final key Hrun Hout). tauto.
Qed.

(** X19: the guards of the agent call, seen from a finished batch over
    analyses with distinct ids. For a question with a connector: without an
    application id the question ends failed with the message of the first
    guard, whatever the agent would answer; with an empty id, or with
    neither a prompt nor an original question, with the message of the
    second or third guard; otherwise the agent's answer decides. *)
Theorem executeAllAgents_guards (final : Run) (a : QuestionAnalysis)
    (c : ToolConnector) :
  executeAllAgents applicationId api connectors startedAt analyses executions0 final ->
  a ∈ analyses ->
  getConnectorForTool connectors (toolSuggestion a) = Some c ->
  let text := orStr (orOpt (prompt a) (originalQuestion a)) EmptyString in
  let failsWith := fun message =>
    exists e, executions final !! an_id a = Some e
      /\ ex_status e = Some failed /\ ex_error e = Some message in
  (missingId applicationId = true -> failsWith "Application ID is required")
  /\ (missingId applicationId = false -> an_id a = EmptyString ->
      failsWith "Question ID is required")
  /\ (missingId applicationId = false -> an_id a <> EmptyString ->
      text = EmptyString -> failsWith "Prompt is required")
  /\ (missingId applicationId = false -> an_id a <> EmptyString ->
      text <> EmptyString ->
      match api (requestOf a c) with
      | Resolves _ => statusOf (executions final) (an_id a) = Some completed
      | Rejects err => failsWith (errorMessage err)
      end).
Proof.
  intros Hrun Ha Hconn text failsWith.
  pose proof (first_batch_entry final a Hrun Ha) as He.
  unfold entryAfter in He. rewrite Hconn in He. simpl in He.
  assert (Hfails : forall err,
            executeAgentMutation applicationId api (requestOf a c) = Rejects err ->
            failsWith (errorMessage err)).
  { intros err E. rewrite E in He. destruct He as (now & p & _ & Hl).
    eexists. split; [exact Hl|]. split; reflexivity. }
  unfold executeAgentMutation in *. cbn [requestOf rq_questionId rq_prompt] in *.
  fold text in He, Hfails.
  split; [|split; [|split]].
  - intros Hm. rewrite Hm in Hfails. now apply (Hfails (ErrorObject _)).
  - intros Hm Hid. rewrite Hm, Hid in Hfails. now apply (Hfails (ErrorObject _)).
  - intros Hm Hid Htext.
    assert (Hid' : truthyStr (an_id a) = true)
      by (destruct (an_id a); [congruence | reflexivity]).
    rewrite Hm, Hid', Htext in Hfails. now apply (Hfails (ErrorObject _)).
  - intros Hm Hid Htext.
    assert (Hid' : truthyStr (an_id a) = true)
      by (destruct (an_id a); [congruence | reflexivity]).
    assert (Htext' : truthyStr text = true)
      by (destruct text; [congruence | reflexivity]).
    rewrite Hm, Hid', Htext' in He, Hfails. simpl in He, Hfails.
    destruct (api (requestOf a c)) as [err | response].
    + now apply Hfails.
    + destruct He as (now & stamp & rnd & p & _ & Hl & _). unfold statusOf.
      rewrite Hl. reflexivity.
Qed.

(** *** The counters after a batch *)

Lemma filter_length_perm {A} (p : A -> bool) (l1 l2 : list A) :
  l1 ≡ₚ l2 -> length (List.filter p l1) = length (List.filter p l2).
Proof.
  induction 1 as [|x l1 l2 _ IH|x y l|l1 l2 l3 _ IH1 _ IH2]; simpl.
  - reflexivity.
  - destruct (p x); simpl; now rewrite IH.
  - destruct (p x), (p y); reflexivity.
  - now rewrite IH1.
Qed.

Lemma omap_ext_in {A B} (f g : A -> option B) (l : list A) :
  (forall x, x ∈ l -> f x = g x) -> omap f l = omap g l.
Proof.
  induction l as [|x l IH]; intros H; [reflexivity|].
  change (omap f (x :: l))
    with (match f x with Some y => y :: omap f l | None => omap f l end).
  change (omap g (x :: l))
    with (match g x with Some y => y :: omap g l | None => omap g l end).
  rewrite (H x) by apply list_elem_of_here.
  rewrite IH; [reflexivity|]. intros y Hy. apply H. now apply list_elem_of_further.
Qed.

(** A record with one entry per analysis lists the entries of the
    analyses. *)
Lemma executionList_analyses (l : list QuestionAnalysis) :
  forall m : gmap string AgentExecution,
    NoDup (an_id <$> l) ->
    dom m = list_to_set (an_id <$> l) ->
    executionList m ≡ₚ omap (fun a => m !! an_id a) l.
Proof.
  induction l as [|a l IH]; intros m Hnd Hdom.
  - apply dom_empty_iff_L in Hdom. subst m. unfold executionList.
    now rewrite map_to_list_empty.
  - rewrite fmap_cons in Hnd, Hdom. apply NoDup_cons in Hnd as [Hfresh Hnd].
    assert (Hin : an_id a ∈ dom m).
    { rewrite Hdom. apply elem_of_list_to_set. apply list_elem_of_here. }
    apply elem_of_dom in Hin as [e He].
    simpl. rewrite He. rewrite <- (insert_delete_id m (an_id a) e He) at 1.
    unfold executionList.
    rewrite map_to_list_insert by apply lookup_delete_eq.
    rewrite fmap_cons. simpl. apply Permutation_skip.
    rewrite (omap_ext_in (fun a0 => m !! an_id a0)
               (fun a0 => delete (an_id a) m !! an_id a0)).
    + apply (IH (delete (an_id a) m) Hnd).
      rewrite dom_delete_L, Hdom. apply set_eq. intros key.
      rewrite elem_of_difference, !elem_of_list_to_set, elem_of_cons,
        elem_of_singleton.
      split; [intros [[E | Hk] Hne]; [contradiction | exact Hk]|].
      intros Hk. split; [now right|]. intros E. apply Hfresh. now rewrite <- E.
    + intros x Hx. symmetry. apply lookup_delete_ne. intros E. apply Hfresh.
      rewrite E. now apply list_elem_of_fmap_2.
Qed.

Lemma count_omap (s : ExecStatus) (m : gmap string AgentExecution)
    (l : list QuestionAnalysis) :
  (forall a, a ∈ l -> is_Some (m !! an_id a)) ->
  length (List.filter (fun e => bool_decide (ex_status e = Some s))
            (omap (fun a => m !! an_id a) l))
  = length (List.filter (hasStatus s m) l).
Proof.
  induction l as [|a l IH]; intros Hall; [reflexivity|].
  destruct (Hall a) as [e He]; [apply list_elem_of_here|].
  change (omap (fun a => m !! an_id a) (a :: l))
    with (match m !! an_id a with
          | Some y => y :: omap (fun a => m !! an_id a) l
          | None => omap (fun a => m !! an_id a) l
          end).
  rewrite He. cbn [List.filter].
  replace (hasStatus s m a) with (bool_decide (ex_status e = Some s))
    by (unfold hasStatus, statusOf; now rewrite He).
  assert (IH' := IH (fun x Hx => Hall x (list_elem_of_further _ _ _ Hx))).
  destruct (bool_decide (ex_status e = Some s)); cbn [length]; now rewrite IH'.
Qed.

Lemma countStatus_analyses (s : ExecStatus) (m : gmap string AgentExecution)
    (l : list QuestionAnalysis) :
  NoDup (an_id <$> l) ->
  dom m = list_to_set (an_id <$> l) ->
  countStatus s m = length (List.filter (hasStatus s m) l).
Proof.
  intros Hnd Hdom. unfold countStatus.
  rewrite (filter_length_perm _ _ _ (executionList_analyses l m Hnd Hdom)).
  apply count_omap.
  intros a Ha. apply elem_of_dom. rewrite Hdom. apply elem_of_list_to_set.
  now apply list_elem_of_fmap_2.
Qed.

Lemma filter_length_three {A} (p q r : A -> bool) (l : list A) :
  (forall x, In x l ->
     (p x = true /\ q x = false /\ r x = false)
     \/ (p x = false /\ q x = true /\ r x = false)
     \/ (p x = false /\ q x = false /\ r x = true)) ->
  length (List.filter p l) + length (List.filter q l) + length (List.filter r l)
  = length l.
Proof.
  induction l as [|x l IH]; intros H; [reflexivity|]. simpl.
  specialize (IH (fun y Hy => H y (or_intror Hy))).
  destruct (H x (or_introl eq_refl)) as [(-> & -> & ->) | [(-> & -> & ->) | (-> & -> & ->)]];
    simpl; lia.
Qed.

(** X20: after a finished batch over analyses with distinct ids and a record
    that has entries for questions of the batch only (as the first fill
    leaves it), the counters of the header add up: completed, failed and no-
    connector counts sum to the number of questions, none is left pending or
    running, the no-connector count is the number shown in the missing-
    connector warning, and the gate is open exactly when there is a question
    and every question's call resolved. *)
Theorem counters_after_batch (final : Run) :
  dom executions0 ⊆ list_to_set (an_id <$> analyses) ->
  executeAllAgents applicationId api connectors startedAt analyses executions0 final ->
  countStatus completed (executions final) + countStatus failed (executions final)
    + countStatus no_connector (executions final)
  = length analyses
  /\ countStatus pending (executions final) = 0
  /\ countStatus running (executions final) = 0
  /\ countStatus no_connector (executions final)
     = length (questionsWithoutConnectors connectors analyses)
  /\ (canProceed (executions final) = true
      <-> analyses <> []
          /\ forall a, a ∈ analyses ->
               finalStatus applicationId api connectors a = completed).
Proof.
  intros Hsub Hrun.
  assert (Hdom : dom (executions final) = list_to_set (an_id <$> analyses)).
  { rewrite (batch_dom final Hrun). apply set_eq. intros key.
    rewrite elem_of_union. split; [intros [Hk | Hk]; auto|auto]. }
  destruct (StepFourProps.batch_final applicationId api connectors startedAt
              analyses analyses_distinct executions0 final Hrun) as [Hst _].
  assert (Hhas : forall s a, In a analyses ->
                   hasStatus s (executions final) a
                   = bool_decide (finalStatus applicationId api connectors a = s)).
  { intros s a Ha. apply list_elem_of_In in Ha.
    apply (StepFourProps.hasStatus_final s _ a _ (Hst a Ha)). }
  assert (Hcount : forall s,
            countStatus s (executions final)
            = length (List.filter
                        (fun a => bool_decide
                                    (finalStatus applicationId api connectors a = s))
                        analyses)).
  { intros s. rewrite (countStatus_analyses s _ analyses analyses_distinct Hdom).
    f_equal. apply List.filter_ext_in. intros a Ha. now apply Hhas. }
  split; [|split; [|split; [|split]]].
  - rewrite !Hcount. apply filter_length_three. intros a _.
    destruct (finalStatus applicationId api connectors a) eqn:Ef;
      try (exfalso; revert Ef; unfold finalStatus;
           destruct (getConnectorForTool connectors (toolSuggestion a));
           [destruct (executeAgentMutation _ _ _)|]; discriminate);
      [left | right; left | right; right]; repeat split;
      solve [now apply bool_decide_eq_true | now apply bool_decide_eq_false].
  - rewrite Hcount. rewrite StepFourProps.filter_none; [reflexivity|].
    intros a _. apply bool_decide_eq_false. unfold finalStatus.
    destruct (getConnectorForTool connectors (toolSuggestion a));
      [destruct (executeAgentMutation _ _ _)|]; discriminate.
  - rewrite Hcount. rewrite StepFourProps.filter_none; [reflexivity|].
    intros a _. apply bool_decide_eq_false. unfold finalStatus.
    destruct (getConnectorForTool connectors (toolSuggestion a));
      [destruct (executeAgentMutation _ _ _)|]; discriminate.
  - rewrite Hcount. unfold questionsWithoutConnectors. f_equal.
    apply List.filter_ext. intros a. unfold finalStatus.
    destruct (getConnectorForTool connectors (toolSuggestion a));
      [destruct (executeAgentMutation _ _ _)|]; reflexivity.
  - rewrite StepFourProps.canProceed_spec. split.
    + intros [Hne Hall]. split.
      * intros ->. apply Hne. apply dom_empty_iff_L. rewrite Hdom. reflexivity.
      * intros a Ha. specialize (Hst a Ha). unfold statusOf in Hst.
        destruct (executions final !! an_id a) as [e|] eqn:Ee; [|discriminate].
        rewrite (Hall _ _ Ee) in Hst. congruence.
    + intros [Hne Hall]. split.
      * intros Hempty. destruct analyses as [|a l]; [congruence|].
        assert (Hin : an_id a ∈ dom (executions final)).
        { rewrite Hdom. apply elem_of_list_to_set. apply list_elem_of_here. }
        rewrite Hempty, dom_empty_L in Hin. now apply not_elem_of_empty in Hin.
      * intros key e Hk.
        assert (Hin : key ∈ dom (executions final)) by (apply elem_of_dom; eauto).
        rewrite Hdom in Hin. apply elem_of_list_to_set in Hin.
        apply list_elem_of_fmap in Hin as (a & -> & Ha).
        specialize (Hst a Ha). unfold statusOf in Hst. rewrite Hk in Hst.
        rewrite Hst. f_equal. now apply Hall.
Qed.

End Entries.

Lemma sample_ids_plain :
  plainIds [Samples.accessAnalysis; Samples.ticketAnalysis].
Proof.
  unfold plainIds. intros Hin.
  apply elem_of_cons in Hin as [Hin | Hin]; [discriminate|].
  apply list_elem_of_singleton in Hin. discriminate.
Defined.

Lemma sample_ids_distinct :
  NoDup (an_id <$> [Samples.accessAnalysis; Samples.ticketAnalysis]).
Proof.
  apply NoDup_ListNoDup. repeat constructor; simpl; intuition discriminate.
Defined.

Lemma guardedRun_intervals :
  liveIntervals (timers Samples.guardedRun) (nextHandle Samples.guardedRun).
Proof.
  assert (E : timers Samples.guardedRun = [mkTimer 0 "11" 0]) by reflexivity.
  assert (E' : nextHandle Samples.guardedRun = 1) by reflexivity.
  rewrite E, E'. split; [|split].
  - apply NoDup_singleton.
  - intros tm Hin. apply list_elem_of_singleton in Hin. subst tm. simpl. lia.
  - intros tm Hin. apply list_elem_of_singleton in Hin. subst tm. simpl. lia.
Defined.

Lemma rerun_finishes :
  executeAllAgentsFrom (Some 1%Z) Samples.emptyAnswer [Samples.sqlConnector]
    (fun _ => 0%Z) [Samples.accessAnalysis; Samples.ticketAnalysis]
    (executions Samples.guardedRun) (timers Samples.guardedRun)
    (nextHandle Samples.guardedRun) Samples.rerun.
Proof.
  apply (StepFourProps.settleInOrder_finishes (Some 1%Z) Samples.emptyAnswer 9
           (mkDraw 0 53) 1).
  - unfold validDraw. simpl. lia.
  - vm_compute. lia.
Defined.

Lemma executeAllAgents_entries_witness :
  exists now stamp rnd p,
    validDraw rnd
    /\ executions Samples.rerun !! "11"
       = Some (mkExecution None (Some completed)
                 (Some (completedResult Samples.accessAnalysis Samples.sqlConnector
                          (mkResponse JUndefined JUndefined JUndefined) stamp rnd))
                 (Some "Application ID is required") p (Some 0%Z) (Some now))
    /\ (p = Some 100%Z
        \/ ("11" ∈ tm_key <$> timers Samples.guardedRun
            /\ exists q, (0 <= q <= 85)%Z /\ p = Some q)).
Proof.
  destruct (executeAllAgents_entries (Some 1%Z) Samples.emptyAnswer
              [Samples.sqlConnector] (fun _ => 0%Z)
              [Samples.accessAnalysis; Samples.ticketAnalysis] sample_ids_distinct
              (executions Samples.guardedRun) (timers Samples.guardedRun)
              (nextHandle Samples.guardedRun) guardedRun_intervals
              Samples.rerun rerun_finishes) as (He & _).
  apply (He Samples.accessAnalysis). apply list_elem_of_here.
Defined.

Lemma executeAllAgents_intervals_witness :
  length (timers Samples.rerun)
  = length (timers Samples.guardedRun)
    + length (List.filter
                (fun a => bool_decide
                            (finalStatus (Some 1%Z) Samples.emptyAnswer
                               [Samples.sqlConnector] a = failed))
                [Samples.accessAnalysis; Samples.ticketAnalysis]).
Proof.
  destruct (executeAllAgents_intervals (Some 1%Z) Samples.emptyAnswer
              [Samples.sqlConnector] (fun _ => 0%Z)
              [Samples.accessAnalysis; Samples.ticketAnalysis] sample_ids_distinct
              (executions Samples.guardedRun) (timers Samples.guardedRun)
              (nextHandle Samples.guardedRun) guardedRun_intervals
              Samples.rerun rerun_finishes) as (_ & _ & _ & _ & H & _).
  exact H.
Defined.

Lemma executeAllAgents_guards_witness :
  exists e, executions Samples.guardedRun !! "11" = Some e
    /\ ex_status e = Some failed
    /\ ex_error e = Some "Application ID is required".
Proof.
  destruct (StepFourProps.settleInOrder_finishes None Samples.emptyAnswer 0
              (mkDraw 0 53) 1
              (dispatch [Samples.sqlConnector] (fun _ => 0%Z) ∅
                 [Samples.accessAnalysis; Samples.ticketAnalysis]))
    as [Hsteps Hfin].
  { unfold validDraw. simpl. lia. }
  { vm_compute. lia. }
  destruct (executeAllAgents_guards None Samples.emptyAnswer
              [Samples.sqlConnector] (fun _ => 0%Z)
              [Samples.accessAnalysis; Samples.ticketAnalysis] sample_ids_distinct
              ∅ Samples.guardedRun Samples.accessAnalysis Samples.sqlConnector
              (conj Hsteps Hfin)) as (H & _).
  - apply list_elem_of_here.
  - reflexivity.
  - apply H. reflexivity.
Defined.

Lemma counters_after_batch_witness :
  countStatus no_connector (executions Samples.batchRun)
  = length (questionsWithoutConnectors [Samples.sqlConnector]
              [Samples.accessAnalysis; Samples.ticketAnalysis]).
Proof.
  destruct (StepFourProps.settleInOrder_finishes (Some 1%Z) Samples.emptyAnswer 0
              (mkDraw 0 53) 1
              (dispatch [Samples.sqlConnector] (fun _ => 0%Z) ∅
                 [Samples.accessAnalysis; Samples.ticketAnalysis]))
    as [Hsteps Hfin].
  { unfold validDraw. simpl. lia. }
  { vm_compute. lia. }
  destruct (counters_after_batch (Some 1%Z) Samples.emptyAnswer
              [Samples.sqlConnector] (fun _ => 0%Z)
              [Samples.accessAnalysis; Samples.ticketAnalysis] sample_ids_distinct
              ∅ Samples.batchRun) as (_ & _ & _ & H & _).
  - rewrite dom_empty_L. apply empty_subseteq.
  - exact (conj Hsteps Hfin).
  - exact H.
Defined.

(** *** Saving the results *)

Lemma executionList_elem_of (m : gmap string AgentExecution) (e : AgentExecution) :
  In e (executionList m) <-> exists key, m !! key = Some e.
Proof.
  unfold executionList. rewrite <- list_elem_of_In, list_elem_of_fmap. split.
  - intros ([k x] & -> & Hin). apply elem_of_map_to_list in Hin. simpl. eauto.
  - intros [key He]. exists (key, e). split; [reflexivity|].
    now apply elem_of_map_to_list.
Qed.

Lemma completed_elem_of (m : gmap string AgentExecution) (e : AgentExecution) :
  In e (List.filter isCompleted (executionList m))
  <-> exists key, m !! key = Some e /\ ex_status e = Some completed.
Proof.
  rewrite filter_In, executionList_elem_of, StepFourProps.isCompleted_spec.
  split.
  - intros [[key He] Hs]. eauto.
  - intros (key & He & Hs). eauto.
Qed.

Lemma length_omap_le {A B} (f : A -> option B) (l : list A) :
  length (omap f l) <= length l.
Proof.
  induction l as [|x l IH]; [reflexivity|].
  change (omap f (x :: l))
    with (match f x with Some y => y :: omap f l | None => omap f l end).
  destruct (f x); simpl; lia.
Qed.

Lemma completed_count (m : gmap string AgentExecution) :
  length (List.filter isCompleted (executionList m)) = countStatus completed m.
Proof.
  unfold countStatus. f_equal. apply List.filter_ext. intros e.
  unfold isCompleted. destruct (ex_status e) as [[]|]; reflexivity.
Qed.

Lemma saveAllResults_sent (saveApi : SaveRequest -> bool)
    (analyses : list QuestionAnalysis) (executions : gmap string AgentExecution)
    (r : SaveRequest) :
  r ∈ (saveAllResults saveApi analyses executions).1
  <-> exists key e,
        executions !! key = Some e /\ ex_status e = Some completed
        /\ saveRequestOf e (toolTypeOf analyses e) = Some r.
Proof.
  unfold saveAllResults. cbn [fst]. rewrite list_elem_of_omap. split.
  - intros (x & Hx & Er). simpl in Er. subst x.
    apply list_elem_of_In, in_map_iff in Hx as (e & Ee & He).
    apply completed_elem_of in He as (key & He & Hs). eauto.
  - intros (key & e & He & Hs & Er). exists (Some r). split; [|reflexivity].
    apply list_elem_of_In, in_map_iff. exists e. split; [exact Er|].
    apply completed_elem_of. eauto.
Qed.

(** X21: [saveAllResults] starts one save for every completed execution and
    for no other; an execution without result sends nothing and makes the
    batch of saves fail. The success toast appears exactly when every
    completed execution was sent and saved, and the count it shows is the
    number of completed executions. *)
Theorem saveAllResults_spec (saveApi : SaveRequest -> bool)
    (analyses : list QuestionAnalysis) (executions : gmap string AgentExecution) :
  let sent := (saveAllResults saveApi analyses executions).1 in
  let toast := (saveAllResults saveApi analyses executions).2 in
  (forall r, r ∈ sent
     <-> exists key e,
           executions !! key = Some e /\ ex_status e = Some completed
           /\ saveRequestOf e (toolTypeOf analyses e) = Some r)
  /\ length sent <= countStatus completed executions
  /\ (forall n, toast = AllResultsSaved n
        <-> n = countStatus completed executions
            /\ forall key e,
                 executions !! key = Some e -> ex_status e = Some completed ->
                 exists r, saveRequestOf e (toolTypeOf analyses e) = Some r
                           /\ saveApi r = true).
Proof.
  cbv zeta. split; [intros r; apply saveAllResults_sent|].
  unfold saveAllResults. cbn [fst snd]. split.
  - rewrite <- completed_count.
    etransitivity; [apply length_omap_le|]. now rewrite length_map.
  - intros n. rewrite <- completed_count.
    destruct (forallb _ _) eqn:Ef.
    + rewrite forallb_forall in Ef. split.
      * intros [= <-]. split; [reflexivity|]. intros key e He Hs.
        specialize (Ef (saveRequestOf e (toolTypeOf analyses e))).
        destruct (saveRequestOf e (toolTypeOf analyses e)) as [r|] eqn:Er.
        -- exists r. split; [reflexivity|]. apply Ef.
           apply in_map_iff. exists e. split; [exact Er|].
           apply completed_elem_of. eauto.
        -- exfalso. enough (false = true) by discriminate. apply Ef.
           apply in_map_iff. exists e. split; [exact Er|].
           apply completed_elem_of. eauto.
      * intros [-> _]. reflexivity.
    + split; [discriminate|]. intros [_ Hall]. exfalso.
      enough (forallb (fun promise : option SaveRequest =>
                         match promise with
                         | Some request => saveApi request
                         | None => false
                         end)
                (map (fun execution =>
                        saveRequestOf execution (toolTypeOf analyses execution))
                   (List.filter isCompleted (executionList executions))) = true)
        by congruence.
      apply forallb_forall. intros x Hx.
      apply in_map_iff in Hx as (e & <- & He).
      apply completed_elem_of in He as (key & He & Hs).
      destruct (Hall key e He Hs) as (r & -> & Hr). exact Hr.
Qed.

Lemma find_by_id (l : list QuestionAnalysis) (a : QuestionAnalysis) :
  NoDup (an_id <$> l) -> a ∈ l ->
  List.find (fun x => String.eqb (an_id x) (an_id a)) l = Some a.
Proof.
  induction l as [|x l IH]; intros Hnd Ha; [inversion Ha|].
  rewrite fmap_cons in Hnd. apply NoDup_cons in Hnd as [Hfresh Hnd]. simpl.
  apply elem_of_cons in Ha as [-> | Ha]; [now rewrite String.eqb_refl|].
  destruct (String.eqb_spec (an_id x) (an_id a)) as [E | _]; [|now apply IH].
  exfalso. apply Hfresh. rewrite E. now apply list_elem_of_fmap_2.
Qed.

Lemma initialEntry_questionId (connectors : list ToolConnector)
    (savedAnswers : list SavedAnswer) (a : QuestionAnalysis) :
  ex_questionId (initialEntry connectors savedAnswers a) = Some (an_id a).
Proof. unfold initialEntry. now destruct (List.find _ savedAnswers). Qed.

(** X22: what is saved after the first fill and a finished batch, for
    analyses with distinct ids, none of them [__proto__]. The requests that
    [saveAllResults] sends are those of the questions whose agent call
    resolved; the request of a question carries its id, the normalized
    result of its call, the name of its connector as source and its
    suggested tool as the tool used. Questions that failed or have no
    connector are not sent, also when the first fill had shown them
    completed from a saved answer. *)
Theorem saved_after_batch (applicationId : option Z)
    (api : AgentRequest -> CallOutcome) (connectors : list ToolConnector)
    (startedAt : QuestionAnalysis -> Z) (analyses : list QuestionAnalysis)
    (savedAnswers : list SavedAnswer) (saveApi : SaveRequest -> bool)
    (final : Run) :
  plainIds analyses ->
  NoDup (an_id <$> analyses) ->
  executeAllAgents applicationId api connectors startedAt analyses
    (initialExecutions connectors savedAnswers analyses) final ->
  let sent := (saveAllResults saveApi analyses (executions final)).1 in
  let requestFor := fun (a : QuestionAnalysis) (result : ExecResult) =>
    mkSaveRequest (Some (an_id a)) (data result)
      (jsOr (findings result) (JArr [])) (riskLevel result)
      (complianceStatus result) (records result) (Some (toolSuggestion a))
      (source result) (timestamp result) in
  (forall r, r ∈ sent ->
     exists a c response now rnd,
       a ∈ analyses
       /\ getConnectorForTool connectors (toolSuggestion a) = Some c
       /\ executeAgentMutation applicationId api (requestOf a c) = Resolves response
       /\ validDraw rnd
       /\ r = requestFor a (completedResult a c response now rnd))
  /\ (forall a c response,
        a ∈ analyses ->
        getConnectorForTool connectors (toolSuggestion a) = Some c ->
        executeAgentMutation applicationId api (requestOf a c) = Resolves response ->
        exists now rnd,
          validDraw rnd
          /\ requestFor a (completedResult a c response now rnd) ∈ sent)
  /\ (forall a r,
        a ∈ analyses ->
        finalStatus applicationId api connectors a <> completed ->
        r ∈ sent -> sv_questionId r <> Some (an_id a)).
Proof.
  intros _ Hnd Hrun sent requestFor.
  pose proof (fun a => first_batch_entry applicationId api connectors startedAt
                         analyses Hnd _ final a Hrun) as He.
  pose proof (batch_dom applicationId api connectors startedAt analyses Hnd
                _ final Hrun) as Hdom.
  rewrite initialExecutions_dom in Hdom.
  assert (Hentry : forall a, a ∈ analyses ->
            match getConnectorForTool connectors (toolSuggestion a) with
            | None =>
                exists e, executions final !! an_id a = Some e
                  /\ ex_status e = Some no_connector
            | Some c =>
                match executeAgentMutation applicationId api (requestOf a c) with
                | Resolves response =>
                    exists now rnd e, validDraw rnd
                      /\ executions final !! an_id a = Some e
                      /\ ex_status e = Some completed
                      /\ saveRequestOf e (toolTypeOf analyses e)
                         = Some (requestFor a (completedResult a c response now rnd))
                | Rejects _ =>
                    exists e, executions final !! an_id a = Some e
                      /\ ex_status e = Some failed
                end
            end).
  { intros a Ha. specialize (He a Ha). unfold entryAfter in He.
    simpl in He. unfold spread in He.
    rewrite (initialExecutions_lookup _ _ _ _ Hnd Ha) in He. simpl in He.
    destruct (getConnectorForTool connectors (toolSuggestion a)) as [c|].
    - destruct (executeAgentMutation applicationId api (requestOf a c))
        as [err | response].
      + destruct He as (now & q & _ & Hl). eexists. split; [exact Hl|].
        reflexivity.
      + destruct He as (now & stamp & rnd & p & Hv & Hl & _).
        exists stamp, rnd. eexists.
        split; [exact Hv|]. split; [exact Hl|]. split; [reflexivity|].
        unfold saveRequestOf, toolTypeOf. simpl.
        rewrite initialEntry_questionId, (find_by_id _ _ Hnd Ha). reflexivity.
    - destruct He as (p & Hl & _). eexists. split; [exact Hl|]. reflexivity. }
  assert (Hkey : forall key e, executions final !! key = Some e ->
            exists a, a ∈ analyses /\ key = an_id a).
  { intros key e Hk.
    assert (Hin : key ∈ dom (executions final)) by (apply elem_of_dom; eauto).
    rewrite Hdom, elem_of_union, elem_of_list_to_set in Hin.
    destruct Hin as [Hin | Hin];
      apply list_elem_of_fmap in Hin as (a & -> & Ha); eauto. }
  pose proof (saveAllResults_sent saveApi analyses (executions final)) as Hsent.
  fold sent in Hsent.
  assert (Hfrom : forall r, r ∈ sent ->
            exists a c response now rnd,
              a ∈ analyses
              /\ getConnectorForTool connectors (toolSuggestion a) = Some c
              /\ executeAgentMutation applicationId api (requestOf a c)
                 = Resolves response
              /\ validDraw rnd
              /\ r = requestFor a (completedResult a c response now rnd)).
  { intros r Hr. apply Hsent in Hr as (key & e & Hk & Hs & Er).
    destruct (Hkey key e Hk) as (a & Ha & ->).
    specialize (Hentry a Ha).
    destruct (getConnectorForTool connectors (toolSuggestion a)) as [c|] eqn:Ec.
    - destruct (executeAgentMutation applicationId api (requestOf a c))
        as [err | response] eqn:Eout.
      + destruct Hentry as (e' & Hk' & Hs'). congruence.
      + destruct Hentry as (now & rnd & e' & Hv & Hk' & _ & Er').
        exists a, c, response, now, rnd.
        split; [exact Ha|]. split; [exact Ec|]. split; [exact Eout|].
        split; [exact Hv|]. congruence.
    - destruct Hentry as (e' & Hk' & Hs'). congruence. }
  split; [exact Hfrom|]. split.
  - intros a c response Ha Ec Eout. specialize (Hentry a Ha).
    rewrite Ec, Eout in Hentry.
    destruct Hentry as (now & rnd & e & Hv & Hk & Hs & Er).
    exists now, rnd. split; [exact Hv|]. apply Hsent. eauto.
  - intros a r Ha Hs Hr Eid.
    destruct (Hfrom r Hr) as (a' & c & response & now & rnd & Ha' & Ec & Eout & _ & ->).
    simpl in Eid. injection Eid as Eid.
    assert (a' = a) by (eapply StepFourProps.fmap_NoDup_inj; eauto). subst a'.
    apply Hs. unfold finalStatus. now rewrite Ec, Eout.
Qed.

Lemma saved_after_batch_witness :
  exists r,
    r ∈ (saveAllResults (fun _ => true)
           [Samples.accessAnalysis; Samples.ticketAnalysis]
           (executions Samples.filledRun)).1
    /\ sv_questionId r = Some "11"
    /\ sv_toolsUsed r = Some "sql_server"
    /\ sv_source r = "Production SQL Server".
Proof.
  destruct (StepFourProps.settleInOrder_finishes (Some 1%Z) Samples.emptyAnswer 0
              (mkDraw 0 53) 1
              (dispatch [Samples.sqlConnector] (fun _ => 0%Z)
                 (initialExecutions [Samples.sqlConnector] []
                    [Samples.accessAnalysis; Samples.ticketAnalysis])
                 [Samples.accessAnalysis; Samples.ticketAnalysis]))
    as [Hsteps Hfin].
  { unfold validDraw. simpl. lia. }
  { vm_compute. lia. }
  destruct (saved_after_batch (Some 1%Z) Samples.emptyAnswer
              [Samples.sqlConnector] (fun _ => 0%Z)
              [Samples.accessAnalysis; Samples.ticketAnalysis] []
              (fun _ => true) Samples.filledRun sample_ids_plain
              sample_ids_distinct (conj Hsteps Hfin)) as (_ & H & _).
  destruct (H Samples.accessAnalysis Samples.sqlConnector
              (mkResponse JUndefined JUndefined JUndefined)) as (now & rnd & _ & Hin).
  - apply list_elem_of_here.
  - reflexivity.
  - reflexivity.
  - eexists. split; [exact Hin|]. split; [reflexivity|]. split; reflexivity.
Defined.

End StepFourExtra.

(** ** From the server's classifier to the agents of Step 4 *)

Module PipelineExtra.
Import Js ToolIds StepFour.

Lemma find_all_false {A} (p : A -> bool) (l : list A) :
  (forall x, In x l -> p x = false) -> List.find p l = None.
Proof.
  induction l as [|x l IH]; intros H; [reflexivity|]. simpl.
  rewrite (H x (or_introl eq_refl)). apply IH. intros y Hy. apply H. now right.
Qed.

Lemma find_ext_in {A} (p q : A -> bool) (l : list A) :
  (forall x, In x l -> p x = q x) -> List.find p l = List.find q l.
Proof.
  induction l as [|x l IH]; intros H; [reflexivity|]. simpl.
  rewrite (H x (or_introl eq_refl)), IH; [reflexivity|].
  intros y Hy. apply H. now right.
Qed.

(** No connector type of the dialog is a label of the classifier other than
    "ServiceNow". *)
Lemma label_matches_no_type (label connector : string) (t : string) :
  In (label, connector) ClassifierSpec.labelPairs ->
  label <> "ServiceNow" ->
  In t Settings.connectorConfigTypes ->
  matchesTool t label = false.
Proof.
  intros Hl Hne Ht. simpl in Hl, Ht.
  repeat (destruct Hl as [[= <- <-] | Hl];
          [try congruence;
           repeat (destruct Ht as [<- | Ht]; [reflexivity|]); contradiction|]).
  contradiction.
Qed.

Lemma unmatched_label (connectors : list ToolConnector) (label connector : string) :
  Forall (fun c => In (connectorType c) Settings.connectorConfigTypes) connectors ->
  In (label, connector) ClassifierSpec.labelPairs ->
  label <> "ServiceNow" ->
  getConnectorForTool connectors label = None.
Proof.
  intros Hall Hl Hne. unfold getConnectorForTool. apply find_all_false.
  intros c Hc. rewrite Forall_forall in Hall.
  apply list_elem_of_In in Hc.
  now rewrite (label_matches_no_type label connector _ Hl Hne (Hall c Hc)).
Qed.

(** X23: the labels of the server's classifier against the connectors of
    the settings page.  When every connector has one of the six types the
    connector dialog offers, a question that the classifier labels with
    anything but "ServiceNow" has no connector in Step 4, whatever text it
    has and whatever connectors are active; a "ServiceNow" question gets
    the first active ServiceNow connector.  So in a finished batch every
    analysis that carries such a label ends in no_connector and keeps the
    gate of Step 4 closed. *)
Theorem classified_questions_connectors (connectors : list ToolConnector)
    (q : Routes.Question) :
  Forall (fun c => In (connectorType c) Settings.connectorConfigTypes) connectors ->
  let label := Routes.determineToolSuggestion q in
  (label <> "ServiceNow" -> getConnectorForTool connectors label = None)
  /\ (label = "ServiceNow" ->
      getConnectorForTool connectors label
      = List.find (fun c => String.eqb (connectorType c) "ServiceNow"
                            && String.eqb (c_status c) "active")
                  connectors)
  /\ (forall applicationId api startedAt analyses executions0 final a,
        NoDup (an_id <$> analyses) ->
        executeAllAgents applicationId api connectors startedAt analyses
          executions0 final ->
        a ∈ analyses ->
        toolSuggestion a = label ->
        label <> "ServiceNow" ->
        statusOf (executions final) (an_id a) = Some no_connector
        /\ canProceed (executions final) = false).
Proof.
  intros Hall label.
  assert (Hnone : label <> "ServiceNow" -> getConnectorForTool connectors label = None).
  { intros Hne.
    apply (unmatched_label connectors label (Routes.determineConnector q) Hall);
      [apply RouteProps.determine_pair | exact Hne]. }
  split; [exact Hnone|]. split.
  - intros ->. unfold getConnectorForTool. apply find_ext_in. reflexivity.
  - intros applicationId api startedAt analyses executions0 final a Hnd Hrun Ha El Hne.
    destruct (StepFourProps.batch_final applicationId api connectors startedAt
                analyses Hnd executions0 final Hrun) as [Hst _].
    specialize (Hst a Ha).
    assert (Hf : finalStatus applicationId api connectors a = no_connector).
    { unfold finalStatus. now rewrite El, (Hnone Hne). }
    rewrite Hf in Hst. split; [exact Hst|].
    unfold statusOf in Hst.
    destruct (executions final !! an_id a) as [e|] eqn:Ee; [|discriminate].
    apply (StepFourProps.canProceed_blocked _ (an_id a) e Ee).
    rewrite Hst. discriminate.
Qed.

Lemma classified_questions_connectors_witness :
  getConnectorForTool [Samples.sqlConnector]
    (Routes.determineToolSuggestion Samples.accessQuestion)
  = None.
Proof.
  destruct (classified_questions_connectors [Samples.sqlConnector]
              Samples.accessQuestion) as (H & _).
  - repeat constructor.
  - apply H. vm_compute. discriminate.
Defined.

End PipelineExtra.
